(** * wds-metrics: version resolution, change detection and adoption metrics

    A shallow embedding of the adoption pipeline of the repository:

    - [track_versions_multi_repo.py] (class [MultiRepoVersionTracker]),
    - [track_component_versions.py] (class [ComponentVersionTracker]),
    - [analyze_adoption_patterns.py] (class [AdoptionAnalyzer]).

    Python values are embedded as a small universe of JSON values with the
    operations the scripts apply to them ([in], subscript, [.get], [.items],
    truth value, [==]); an operation applied to a value of the wrong kind
    raises the exception Python raises.  The [git] subprocesses and the file
    system are an explicit, read-only record of query results. *)

From Stdlib Require Import List String Ascii Bool Arith ZArith QArith Lia.
From Stdlib Require Import Permutation Sorted.
Import ListNotations.

Local Open Scope string_scope.
Local Open Scope list_scope.

(** ** Exceptions and fallible computations *)

(** The exception classes that the scripts raise or catch. *)
Inductive exn : Type :=
| CalledProcessError
| JSONDecodeError
| AttributeError
| TypeError
| KeyError
| IndexError
| ValueError
| UnicodeDecodeError
| RecursionError.

(** A computation either returns a value or raises. *)
Inductive result (A : Type) : Type :=
| Ok (a : A)
| Raise (e : exn).

Arguments Ok {A} a.
Arguments Raise {A} e.

Definition bind {A B : Type} (r : result A) (k : A -> result B) : result B :=
  match r with
  | Ok a => k a
  | Raise e => Raise e
  end.

Notation "x <- r ;; k" := (bind r (fun x => k))
  (at level 61, r at next level, right associativity).

Definition raises {A : Type} (r : result A) : Prop :=
  exists e, r = Raise e.

Definition returns {A : Type} (r : result A) : Prop :=
  exists a, r = Ok a.

(** ** Python values read from JSON *)

(** What [json.loads] produces: [None], [bool], numbers, [str], [list] and
    [dict].  A number carries its exact value (an [int], or a finite
    [float]); the non-standard constants NaN and Infinity are left out.  A
    [dict] is the list of its items in insertion order; [json.loads] never
    produces two items with one key. *)
#[local] Unset Elimination Schemes.
Inductive json : Type :=
| JNull
| JBool (b : bool)
| JNum (q : Q)
| JStr (s : string)
| JArr (l : list json)
| JObj (m : list (string * json)).
#[local] Set Elimination Schemes.

(** [bool(v)]: the truth value used by [if v] and [not v]. *)
Definition truthy (v : json) : bool :=
  match v with
  | JNull => false
  | JBool b => b
  | JNum q => negb (Qeq_bool q 0)
  | JStr s => negb (s =? "")
  | JArr l => match l with [] => false | _ => true end
  | JObj m => match m with [] => false | _ => true end
  end.

(** [d.get(key)] on the items of a dict: the value, if the key is there. *)
Fixpoint lookup {A : Type} (key : string) (m : list (string * A)) : option A :=
  match m with
  | [] => None
  | (k, v) :: rest => if k =? key then Some v else lookup key rest
  end.

Definition has_key {A : Type} (key : string) (m : list (string * A)) : bool :=
  match lookup key m with
  | Some _ => true
  | None => false
  end.

Definition bool_value (b : bool) : Q := if b then 1 else 0.

(** [a == b].  [bool] is a subclass of [int], so [True == 1]; lists compare
    element by element; dicts compare as mappings, whatever the order of
    their items. *)
Fixpoint py_eq (a b : json) {struct a} : bool :=
  match a with
  | JNull => match b with JNull => true | _ => false end
  | JBool x =>
      match b with
      | JBool y => Bool.eqb x y
      | JNum q => Qeq_bool (bool_value x) q
      | _ => false
      end
  | JNum p =>
      match b with
      | JBool y => Qeq_bool p (bool_value y)
      | JNum q => Qeq_bool p q
      | _ => false
      end
  | JStr s => match b with JStr t => s =? t | _ => false end
  | JArr l =>
      match b with
      | JArr l' =>
          (fix all2 (xs ys : list json) {struct xs} : bool :=
             match xs, ys with
             | [], [] => true
             | x :: xs', y :: ys' => py_eq x y && all2 xs' ys'
             | _, _ => false
             end) l l'
      | _ => false
      end
  | JObj m =>
      match b with
      | JObj m' =>
          (List.length m =? List.length m')%nat &&
          (fix all (items : list (string * json)) {struct items} : bool :=
             match items with
             | [] => true
             | (k, v) :: rest =>
                 match lookup k m' with
                 | Some v' => py_eq v v'
                 | None => false
                 end && all rest
             end) m
      | _ => false
      end
  end.

(** [a != b]. *)
Definition py_ne (a b : json) : bool := negb (py_eq a b).

(** Structural induction on a value, through its lists and dicts. *)
Section JsonInduction.

Variable P : json -> Prop.
Hypothesis P_null : P JNull.
Hypothesis P_bool : forall b, P (JBool b).
Hypothesis P_num : forall q, P (JNum q).
Hypothesis P_str : forall s, P (JStr s).
Hypothesis P_arr : forall l, Forall P l -> P (JArr l).
Hypothesis P_obj : forall m, Forall (fun kv => P (snd kv)) m -> P (JObj m).

Fixpoint json_induction (v : json) : P v :=
  match v with
  | JNull => P_null
  | JBool b => P_bool b
  | JNum q => P_num q
  | JStr s => P_str s
  | JArr l =>
      P_arr l
        ((fix each (xs : list json) : Forall P xs :=
            match xs with
            | [] => Forall_nil P
            | x :: xs' => Forall_cons x (json_induction x) (each xs')
            end) l)
  | JObj m =>
      P_obj m
        ((fix each (kvs : list (string * json))
            : Forall (fun kv => P (snd kv)) kvs :=
            match kvs with
            | [] => Forall_nil _
            | kv :: kvs' =>
                Forall_cons kv (json_induction (snd kv)) (each kvs')
            end) m)
  end.

End JsonInduction.

(** The two loops inside [py_eq], on their own. *)
Fixpoint all2 {A : Type} (eq : A -> A -> bool) (xs ys : list A) : bool :=
  match xs, ys with
  | [], [] => true
  | x :: xs', y :: ys' => eq x y && all2 eq xs' ys'
  | _, _ => false
  end.

Definition item_in (m' : list (string * json)) (kv : string * json) : bool :=
  match lookup (fst kv) m' with
  | Some v' => py_eq (snd kv) v'
  | None => false
  end.

(** Two values are the same when they are identical or [==] holds. *)
Definition same_value (a b : json) : Prop := a = b \/ py_eq a b = true.

(** A version as a manifest is expected to hold it: a string, or [None]. *)
Definition is_text (v : json) : bool :=
  match v with
  | JNull | JStr _ => true
  | _ => false
  end.

(** [needle in haystack] for two strings: the substring test. *)
Fixpoint is_substring (needle haystack : string) : bool :=
  String.prefix needle haystack ||
  match haystack with
  | EmptyString => false
  | String _ rest => is_substring needle rest
  end.

(** [s.endswith(suffix)]. *)
Definition endswith (s suffix : string) : bool :=
  (String.length suffix <=? String.length s)%nat &&
  (substring (String.length s - String.length suffix) (String.length suffix) s
   =? suffix).

(** [s.split(sep)[0]] for a one-character separator: [s] up to its first
    [sep], all of [s] when there is none. *)
Fixpoint split_head (sep : ascii) (s : string) : string :=
  match s with
  | EmptyString => EmptyString
  | String c rest =>
      if Ascii.eqb c sep then EmptyString else String c (split_head sep rest)
  end.

(** [s.split(sep)] for a one-character separator. *)
Fixpoint split (sep : ascii) (s : string) : list string :=
  match s with
  | EmptyString => [EmptyString]
  | String c rest =>
      if Ascii.eqb c sep then EmptyString :: split sep rest
      else
        match split sep rest with
        | [] => [String c EmptyString]
        | part :: parts => String c part :: parts
        end
  end.

(** [s.lstrip('^~')]: drop every leading ['^'] and ['~']. *)
Fixpoint lstrip_range (s : string) : string :=
  match s with
  | EmptyString => EmptyString
  | String c rest =>
      if Ascii.eqb c "^"%char || Ascii.eqb c "~"%char then lstrip_range rest
      else s
  end.

(** [key in v]: membership for a dict, an element test for a list, the
    substring test for a string; the other values are not iterable. *)
Definition py_in (key : string) (v : json) : result bool :=
  match v with
  | JObj m => Ok (has_key key m)
  | JArr l => Ok (existsb (py_eq (JStr key)) l)
  | JStr s => Ok (is_substring key s)
  | JNull | JBool _ | JNum _ => Raise TypeError
  end.

(** [v[key]] with a string key: only a dict can be indexed by a string. *)
Definition py_getitem (v : json) (key : string) : result json :=
  match v with
  | JObj m =>
      match lookup key m with
      | Some x => Ok x
      | None => Raise KeyError
      end
  | _ => Raise TypeError
  end.

(** [v.get(key)]: only a dict has the method; a missing key gives [None]. *)
Definition py_get (v : json) (key : string) : result json :=
  match v with
  | JObj m =>
      match lookup key m with
      | Some x => Ok x
      | None => Ok JNull
      end
  | _ => Raise AttributeError
  end.

(** [v.items()]. *)
Definition py_items (v : json) : result (list (string * json)) :=
  match v with
  | JObj m => Ok m
  | _ => Raise AttributeError
  end.

(** ** Version Resolver *)

(** An element of [versions["transitive_overrides"]]. *)
Record transitive : Type := mkTransitive {
  parent : string;
  version : json
}.

(** The dict built by [extract_component_versions]. *)
Record versions : Type := mkVersions {
  dependency : json;
  override : json;
  transitive_overrides : list transitive
}.

(** The starting value of [last_versions]. *)
Definition no_versions : versions := mkVersions JNull JNull [].

Section Resolver.

(** [self.package_name]. *)
Variable package_name : string.

(** [">" in key and key.endswith(f">{self.package_name}")]. *)
Definition is_transitive_key (key : string) : bool :=
  is_substring ">" key && endswith key (">" ++ package_name)%string.

(** The loop over [overrides.items()] of [extract_component_versions]. *)
Fixpoint collect_transitive (items : list (string * json)) : list transitive :=
  match items with
  | [] => []
  | (key, value) :: rest =>
      if is_transitive_key key
      then mkTransitive (split_head ">" key) value :: collect_transitive rest
      else collect_transitive rest
  end.

(** [extract_component_versions] (the same text in both trackers). *)
Definition extract_component_versions (package_json : json) : result versions :=
  has_deps <- py_in "dependencies" package_json ;;
  dep <- (if has_deps : bool
          then (deps <- py_getitem package_json "dependencies" ;;
                py_get deps package_name)
          else Ok JNull) ;;
  has_dev <- (if truthy dep then Ok false
              else py_in "devDependencies" package_json) ;;
  dep <- (if has_dev : bool
          then (dev <- py_getitem package_json "devDependencies" ;;
                py_get dev package_name)
          else Ok dep) ;;
  has_pnpm <- py_in "pnpm" package_json ;;
  has_overrides <- (if has_pnpm : bool
                    then (pnpm <- py_getitem package_json "pnpm" ;;
                          py_in "overrides" pnpm)
                    else Ok false) ;;
  if has_overrides : bool
  then
    pnpm <- py_getitem package_json "pnpm" ;;
    overrides <- py_getitem pnpm "overrides" ;;
    ovr <- py_get overrides package_name ;;
    items <- py_items overrides ;;
    Ok (mkVersions dep ovr (collect_transitive items))
  else Ok (mkVersions dep JNull []).

End Resolver.

(** The effective version of a [versions] dict, as both trackers compute it
    for the new and for the previous snapshot
    (priority: direct override > transitive override > dependency). *)
Definition effective (v : versions) : json :=
  let effective := override v in
  let effective :=
    if negb (truthy effective)
    then match transitive_overrides v with
         | first :: _ => version first
         | [] => effective
         end
    else effective in
  if negb (truthy effective) then dependency v else effective.

(** ** Dates *)

(** A naive [datetime]: both [strptime] with ["%Y-%m-%d %H:%M:%S"] and
    [fromisoformat] on the dates the release extractor writes give one. *)
Record datetime : Type := mkDatetime {
  year : Z;
  month : Z;
  day : Z;
  hour : Z;
  minute : Z;
  second : Z;
  microsecond : Z
}.

Definition is_leap (y : Z) : bool :=
  ((y mod 4 =? 0) && (negb (y mod 100 =? 0) || (y mod 400 =? 0)))%Z.

(** Number of days before January 1st of year [y]. *)
Definition days_before_year (y : Z) : Z :=
  let y := (y - 1)%Z in
  (y * 365 + y / 4 - y / 100 + y / 400)%Z.

(** Number of days in year [y] before the first day of month [m]. *)
Definition days_before_month (y m : Z) : Z :=
  let table := [0; 31; 59; 90; 120; 151; 181; 212; 243; 273; 304; 334]%Z in
  (nth (Z.to_nat (m - 1)) table 0 +
   (if (2 <? m) && is_leap y then 1 else 0))%Z.

(** [d.toordinal()]: day 1 is 0001-01-01. *)
Definition toordinal (d : datetime) : Z :=
  (days_before_year (year d) + days_before_month (year d) (month d) + day d)%Z.

(** Microseconds from 0001-01-01 00:00:00 (minus one day). *)
Definition to_microseconds (d : datetime) : Z :=
  (((toordinal d * 24 + hour d) * 60 + minute d) * 60 + second d) * 1000000
  + microsecond d.

(** [(a - b).days]: a [timedelta] keeps [0 <= seconds < 86400], so its
    [days] is the floor of the difference. *)
Definition days_between (a b : datetime) : Z :=
  ((to_microseconds a - to_microseconds b) / 86400000000)%Z.

(** ** The repositories as the scripts see them *)

(** What reading a manifest can raise besides [CalledProcessError] and
    [JSONDecodeError], the two exceptions the readers catch: output that
    [subprocess.run(..., text=True)] cannot decode as UTF-8, an integer
    literal longer than the interpreter converts, and nesting deeper than
    its stack. *)
Inductive uncaught : Type :=
| NotDecodable
| IntegerTooLong
| NestingTooDeep.

Definition uncaught_exn (u : uncaught) : exn :=
  match u with
  | NotDecodable => UnicodeDecodeError
  | IntegerTooLong => ValueError
  | NestingTooDeep => RecursionError
  end.

(** [git show <commit>:package.json] followed by [json.loads]. *)
Inductive shown : Type :=
| ShowFailed                (* git exits non-zero *)
| ShowUnparsable            (* the output is not JSON *)
| ShowEscapes (u : uncaught)   (* an exception that is not caught *)
| ShowDoc (doc : json).

(** [package.json] in the working copy. *)
Inductive file : Type :=
| FileMissing
| FileUnparsable
| FileDoc (doc : json).

(** A line of [git log --format=%H|%ai], split at ['|'] and its date parsed
    with [strptime]. *)
Inductive log_line : Type :=
| BadLine                                      (* not two parts *)
| Line (commit_hash : string) (date : datetime).

(** The answers of one repository.  A [git] query with [check=True]
    answers [None] when it exits non-zero. *)
Record repo_state : Type := mkRepoState {
  (** [git log --format=%H --reverse --since --until -- package.json]:
      [stdout.strip().split("\n")]. *)
  git_log : option datetime -> option datetime -> option (list string);
  (** [git show <commit>:package.json]. *)
  git_show : string -> shown;
  (** [git show -s --format=%H%n%ai%n%an%n%ae%n%s <commit>]:
      [stdout.strip().split("\n")]. *)
  git_show_info : string -> option (list string);
  (** [package.json] of the working copy. *)
  working_copy : file;
  (** [git log --format=%H|%ai --reverse --since -- package.json] for a
      window of the given number of months ending now: the lines that
      survive [if c]. *)
  git_log_dated : Z -> option (list log_line)
}.

(** A resolved [Path], by its components. *)
Definition Path : Type := list string.

(** [repo_path.name]: the final component. *)
Definition path_name (p : Path) : string := last p "".

(** [str(repo_path)]. *)
Fixpoint path_str (p : Path) : string :=
  match p with
  | [] => ""
  | c :: rest => ("/" ++ c ++ path_str rest)%string
  end.

Definition world : Type := Path -> repo_state.

(** [subprocess.run(..., check=True)]. *)
Definition subprocess_run {A : Type} (answer : option A) : result A :=
  match answer with
  | Some out => Ok out
  | None => Raise CalledProcessError
  end.

(** [try: body except subprocess.CalledProcessError: handler]. *)
Definition except_called_process_error {A : Type}
    (body : result A) (handler : result A) : result A :=
  match body with
  | Raise CalledProcessError => handler
  | other => other
  end.

(** A [for] loop whose body may raise. *)
Fixpoint for_each {S A : Type} (body : S -> A -> result S)
    (items : list A) (state : S) : result S :=
  match items with
  | [] => Ok state
  | x :: rest => state' <- body state x ;; for_each body rest state'
  end.

(** [d[k] = v] on the items of a dict: a present key keeps its place. *)
Fixpoint dict_set {A : Type} (k : string) (v : A)
    (d : list (string * A)) : list (string * A) :=
  match d with
  | [] => [(k, v)]
  | (k', v') :: rest =>
      if k' =? k then (k', v) :: rest else (k', v') :: dict_set k v rest
  end.

(** [lines[i]]. *)
Definition py_index (lines : list string) (i : nat) : result string :=
  match nth_error lines i with
  | Some x => Ok x
  | None => Raise IndexError
  end.

(** [s[:n]]. *)
Definition take (n : nat) (s : string) : string := substring 0 n s.

(** ** Commit Walker and Change Detector *)

(** The dict built by [get_commit_info]. *)
Record commit_info : Type := mkCommitInfo {
  info_hash : string;
  info_date : string;
  author_name : string;
  author_email : string;
  info_message : string
}.

(** [a != b] for two lists of [{"parent": ..., "version": ...}] dicts. *)
Definition transitive_eq (a b : transitive) : bool :=
  (parent a =? parent b) && py_eq (version a) (version b).

Fixpoint transitive_list_eq (xs ys : list transitive) : bool :=
  match xs, ys with
  | [], [] => true
  | x :: xs', y :: ys' => transitive_eq x y && transitive_list_eq xs' ys'
  | _, _ => false
  end.

(** The three tests of "Check if any version changed". *)
Definition changed (new old : versions) : bool :=
  py_ne (dependency new) (dependency old)
  || py_ne (override new) (override old)
  || negb (transitive_list_eq (transitive_overrides new)
                              (transitive_overrides old)).

(** [get_package_json_at_commit]: the document, or [None] for the two
    exceptions caught; any other exception leaves the function. *)
Definition get_package_json_at_commit (r : repo_state) (commit_hash : string)
    : result json :=
  match git_show r commit_hash with
  | ShowDoc doc => Ok doc
  | ShowFailed | ShowUnparsable => Ok JNull
  | ShowEscapes u => Raise (uncaught_exn u)
  end.

(** [get_commit_info]. *)
Definition get_commit_info (r : repo_state) (commit_hash : string)
    : result commit_info :=
  lines <- subprocess_run (git_show_info r commit_hash) ;;
  h <- py_index lines 0 ;;
  d <- py_index lines 1 ;;
  an <- py_index lines 2 ;;
  ae <- py_index lines 3 ;;
  Ok (mkCommitInfo h d an ae
        (if (4 <? List.length lines)%nat then nth 4 lines "" else "")).

Module Multi.

(** A change record of [track_repo_version_changes]. *)
Record change_record : Type := mkChange {
  repository : string;
  commit : string;
  date : string;
  author : string;
  message : string;
  dependency_version : json;
  override_version : json;
  transitive : list transitive;
  effective_version : json;
  previous_effective : json
}.

(** The keys of a result that only a completed walk has. *)
Record current : Type := mkCurrent {
  current_version : json;
  current_version_details : option versions;   (* [None]: the dict [{}] *)
  commits_analyzed : nat
}.

(** The dict returned by [track_repo_version_changes]. *)
Record repo_result : Type := mkResult {
  result_repository : string;
  path : string;
  error : option exn;
  changes : list change_record;
  total_changes : nat;
  completed : option current
}.

Section Tracker.

Variable package_name : string.

(** The body of the loop over [commits]; the state is
    [(changes, last_versions)]. *)
Definition track_commit (r : repo_state) (repo_name : string)
    (state : list change_record * versions) (commit_hash : string)
    : result (list change_record * versions) :=
  let '(changes, last_versions) := state in
  package_json <- get_package_json_at_commit r commit_hash ;;
  if negb (truthy package_json) then Ok (changes, last_versions)
  else
    versions <- extract_component_versions package_name package_json ;;
    let last_effective := effective last_versions in
    let effective_version := effective versions in
    changes <-
      (if changed versions last_versions
          && py_ne effective_version last_effective
       then
         info <- get_commit_info r commit_hash ;;
         Ok (changes ++
               [mkChange repo_name (take 8 (info_hash info))
                  (info_date info) (author_name info)
                  (take 80 (info_message info))
                  (dependency versions) (override versions)
                  (transitive_overrides versions)
                  effective_version last_effective])
       else Ok changes) ;;
    Ok (changes, versions).

(** "Get current version". *)
Definition current_of (r : repo_state) : result (json * option versions) :=
  match working_copy r with
  | FileMissing => Ok (JNull, None)
  | FileUnparsable => Raise JSONDecodeError
  | FileDoc data =>
      versions <- extract_component_versions package_name data ;;
      Ok (effective versions, Some versions)
  end.

(** [track_repo_version_changes]. *)
Definition track_repo_version_changes (w : world) (repo_path : Path)
    (since_date until_date : datetime) : result repo_result :=
  let repo_name := path_name repo_path in
  let r := w repo_path in
  except_called_process_error
    (lines <- subprocess_run
                (git_log r (Some since_date) (Some until_date)) ;;
     let commits := filter (fun c => negb (c =? "")) lines in
     state <- for_each (track_commit r repo_name) commits
                ([], no_versions) ;;
     cur <- current_of r ;;
     Ok (mkResult repo_name (path_str repo_path) None
           (fst state) (List.length (fst state))
           (Some (mkCurrent (fst cur) (snd cur) (List.length commits)))))
    (Ok (mkResult repo_name (path_str repo_path)
           (Some CalledProcessError) [] 0 None)).

(** [ThreadPoolExecutor(max_workers=...)]. *)
Definition max_workers (repos : list Path) : nat :=
  Nat.min 4 (List.length repos).

(** The merge loop of both branches:
    [self.repo_results[result["repository"]] = result]. *)
Definition merge_result (w : world) (since_date until_date : datetime)
    (repo_results : list (string * repo_result)) (repo : Path)
    : result (list (string * repo_result)) :=
  res <- track_repo_version_changes w repo since_date until_date ;;
  Ok (dict_set (result_repository res) res repo_results).

(** [process_repositories].  [as_completed] is the order in which the
    futures finish: some arrangement of [repos].  [future.result()]
    returns what the call returned, or raises what it raised. *)
Definition process_repositories (w : world) (repos : list Path)
    (since_date until_date : datetime) (parallel : bool)
    (as_completed : list Path)
    (repo_results : list (string * repo_result))
    : result (list (string * repo_result)) :=
  if parallel && (1 <? List.length repos)%nat
  then for_each (merge_result w since_date until_date) as_completed
         repo_results
  else for_each (merge_result w since_date until_date) repos
         repo_results.

End Tracker.

End Multi.

Module Single.

(** One entry of [change_details]; the record joins their texts. *)
Inductive detail : Type :=
| DependencyDetail (old new : json)         (* "dependency: old -> new" *)
| OverrideDetail (old new : json)           (* "override: old -> new" *)
| TransitiveDetail (via : string) (v : json).  (* "transitive via p: v" *)

(** A change record of [track_version_changes]. *)
Record change_record : Type := mkChange {
  commit : string;
  date : string;
  author : string;
  message : string;
  dependency_version : json;
  override_version : json;
  effective_version : json;
  previous_effective : json;
  changes : list detail
}.

Section Tracker.

Variable package_name : string.

(** The texts collected while "Check if any version changed" runs. *)
Definition change_details (new old : versions) : list detail :=
  (if py_ne (dependency new) (dependency old)
   then [DependencyDetail (dependency old) (dependency new)] else [])
  ++ (if py_ne (override new) (override old)
      then [OverrideDetail (override old) (override new)] else [])
  ++ (if negb (transitive_list_eq (transitive_overrides new)
                                  (transitive_overrides old))
      then match transitive_overrides new with
           | first :: _ => [TransitiveDetail (parent first) (version first)]
           | [] => []
           end
      else []).

(** The body of the loop over [commits]. *)
Definition track_commit (r : repo_state)
    (state : list change_record * versions) (commit_hash : string)
    : result (list change_record * versions) :=
  let '(changes, last_versions) := state in
  package_json <- get_package_json_at_commit r commit_hash ;;
  if negb (truthy package_json) then Ok (changes, last_versions)
  else
    versions <- extract_component_versions package_name package_json ;;
    info <- get_commit_info r commit_hash ;;
    let last_effective := effective last_versions in
    let effective_version := effective versions in
    Ok (if changed versions last_versions
           && py_ne effective_version last_effective
        then changes ++
               [mkChange (take 8 (info_hash info)) (info_date info)
                  (author_name info) (take 80 (info_message info))
                  (dependency versions) (override versions)
                  effective_version last_effective
                  (change_details versions last_versions)]
        else changes,
        versions).

(** [track_version_changes]: nothing is caught here. *)
Definition track_version_changes (r : repo_state)
    (since_date until_date : option datetime)
    : result (list change_record) :=
  lines <- subprocess_run (git_log r since_date until_date) ;;
  let commits := filter (fun c => negb (c =? "")) lines in
  state <- for_each (track_commit r) commits ([], no_versions) ;;
  Ok (fst state).

End Tracker.

End Single.

(** ** Metrics Aggregator *)

(** An element of [self.repo_adoptions[repo_name]]. *)
Record adoption : Type := mkAdoption {
  adopted_version : string;          (* key "version" *)
  raw_version : string;
  adoption_date : datetime;
  adoption_commit : string
}.

(** A value of [self.releases]. *)
Record release : Type := mkRelease {
  release_date : datetime;           (* key "date" *)
  release_version : string           (* key "version": as written *)
}.

(** An element of [repo_metrics["versions"]]. *)
Record version_info : Type := mkVersionInfo {
  info_version : string;
  info_release_date : datetime;
  info_adoption_date : datetime;
  lag_days : Z;
  info_commit : string;
  versions_skipped : option Z;       (* the key is set only for [i > 0] *)
  days_since_last_update : option Z
}.

(** The dict [repo_metrics].  An average is the exact quotient, which
    [statistics.mean] and [statistics.median] return as an [int] when it is
    one and as the nearest [float] otherwise. *)
Record repo_metrics : Type := mkMetrics {
  total_updates : nat;
  metric_versions : list version_info;
  adoption_lags : list Z;
  skip_counts : list Z;
  update_intervals : list Z;
  avg_lag_days : option Q;
  median_lag_days : option Q;
  min_lag_days : option Z;
  max_lag_days : option Z;
  avg_versions_skipped : option Q;
  avg_update_interval : option Q
}.

(** An element of ['repo_adoptions'] in the dashboard document. *)
Record dashboard_adoption : Type := mkDashboard {
  dash_version : string;
  dash_raw_version : string;
  dash_adoption_date : datetime;     (* printed with [strftime('%Y-%m-%d')] *)
  dash_commit : string;
  dash_lag_days : option Z           (* [None] is written as [null] *)
}.

(** White space that [int] skips around the digits of an ASCII string. *)
Definition is_space (c : ascii) : bool :=
  let n := nat_of_ascii c in
  ((n =? 32) || ((9 <=? n) && (n <=? 13)))%nat.

Definition digit_value (c : ascii) : option Z :=
  let n := nat_of_ascii c in
  if ((48 <=? n) && (n <=? 57))%nat then Some (Z.of_nat (n - 48)) else None.

Fixpoint lstrip_space (s : string) : string :=
  match s with
  | EmptyString => EmptyString
  | String c rest => if is_space c then lstrip_space rest else s
  end.

(** The digits of [int(s)] after the sign: decimal digits, single
    underscores allowed between two digits, then only white space.
    [acc] is the value read so far and [after_digit] says whether the
    previous character was a digit. *)
Fixpoint int_digits (s : string) (acc : Z) (after_digit : bool) : option Z :=
  match s with
  | EmptyString => if after_digit then Some acc else None
  | String c rest =>
      match digit_value c with
      | Some d => int_digits rest (acc * 10 + d)%Z true
      | None =>
          if Ascii.eqb c "_"%char
          then
            match rest with
            | String c' _ =>
                match digit_value c' with
                | Some _ => if after_digit then int_digits rest acc false
                            else None
                | None => None
                end
            | EmptyString => None
            end
          else if is_space c && after_digit
          then match lstrip_space rest with
               | EmptyString => Some acc
               | _ => None
               end
          else None
      end
  end.

(** [int(s)] for a string of ASCII characters; [None] is [ValueError]. *)
Definition py_int (s : string) : option Z :=
  match lstrip_space s with
  | String "+"%char rest => int_digits rest 0 false
  | String "-"%char rest => option_map Z.opp (int_digits rest 0 false)
  | rest => int_digits rest 0 false
  end.

(** [tuple(int(p) for p in parts)]; [None] when some [int(p)] raises. *)
Fixpoint int_tuple (parts : list string) : option (list Z) :=
  match parts with
  | [] => Some []
  | p :: rest =>
      match py_int p with
      | Some n => option_map (cons n) (int_tuple rest)
      | None => None
      end
  end.

(** [a < b] for two tuples of integers. *)
Fixpoint tuple_lt (a b : list Z) : bool :=
  match a, b with
  | _, [] => false
  | [], _ :: _ => true
  | x :: a', y :: b' => (x <? y)%Z || ((x =? y)%Z && tuple_lt a' b')
  end.

(** [sorted(items, key=key)]: the stable sort, by insertion from the right. *)
Section StableSort.

Context {A K : Type}.
Variable lt : K -> K -> bool.
Variable key : A -> K.

Fixpoint insert_sorted (x : A) (l : list A) : list A :=
  match l with
  | [] => [x]
  | y :: rest =>
      if lt (key y) (key x) then y :: insert_sorted x rest
      else x :: l
  end.

Fixpoint sorted (l : list A) : list A :=
  match l with
  | [] => []
  | x :: rest => insert_sorted x (sorted rest)
  end.

End StableSort.

(** [l.index(x)] for strings; [None] is [ValueError]. *)
Fixpoint index_of (x : string) (l : list string) : option nat :=
  match l with
  | [] => None
  | y :: rest => if y =? x then Some 0%nat else option_map S (index_of x rest)
  end.

Definition sum_Z (l : list Z) : Z := fold_right Z.add 0%Z l.

(** [statistics.mean] of a non-empty list of integers. *)
Definition mean (l : list Z) : Q :=
  Qmake (sum_Z l) (Pos.of_nat (List.length l)).

(** [statistics.median] of a non-empty list of integers. *)
Definition median (l : list Z) : Q :=
  let data := sorted Z.ltb (fun x => x) l in
  let n := List.length data in
  if Nat.odd n then inject_Z (nth (n / 2) data 0%Z)
  else Qmake (nth (n / 2 - 1) data 0%Z + nth (n / 2) data 0%Z) 2.

(** [min] and [max] of a non-empty list. *)
Definition min_list (l : list Z) : Z :=
  match l with
  | [] => 0%Z
  | x :: rest => fold_left Z.min rest x
  end.

Definition max_list (l : list Z) : Z :=
  match l with
  | [] => 0%Z
  | x :: rest => fold_left Z.max rest x
  end.

(** [f(l) if l] for the statistics, which are set only on a non-empty list. *)
Definition if_any {A B : Type} (f : list A -> B) (l : list A) : option B :=
  match l with
  | [] => None
  | _ => Some (f l)
  end.

Module Adoption.

(** The lists the loop of [calculate_adoption_metrics] appends to. *)
Record lists : Type := mkLists {
  l_versions : list version_info;
  l_lags : list Z;
  l_skips : list Z;
  l_intervals : list Z
}.

(** [parse_version] of [AdoptionAnalyzer]. *)
Definition parse_version (version : string) : list Z :=
  match int_tuple (firstn 3 (split "." version)) with
  | Some t => t
  | None => [0; 0; 0]%Z
  end.

(** [load_releases], from the pairs of [data['versions']]. *)
Definition load_releases (data : list (string * datetime))
    (releases : list (string * release)) : list (string * release) :=
  fold_left
    (fun releases info =>
       dict_set (lstrip_range (fst info)) (mkRelease (snd info) (fst info))
         releases)
    data releases.

Section Analyzer.

Variable package_name : string.

(** The [for ... break] over [overrides.items()]: the value of the first
    item whose key ends with [">" + package_name], if there is one. *)
Fixpoint first_transitive (items : list (string * json)) : option json :=
  match items with
  | [] => None
  | (key, value) :: rest =>
      if is_transitive_key package_name key then Some value
      else first_transitive rest
  end.

(** [get_version_at_commit]. *)
Definition get_version_at_commit (r : repo_state) (commit_hash : string)
    : result json :=
  match git_show r commit_hash with
  | ShowFailed | ShowUnparsable => Ok JNull
  | ShowEscapes u => Raise (uncaught_exn u)
  | ShowDoc package_json =>
      has_deps <- py_in "dependencies" package_json ;;
      version <- (if has_deps : bool
                  then (deps <- py_getitem package_json "dependencies" ;;
                        py_get deps package_name)
                  else Ok JNull) ;;
      has_pnpm <- (if truthy version then Ok false
                   else py_in "pnpm" package_json) ;;
      has_overrides <- (if has_pnpm : bool
                        then (pnpm <- py_getitem package_json "pnpm" ;;
                              py_in "overrides" pnpm)
                        else Ok false) ;;
      if has_overrides : bool
      then
        pnpm <- py_getitem package_json "pnpm" ;;
        overrides <- py_getitem pnpm "overrides" ;;
        version <- py_get overrides package_name ;;
        if negb (truthy version)
        then
          items <- py_items overrides ;;
          Ok (match first_transitive items with
              | Some value => value
              | None => version
              end)
        else Ok version
      else Ok version
  end.

(** The body of the loop of [get_repo_adoptions]; the state is
    [(adoptions, last_version)]. *)
Definition adopt_commit (r : repo_state)
    (state : list adoption * json) (commit_line : log_line)
    : result (list adoption * json) :=
  let '(adoptions, last_version) := state in
  match commit_line with
  | BadLine => Ok (adoptions, last_version)
  | Line commit_hash date_obj =>
      version <- get_version_at_commit r commit_hash ;;
      if truthy version && py_ne version last_version
      then
        match version with
        | JStr raw =>
            Ok (adoptions ++
                  [mkAdoption (lstrip_range raw) raw date_obj
                     (take 8 commit_hash)],
                version)
        | _ => Raise AttributeError      (* no [lstrip] *)
        end
      else Ok (adoptions, last_version)
  end.

(** [get_repo_adoptions]: the new [self.repo_adoptions] and the list
    returned. *)
Definition get_repo_adoptions (w : world) (repo_path : Path) (months : Z)
    (repo_adoptions : list (string * list adoption))
    : result (list (string * list adoption) * list adoption) :=
  let repo_name := path_name repo_path in
  let r := w repo_path in
  except_called_process_error
    (commits <- subprocess_run (git_log_dated r months) ;;
     state <- for_each (adopt_commit r) commits ([], JNull) ;;
     Ok (dict_set repo_name (fst state) repo_adoptions, fst state))
    (Ok (repo_adoptions, [])).

End Analyzer.

Section Metrics.

(** [self.releases]. *)
Variable releases : list (string * release).

(** [all_versions] of [count_versions_between]: the keys of
    [self.releases], sorted by [parse_version]. *)
Definition all_versions : list string :=
  sorted tuple_lt parse_version (map fst releases).

(** [count_versions_between]. *)
Definition count_versions_between (version1 version2 : string) : Z :=
  match index_of version1 all_versions with
  | None => 0%Z
  | Some idx1 =>
      match index_of version2 all_versions with
      | None => 0%Z
      | Some idx2 => (Z.abs (Z.of_nat idx2 - Z.of_nat idx1) - 1)%Z
      end
  end.

(** The body of the loop over [enumerate(adoptions)]. *)
Definition metrics_step (adoptions : list adoption) (acc : lists)
    (i : nat) (a : adoption) : lists :=
  match lookup (adopted_version a) releases with
  | None => acc
  | Some rel =>
      let lag := days_between (adoption_date a) (release_date rel) in
      let prev := nth (i - 1) adoptions a in
      let skipped :=
        count_versions_between (adopted_version prev) (adopted_version a) in
      let interval :=
        days_between (adoption_date a) (adoption_date prev) in
      let later := (0 <? i)%nat in
      mkLists
        (l_versions acc ++
           [mkVersionInfo (adopted_version a) (release_date rel)
              (adoption_date a) lag (adoption_commit a)
              (if later then Some skipped else None)
              (if later then Some interval else None)])
        (l_lags acc ++ [lag])
        (l_skips acc ++ (if later then [skipped] else []))
        (l_intervals acc ++ (if later then [interval] else []))
  end.

Fixpoint metrics_loop (adoptions : list adoption) (i : nat)
    (rest : list adoption) (acc : lists) : lists :=
  match rest with
  | [] => acc
  | a :: rest' =>
      metrics_loop adoptions (S i) rest' (metrics_step adoptions acc i a)
  end.

(** The value [calculate_adoption_metrics] computes for one repository. *)
Definition repo_metrics_of (adoptions : list adoption) : repo_metrics :=
  let acc := metrics_loop adoptions 0 adoptions (mkLists [] [] [] []) in
  mkMetrics (List.length adoptions)
    (l_versions acc) (l_lags acc) (l_skips acc) (l_intervals acc)
    (if_any mean (l_lags acc)) (if_any median (l_lags acc))
    (if_any min_list (l_lags acc)) (if_any max_list (l_lags acc))
    (if_any mean (l_skips acc)) (if_any mean (l_intervals acc)).

(** [calculate_adoption_metrics]. *)
Definition calculate_adoption_metrics
    (repo_adoptions : list (string * list adoption))
    : list (string * repo_metrics) :=
  fold_left
    (fun metrics item =>
       dict_set (fst item) (repo_metrics_of (snd item)) metrics)
    repo_adoptions [].

(** One entry of ['repo_adoptions'] in [generate_dashboard_data_json]. *)
Definition dashboard_entry (a : adoption) : dashboard_adoption :=
  mkDashboard (adopted_version a) (raw_version a) (adoption_date a)
    (adoption_commit a)
    (match lookup (adopted_version a) releases with
     | Some rel =>
         Some (days_between (adoption_date a) (release_date rel))
     | None => None
     end).

End Metrics.

End Adoption.

(** ** The sections of a manifest, for stating what the resolver finds *)

(** [d.get(name)] on the items of a dict. *)
Definition get_or_none (name : string) (d : list (string * json)) : json :=
  match lookup name d with
  | Some v => v
  | None => JNull
  end.

(** The entry of [name] in the section [sect] of a manifest. *)
Definition entry_of (sect name : string) (doc : list (string * json)) : json :=
  match lookup sect doc with
  | Some (JObj d) => get_or_none name d
  | _ => JNull
  end.

(** The items of [pnpm.overrides]. *)
Definition overrides_of (doc : list (string * json)) : list (string * json) :=
  match lookup "pnpm" doc with
  | Some (JObj p) =>
      match lookup "overrides" p with
      | Some (JObj o) => o
      | _ => []
      end
  | _ => []
  end.

Definition section_ok (sect : string) (doc : list (string * json)) : bool :=
  match lookup sect doc with
  | None | Some (JObj _) => true
  | Some _ => false
  end.

(** A manifest whose sections have the expected kinds: an object whose
    [dependencies], [devDependencies], [pnpm] and [pnpm.overrides], where
    present, are objects. *)
Definition well_shaped (doc : json) : bool :=
  match doc with
  | JObj m =>
      section_ok "dependencies" m && section_ok "devDependencies" m &&
      match lookup "pnpm" m with
      | None => true
      | Some (JObj p) => section_ok "overrides" p
      | Some _ => false
      end
  | _ => false
  end.

(** What [extract_component_versions] stores under ["dependency"]. *)
Definition dependency_of (name : string) (doc : list (string * json)) : json :=
  let dep := entry_of "dependencies" name doc in
  if truthy dep then dep
  else if has_key "devDependencies" doc
       then entry_of "devDependencies" name doc
       else dep.

(** ["pnpm" in doc and "overrides" in doc["pnpm"]] on a well-shaped
    manifest. *)
Definition has_overrides (doc : list (string * json)) : bool :=
  match lookup "pnpm" doc with
  | Some (JObj p) => has_key "overrides" p
  | _ => false
  end.

(** The precedence of the two trackers, read off the sections: a direct
    override that is not empty, else the first transitive override if it is
    not empty, else the dependency entry. *)
Definition tracker_precedence (name : string) (doc : list (string * json))
    : json :=
  let direct := get_or_none name (overrides_of doc) in
  if truthy direct then direct
  else
    match Adoption.first_transitive name (overrides_of doc) with
    | Some t => if truthy t then t else dependency_of name doc
    | None => dependency_of name doc
    end.

(** The precedence of [get_version_at_commit], read off the sections: the
    entry of [dependencies] that is not empty, else the direct override
    that is not empty, else the first transitive override. *)
Definition analyzer_precedence (name : string) (doc : list (string * json))
    : json :=
  let dep := entry_of "dependencies" name doc in
  let direct := get_or_none name (overrides_of doc) in
  if truthy dep then dep
  else if has_overrides doc
       then if truthy direct then direct
            else match Adoption.first_transitive name (overrides_of doc) with
                 | Some t => t
                 | None => direct
                 end
       else dep.

(** Sample manifests. *)
Definition pkg : string := "@transferwise/components".

Definition doc_override_and_dependency : json :=
  JObj [("dependencies", JObj [(pkg, JStr "1.0.0")]);
        ("pnpm", JObj [("overrides", JObj [(pkg, JStr "2.0.0")])])].

Definition doc_empty_override : json :=
  JObj [("dependencies", JObj [(pkg, JStr "1.0.0")]);
        ("pnpm", JObj [("overrides", JObj [(pkg, JStr "")])])].

Definition doc_transitive : json :=
  JObj [("devDependencies", JObj [(pkg, JStr "1.0.0")]);
        ("pnpm", JObj [("overrides",
                          JObj [(("pkgA>" ++ pkg)%string, JStr "2.0.0");
                                (("pkgB>" ++ pkg)%string, JStr "3.0.0")])])].

Definition doc_null_dependencies : json :=
  JObj [("dependencies", JNull)].

Definition doc_without_package : json :=
  JObj [("name", JStr "app");
        ("dependencies", JObj [("react", JStr "18.0.0")])].

(** A repository that answers [shown] for every commit. *)
Definition repo_showing (answer : shown) : repo_state :=
  mkRepoState (fun _ _ => Some ["c1"]) (fun _ => answer)
    (fun _ => Some ["c1"; "2024-01-01 00:00:00 +0000"; "a"; "a@x"; "m"])
    FileMissing (fun _ => Some []).

(** ** Change records as transitions, for stating the detector's
    guarantees *)

(** The pair (previous effective version, new effective version). *)
Definition transition : Type := (json * json)%type.

Definition multi_transition (c : Multi.change_record) : transition :=
  (Multi.previous_effective c, Multi.effective_version c).

Definition single_transition (c : Single.change_record) : transition :=
  (Single.previous_effective c, Single.effective_version c).

(** Each transition starts, up to [R], where the one before it ended;
    the first starts at [start]. *)
Fixpoint linked (R : json -> json -> Prop) (start : json)
    (ts : list transition) : Prop :=
  match ts with
  | [] => True
  | t :: rest => R (fst t) start /\ linked R (snd t) rest
  end.

(** The chain of a repository: the first record starts from the absent
    version, each later one from the version the record before it
    reached. *)
Definition chain (R : json -> json -> Prop) (ts : list transition) : Prop :=
  match ts with
  | [] => True
  | t :: rest => fst t = JNull /\ linked R (snd t) rest
  end.

(** The version the last transition reached. *)
Fixpoint tip (start : json) (ts : list transition) : json :=
  match ts with
  | [] => start
  | t :: rest => tip (snd t) rest
  end.

(** The snapshot the detector holds after [commits]: the versions of the
    last commit whose manifest could be read and resolved. *)
Fixpoint last_snapshot (name : string) (r : repo_state)
    (commits : list string) (last : versions) : versions :=
  match commits with
  | [] => last
  | c :: rest =>
      match get_package_json_at_commit r c with
      | Ok doc =>
          if truthy doc
          then match extract_component_versions name doc with
               | Ok v => last_snapshot name r rest v
               | Raise _ => last_snapshot name r rest last
               end
          else last_snapshot name r rest last
      | Raise _ => last_snapshot name r rest last
      end
  end.

(** One commit, seen on the transitions: nothing moves (no manifest), or
    the snapshot becomes [v] and a transition is appended exactly when a
    constituent and the effective version both differ. *)
Definition detector_step (ts : list transition) (last : versions)
    (ts' : list transition) (last' : versions) : Prop :=
  (ts' = ts /\ last' = last) \/
  (ts' = (if changed last' last
              && py_ne (effective last') (effective last)
          then ts ++ [(effective last, effective last')]
          else ts)).

(** What the detector maintains: the records are linked from [None], and
    the snapshot resolves to the version the last record reached. *)
Definition chained (ts : list transition) (last : versions) : Prop :=
  linked same_value JNull ts /\ same_value (effective last) (tip JNull ts).

(** A manifest with a dependency entry and, optionally, a direct override. *)
Definition manifest_of (dep : string) (ovr : option string) : json :=
  JObj (("dependencies", JObj [(pkg, JStr dep)]) ::
        match ovr with
        | Some o => [("pnpm", JObj [("overrides", JObj [(pkg, JStr o)])])]
        | None => []
        end).

Definition info_lines (c : string) : option (list string) :=
  Some [(c ++ "0123456789abcdef")%string; "2024-01-01 10:00:00 +0000";
        "dev"; "dev@example.org"; "bump components"].

(** The override is removed while the dependency is bumped to the value
    the override had. *)
Definition cancel_repo : repo_state :=
  mkRepoState (fun _ _ => Some ["c1"; "c2"])
    (fun c => if c =? "c1" then ShowDoc (manifest_of "1.0.0" (Some "2.0.0"))
              else if c =? "c2" then ShowDoc (manifest_of "2.0.0" None)
              else ShowFailed)
    info_lines FileMissing (fun _ => Some []).

(** The manifest is emptied to [{}] at the second commit and restored at
    the third. *)
Definition emptied_repo : repo_state :=
  mkRepoState (fun _ _ => Some ["c1"; "c2"; "c3"])
    (fun c => if c =? "c2" then ShowDoc (JObj [])
              else ShowDoc (manifest_of "1.0.0" None))
    info_lines FileMissing (fun _ => Some []).

(** Three bumps, with an unreadable commit and an unchanged one between. *)
Definition history_repo : repo_state :=
  mkRepoState (fun _ _ => Some ["c1"; "c2"; ""; "c3"; "c4"; "c5"])
    (fun c => if c =? "c1" then ShowDoc (manifest_of "1.0.0" None)
              else if c =? "c2" then ShowUnparsable
              else if c =? "c3" then ShowDoc (manifest_of "1.1.0" None)
              else if c =? "c4" then ShowDoc (manifest_of "1.1.0" None)
              else if c =? "c5"
                   then ShowDoc (manifest_of "1.0.0" (Some "2.0.0"))
              else ShowFailed)
    info_lines (FileDoc (manifest_of "1.0.0" (Some "2.0.0")))
    (fun _ => Some []).

Definition epoch : datetime := mkDatetime 2024 1 1 0 0 0 0.

(** A manifest whose dependency entry goes from [1] to [true] to ["x"]. *)
Definition odd_values_repo : repo_state :=
  mkRepoState (fun _ _ => Some ["c1"; "c2"; "c3"])
    (fun c =>
       ShowDoc (JObj [("dependencies",
                       JObj [(pkg, if c =? "c1" then JNum 1
                                   else if c =? "c2" then JBool true
                                   else JStr "x")])]))
    info_lines FileMissing (fun _ => Some []).

(** ** Lag and skip, for stating what the aggregator records *)

Section MetricsViews.

Variable releases : list (string * release).

(** The lag of an adoption: defined when its version is a release. *)
Definition lag_of (a : adoption) : option Z :=
  match lookup (adopted_version a) releases with
  | Some rel => Some (days_between (adoption_date a) (release_date rel))
  | None => None
  end.

Definition known (a : adoption) : bool :=
  has_key (adopted_version a) releases.

(** The entry of [repo_metrics["versions"]] for the adoption [cur] that
    follows [prev] ([None] for the first adoption): none when the version
    of [cur] is not a release. *)
Definition version_entry (prev : option adoption) (cur : adoption)
    : list version_info :=
  match lookup (adopted_version cur) releases with
  | None => []
  | Some rel =>
      [mkVersionInfo (adopted_version cur) (release_date rel)
         (adoption_date cur)
         (days_between (adoption_date cur) (release_date rel))
         (adoption_commit cur)
         (option_map
            (fun p => Adoption.count_versions_between releases
                        (adopted_version p) (adopted_version cur)) prev)
         (option_map
            (fun p => days_between (adoption_date cur) (adoption_date p))
            prev)]
  end.

End MetricsViews.

(** Every adoption with the one before it. *)
Definition with_previous (adoptions : list adoption)
    : list (option adoption * adoption) :=
  combine (None :: map Some adoptions) adoptions.

Definition some_list {A : Type} (o : option A) : list A :=
  match o with
  | Some x => [x]
  | None => []
  end.

(** The elements of [l] before the first [x]. *)
Fixpoint before (x : string) (l : list string) : list string :=
  match l with
  | [] => []
  | y :: rest => if y =? x then [] else y :: before x rest
  end.

(** The elements of [l] that lie strictly between the first [x] and the
    first [y], whichever comes first. *)
Fixpoint strictly_between (x y : string) (l : list string) : list string :=
  match l with
  | [] => []
  | z :: rest =>
      if z =? x then before y rest
      else if z =? y then before x rest
      else strictly_between x y rest
  end.

(** The releases whose numeric key lies strictly between two keys. *)
Definition keys_between (lo hi : list Z) (vs : list string) : list string :=
  filter (fun v => tuple_lt lo (Adoption.parse_version v)
                   && tuple_lt (Adoption.parse_version v) hi) vs.

(** Sample release tables and adoptions. *)
Definition midnight (y m d : Z) : datetime := mkDatetime y m d 0 0 0 0.

Definition four_releases : list (string * release) :=
  Adoption.load_releases
    [("1.2.0", midnight 2024 3 1); ("1.0.0", midnight 2024 1 1);
     ("1.3.0", midnight 2024 4 1); ("1.1.0", midnight 2024 2 1)] [].

Definition release_4_2_0 : list (string * release) :=
  Adoption.load_releases [("4.2.0", midnight 2024 1 1)] [].

Definition adoption_4_2_0 : adoption :=
  mkAdoption "4.2.0" "^4.2.0" (mkDatetime 2024 1 15 9 30 0 0) "abcdef12".

Definition adoption_unreleased : adoption :=
  mkAdoption "9.9.9" "9.9.9" (midnight 2024 2 1) "12345678".

(** A repository whose manifest goes from ["^1.0.0"] to ["1.0.0"]. *)
Definition prefix_repo : repo_state :=
  mkRepoState (fun _ _ => Some ["c1"; "c2"])
    (fun c => if c =? "c1" then ShowDoc (manifest_of "^1.0.0" None)
              else if c =? "c2" then ShowDoc (manifest_of "1.0.0" None)
              else ShowFailed)
    info_lines (FileDoc (manifest_of "1.0.0" None))
    (fun _ => Some [Line "c1" (midnight 2024 1 10);
                    Line "c2" (midnight 2024 1 20)]).

Definition prefix_world : world := fun _ => prefix_repo.

Definition one_release : list (string * release) :=
  Adoption.load_releases [("1.0.0", midnight 2024 1 1)] [].

Definition prefix_adoptions : list adoption :=
  [mkAdoption "1.0.0" "^1.0.0" (midnight 2024 1 10) "c1";
   mkAdoption "1.0.0" "1.0.0" (midnight 2024 1 20) "c2"].

(** Appending the entries of some adoptions to the four lists. *)
Definition append_entries (acc : Adoption.lists) (es : list version_info)
    : Adoption.lists :=
  Adoption.mkLists
    (Adoption.l_versions acc ++ es)
    (Adoption.l_lags acc ++ map lag_days es)
    (Adoption.l_skips acc
       ++ flat_map (fun e => some_list (versions_skipped e)) es)
    (Adoption.l_intervals acc
       ++ flat_map (fun e => some_list (days_since_last_update e)) es).

(** The entries of all adoptions of a repository. *)
Definition version_entries (releases : list (string * release))
    (adoptions : list adoption) : list version_info :=
  flat_map (fun p => version_entry releases (fst p) (snd p))
    (with_previous adoptions).

(** Two releases twenty days apart, adopted by two repositories. *)
Definition two_releases : list (string * release) :=
  Adoption.load_releases
    [("1.0.0", midnight 2024 1 1); ("2.0.0", midnight 2024 1 21)] [].

Definition adoptions_a : list adoption :=
  [mkAdoption "1.0.0" "1.0.0" (midnight 2024 1 1) "a1";
   mkAdoption "2.0.0" "2.0.0" (midnight 2024 1 31) "a2"].

Definition adoptions_b : list adoption :=
  [mkAdoption "2.0.0" "^2.0.0" (midnight 2024 1 26) "b1"].

(** ** Sample repositories for the orchestrator *)

(** A repository with no commit in the window whose working copy holds a
    [package.json] that is not JSON. *)
Definition broken_repo : repo_state :=
  mkRepoState (fun _ _ => Some [""]) (fun _ => ShowFailed) (fun _ => None)
    FileUnparsable (fun _ => Some []).

(** A directory that is not a readable repository: every query fails. *)
Definition unreadable_repo : repo_state :=
  mkRepoState (fun _ _ => None) (fun _ => ShowFailed) (fun _ => None)
    FileMissing (fun _ => None).

Definition mixed_world : world :=
  fun p => if path_name p =? "broken" then broken_repo
           else if path_name p =? "gone" then unreadable_repo
           else history_repo.

(** Two clones with one directory name. *)
Definition same_name_repos : list Path := [["a"; "app"]; ["b"; "app"]].

(** ** Further notions, for stating what the code keeps and never does *)

(** The exceptions of an operation applied to a value of the wrong kind. *)
Definition kind_error (e : exn) : Prop :=
  e = AttributeError \/ e = TypeError.

(** A computation that raises nothing but those. *)
Definition raises_only_kind_errors {A : Type} (r : result A) : Prop :=
  forall e, r = Raise e -> kind_error e.

(** No two neighbours of a list are equal. *)
Fixpoint adjacent_differ (l : list string) : Prop :=
  match l with
  | x :: (y :: _) as rest => x <> y /\ adjacent_differ rest
  | _ => True
  end.

(** A manifest whose [dependencies] is a list. *)
Definition doc_list_dependencies : json :=
  JObj [("dependencies", JArr [JStr pkg])].

(** The second of two bumps has no readable commit metadata: the query
    fails for ["c2"], and answers two lines only for ["c3"]. *)
Definition info_fails_repo : repo_state :=
  mkRepoState (fun _ _ => Some ["c1"; "c2"])
    (fun c => if c =? "c1" then ShowDoc (manifest_of "1.0.0" None)
              else ShowDoc (manifest_of "1.1.0" None))
    (fun c => if c =? "c1" then info_lines c else None)
    FileMissing (fun _ => Some []).

Definition info_short_repo : repo_state :=
  mkRepoState (fun _ _ => Some ["c1"; "c3"])
    (fun c => if c =? "c1" then ShowDoc (manifest_of "1.0.0" None)
              else ShowDoc (manifest_of "1.1.0" None))
    (fun c => if c =? "c1" then info_lines c else Some [c; "2024-01-02"])
    FileMissing (fun _ => Some []).

(** What a record of the multi-repository tracker holds. *)
Definition multi_record_ok (repo_name : string) (c : Multi.change_record)
    : Prop :=
  Multi.repository c = repo_name /\
  py_ne (Multi.effective_version c) (Multi.previous_effective c) = true /\
  Multi.effective_version c
  = effective (mkVersions (Multi.dependency_version c)
                 (Multi.override_version c) (Multi.transitive c)).

(** The raw version of the last adoption recorded: the value of
    [last_version] in [get_repo_adoptions]. *)
Definition last_recorded (adoptions : list adoption) : json :=
  last (map (fun a => JStr (raw_version a)) adoptions) JNull.

(** An adoption made from a line of the log. *)
Definition from_line (lines : list log_line) (a : adoption) : Prop :=
  exists commit_hash,
    In (Line commit_hash (adoption_date a)) lines /\
    adoption_commit a = take 8 commit_hash.

(** A repository whose log has a line that is not two parts and whose
    manifest keeps one version over two commits. *)
Definition steady_repo : repo_state :=
  mkRepoState (fun _ _ => Some ["c1"; "c2"; "c3"])
    (fun c => if c =? "c3" then ShowDoc (manifest_of "~1.1.0" None)
              else ShowDoc (manifest_of "^1.0.0" None))
    info_lines FileMissing
    (fun _ => Some [Line "c1" (midnight 2024 1 10); BadLine;
                    Line "c2" (midnight 2024 1 20);
                    Line "c3" (midnight 2024 2 1)]).

(** What the loop of [get_repo_adoptions] keeps. *)
Definition adoptions_ok (lines : list log_line)
    (st : list adoption * json) : Prop :=
  Forall (fun a => raw_version a <> "" /\ from_line lines a) (fst st) /\
  adjacent_differ (map raw_version (fst st)) /\
  snd st = last_recorded (fst st).


(** ** The patterns across repositories *)

(** White space for [str.split()] with no separator, in an ASCII string:
    tab to carriage return, the four separators 28 to 31, and the space. *)
Definition is_whitespace (c : ascii) : bool :=
  let n := nat_of_ascii c in
  ((n =? 32) || ((9 <=? n) && (n <=? 13)) || ((28 <=? n) && (n <=? 31)))%nat.

(** [s.split()]: the maximal runs of characters that are not white space;
    [word] is the run being read. *)
Fixpoint words_from (s : string) (word : string) : list string :=
  match s with
  | EmptyString => if word =? "" then [] else [word]
  | String c rest =>
      if is_whitespace c
      then (if word =? "" then words_from rest ""
            else word :: words_from rest "")
      else words_from rest (word ++ String c "")
  end.

Definition split_whitespace (s : string) : list string := words_from s "".

(** [a < b] for two naive [datetime]s: by their fields, in order. *)
Definition datetime_fields (d : datetime) : list Z :=
  [year d; month d; day d; hour d; minute d; second d; microsecond d].

Definition datetime_lt (a b : datetime) : bool :=
  tuple_lt (datetime_fields a) (datetime_fields b).

(** Values that a [dict] accepts as keys: lists and dicts are refused
    with [TypeError]. *)
Definition hashable (v : json) : bool :=
  match v with
  | JArr _ | JObj _ => false
  | _ => true
  end.

(** [d.get(k)] and [d[k] = v] for a dict whose keys are values: two keys
    are one when they are equal, and the key first stored stays. *)
Fixpoint key_lookup {V : Type} (k : json) (d : list (json * V)) : option V :=
  match d with
  | [] => None
  | (k', v) :: rest => if py_eq k' k then Some v else key_lookup k rest
  end.

Fixpoint key_set {V : Type} (k : json) (v : V) (d : list (json * V))
    : list (json * V) :=
  match d with
  | [] => [(k, v)]
  | (k', v') :: rest =>
      if py_eq k' k then (k', v) :: rest else (k', v') :: key_set k v rest
  end.

(** [s.add(x)] on a set of strings, kept as the list of its elements. *)
Definition set_add (x : string) (s : list string) : list string :=
  if existsb (String.eqb x) s then s else (s ++ [x])%list.

(** [max(items, key=...)] from the keys already computed: the first item
    whose key no other exceeds. *)
Fixpoint max_from {A : Type} (best : A * list Z) (items : list (A * list Z))
    : A :=
  match items with
  | [] => fst best
  | item :: rest =>
      if tuple_lt (snd best) (snd item) then max_from item rest
      else max_from best rest
  end.

Module MultiAnalysis.

(** An entry of [version_dates]. *)
Record version_seen : Type := mkSeen {
  first_seen : datetime;
  last_seen : datetime;
  first_repo : string;
  seen_repos : list string          (* the set ["repos"] *)
}.

(** An entry of [patterns["version_timeline"]]. *)
Record timeline_entry : Type := mkTimeline {
  timeline_first_seen : datetime;   (* printed with [isoformat()] *)
  timeline_first_repo : string;
  total_repos : nat;
  timeline_repos : list string      (* [list(...)] of the set, in some order *)
}.

(** An entry of [patterns["adoption_speed"]]. *)
Record speed_entry : Type := mkSpeed {
  days_to_adoption : Z;
  repos_adopted : nat
}.

(** An element of [patterns["laggards"]]. *)
Record laggard : Type := mkLaggard {
  laggard_repository : string;
  laggard_current_version : json;
  laggard_latest_version : json
}.

(** The dict returned by [analyze_adoption_patterns]. *)
Record patterns : Type := mkPatterns {
  version_timeline : list (json * timeline_entry);
  adoption_speed : list (json * speed_entry);
  version_distribution : list (json * nat);
  laggards : list laggard;
  early_adopters : list json
}.


(** [parse_version]. *)
Definition parse_version (version_str : json) : result (list Z) :=
  if negb (truthy version_str) then Ok [0; 0; 0]%Z
  else
    match version_str with
    | JStr s =>
        match int_tuple (firstn 3 (split "." (lstrip_range s))) with
        | Some t => Ok t
        | None => Ok [0; 0; 0]%Z
        end
    | _ => Raise AttributeError     (* no [lstrip] *)
    end.

Section Dates.

(** [datetime.strptime(s, "%Y-%m-%d %H:%M:%S")], which raises
    [ValueError], and the successive readings of [datetime.now()]. *)
Variable strptime : string -> result datetime.
Variable now : nat -> datetime.

(** [parse_git_date]; [clock] counts the readings of the clock so far. *)
Definition parse_git_date (clock : nat) (date_str : string)
    : result (datetime * nat) :=
  match split_whitespace date_str with
  | p0 :: p1 :: _ =>
      d <- strptime (p0 ++ " " ++ p1)%string ;;
      Ok (d, clock)
  | _ => Ok (now clock, S clock)
  end.

(** The body of the loop over [repo_result["changes"]]. *)
Definition see_change (state : list (json * version_seen) * nat)
    (change : Multi.change_record)
    : result (list (json * version_seen) * nat) :=
  let '(version_dates, clock) := state in
  let version := Multi.effective_version change in
  if negb (truthy version) then Ok (version_dates, clock)
  else
    parsed <- parse_git_date clock (Multi.date change) ;;
    let '(date, clock) := parsed in
    if negb (hashable version) then Raise TypeError
    else
      let info :=
        match key_lookup version version_dates with
        | None => mkSeen date date (Multi.repository change) []
        | Some info =>
            let info :=
              if datetime_lt date (first_seen info)
              then mkSeen date (last_seen info) (Multi.repository change)
                     (seen_repos info)
              else info in
            if datetime_lt (last_seen info) date
            then mkSeen (first_seen info) date (first_repo info)
                   (seen_repos info)
            else info
        end in
      Ok (key_set version
            (mkSeen (first_seen info) (last_seen info) (first_repo info)
               (set_add (Multi.repository change) (seen_repos info)))
            version_dates,
          clock).

(** The body of the loop over [self.repo_results.values()]; the state is
    [(version_dates, current_versions)] and the clock. *)
Definition see_result
    (state : list (json * version_seen) * list (string * json) * nat)
    (repo_result : Multi.repo_result)
    : result (list (json * version_seen) * list (string * json) * nat) :=
  let '(version_dates, current_versions, clock) := state in
  match Multi.error repo_result with
  | Some _ => Ok (version_dates, current_versions, clock)
  | None =>
      let current_versions :=
        match Multi.completed repo_result with
        | Some cur =>
            if truthy (Multi.current_version cur)
            then dict_set (Multi.result_repository repo_result)
                   (Multi.current_version cur) current_versions
            else current_versions
        | None => current_versions
        end in
      st <- for_each see_change (Multi.changes repo_result)
              (version_dates, clock) ;;
      Ok (fst st, current_versions, snd st)
  end.

(** [version_counts[version] = version_counts.get(version, 0) + 1]. *)
Definition count_version (version_counts : list (json * nat))
    (version : json) : result (list (json * nat)) :=
  if negb (hashable version) then Raise TypeError
  else
    Ok (key_set version
          (match key_lookup version version_counts with
           | Some n => n + 1
           | None => 0 + 1
           end)%nat
          version_counts).

(** The keys of [max(..., key=self.parse_version)], computed in order. *)
Definition parse_keys (keys : list json) : result (list (json * list Z)) :=
  for_each (fun parsed key =>
              t <- parse_version key ;;
              Ok (parsed ++ [(key, t)])%list)
    keys [].

(** "Find latest version" and "Identify laggards". *)
Definition find_laggards (version_counts : list (json * nat))
    (current_versions : list (string * json)) : result (list laggard) :=
  parsed <- parse_keys (map fst version_counts) ;;
  match parsed with
  | [] => Ok []
  | first :: rest =>
      let latest_version := max_from first rest in
      Ok (flat_map
            (fun item =>
               if py_ne (snd item) latest_version
               then [mkLaggard (fst item) (snd item) latest_version]
               else [])
            current_versions)
  end.

(** [analyze_adoption_patterns], from the values of [self.repo_results]. *)
Definition analyze_adoption_patterns (clock : nat)
    (repo_results : list (string * Multi.repo_result))
    : result (patterns * nat) :=
  st <- for_each see_result (map snd repo_results) ([], [], clock) ;;
  let '(version_dates, current_versions, clock) := st in
  let timeline :=
    map (fun item =>
           (fst item,
            mkTimeline (first_seen (snd item)) (first_repo (snd item))
              (List.length (seen_repos (snd item)))
              (seen_repos (snd item))))
      (sorted datetime_lt (fun item => first_seen (snd item))
         version_dates) in
  version_counts <- for_each count_version (map snd current_versions) [] ;;
  found <- find_laggards version_counts current_versions ;;
  let speed :=
    flat_map
      (fun item =>
         if (1 <? List.length (seen_repos (snd item)))%nat
         then [(fst item,
                mkSpeed (days_between (last_seen (snd item))
                           (first_seen (snd item)))
                  (List.length (seen_repos (snd item))))]
         else [])
      version_dates in
  Ok (mkPatterns timeline speed version_counts found [], clock).

End Dates.



End MultiAnalysis.

(** The changes that [analyze_adoption_patterns] reads: those of the
    results without ["error"], in order. *)
Definition analysed_changes
    (repo_results : list (string * Multi.repo_result))
    : list Multi.change_record :=
  flat_map (fun item =>
              match Multi.error (snd item) with
              | Some _ => []
              | None => Multi.changes (snd item)
              end)
    repo_results.

(** [current_versions] after the loop over the results. *)
Definition add_current (current_versions : list (string * json))
    (repo_result : Multi.repo_result) : list (string * json) :=
  match Multi.error repo_result, Multi.completed repo_result with
  | None, Some cur =>
      if truthy (Multi.current_version cur)
      then dict_set (Multi.result_repository repo_result)
             (Multi.current_version cur) current_versions
      else current_versions
  | _, _ => current_versions
  end.

Definition current_versions_of
    (repo_results : list (string * Multi.repo_result))
    : list (string * json) :=
  fold_left add_current (map snd repo_results) [].

(** Repository [r] has, among [changes], one to a version equal to [k]. *)
Definition seen_by (changes : list Multi.change_record) (k : json)
    (r : string) : Prop :=
  exists c,
    In c changes /\ truthy (Multi.effective_version c) = true /\
    py_eq k (Multi.effective_version c) = true /\ Multi.repository c = r.

(** No two keys of a dict are equal. *)
Definition keys_distinct {V : Type} (d : list (json * V)) : Prop :=
  ForallOrdPairs (fun a b => py_eq (fst a) (fst b) = false) d.

(** What [version_dates] holds after the changes [seen]. *)
Definition dates_ok (seen : list Multi.change_record)
    (version_dates : list (json * MultiAnalysis.version_seen)) : Prop :=
  keys_distinct version_dates /\
  (forall k info, In (k, info) version_dates ->
     truthy k = true /\ hashable k = true /\
     datetime_lt (MultiAnalysis.last_seen info)
       (MultiAnalysis.first_seen info) = false /\
     In (MultiAnalysis.first_repo info) (MultiAnalysis.seen_repos info) /\
     NoDup (MultiAnalysis.seen_repos info) /\
     forall r, In r (MultiAnalysis.seen_repos info) <-> seen_by seen k r) /\
  (forall c, In c seen -> truthy (Multi.effective_version c) = true ->
     exists k info,
       In (k, info) version_dates /\
       py_eq k (Multi.effective_version c) = true).

(** What [version_counts] holds after the versions [seen]. *)
Definition counts_ok (seen : list json) (version_counts : list (json * nat))
    : Prop :=
  keys_distinct version_counts /\
  (forall k n, In (k, n) version_counts ->
     hashable k = true /\ In k seen /\
     n = List.length (filter (py_eq k) seen)) /\
  (forall v, In v seen ->
     exists k n, In (k, n) version_counts /\ py_eq k v = true) /\
  list_sum (map snd version_counts) = List.length seen.

(** A repository one version behind, bumped a month later. *)
Definition behind_repo : repo_state :=
  mkRepoState (fun _ _ => Some ["c1"])
    (fun c => if c =? "c1" then ShowDoc (manifest_of "1.1.0" None)
              else ShowFailed)
    (fun c => Some [(c ++ "0123456789abcdef")%string;
                    "2024-02-01 10:00:00 +0000"; "dev"; "dev@example.org";
                    "bump components"])
    (FileDoc (manifest_of "1.1.0" None)) (fun _ => Some []).

Definition fleet_world : world :=
  fun p => if path_name p =? "lib" then behind_repo
           else if path_name p =? "gone" then unreadable_repo
           else history_repo.

(** The results of a run over three repositories, one of them unreadable. *)
Definition fleet_results : list (string * Multi.repo_result) :=
  Eval vm_compute in
  match Multi.process_repositories pkg fleet_world
          [["code"; "app"]; ["code"; "lib"]; ["code"; "gone"]]
          epoch epoch false [] [] with
  | Ok d => d
  | Raise _ => []
  end.

(** [strptime] on the two dates of these repositories. *)
Definition fleet_strptime (s : string) : result datetime :=
  if s =? "2024-01-01 10:00:00" then Ok (mkDatetime 2024 1 1 10 0 0 0)
  else if s =? "2024-02-01 10:00:00" then Ok (mkDatetime 2024 2 1 10 0 0 0)
  else Raise ValueError.

(** The analysis of these results, with a clock that is never read. *)
Definition fleet_patterns : MultiAnalysis.patterns :=
  match MultiAnalysis.analyze_adoption_patterns fleet_strptime
          (fun _ => epoch) 0 fleet_results with
  | Ok (p, _) => p
  | Raise _ => MultiAnalysis.mkPatterns [] [] [] [] []
  end.

(** ** Dates that exist *)

(** The number of days of month [m] of year [y]. *)
Definition days_in_month (y m : Z) : Z :=
  if (m =? 2)%Z then (if is_leap y then 29 else 28)%Z
  else if ((m =? 4) || (m =? 6) || (m =? 9) || (m =? 11))%Z then 30%Z
  else 31%Z.

(** The field values that a [datetime] object can have. *)
Definition valid_datetime (d : datetime) : bool :=
  ((1 <=? year d) && (year d <=? 9999) &&
   (1 <=? month d) && (month d <=? 12) &&
   (1 <=? day d) && (day d <=? days_in_month (year d) (month d)) &&
   (0 <=? hour d) && (hour d <? 24) &&
   (0 <=? minute d) && (minute d <? 60) &&
   (0 <=? second d) && (second d <? 60) &&
   (0 <=? microsecond d) && (microsecond d <? 1000000))%Z.

(** The microseconds since midnight. *)
Definition time_of_day (d : datetime) : Z :=
  (((hour d * 60 + minute d) * 60 + second d) * 1000000 + microsecond d)%Z.

(** A repository that moved to a release on the day before its release
    date, then back to an older one. *)
Definition early_adoptions : list adoption :=
  [mkAdoption "2.0.0" "2.0.0" (midnight 2024 1 20) "e1";
   mkAdoption "1.0.0" "1.0.0" (midnight 2024 1 25) "e2"].
(** * Properties *)

(** ** The embedding on concrete inputs *)

Example parse_version_three_parts :
  Adoption.parse_version "46.115.0" = [46; 115; 0]%Z.
Proof. reflexivity. Qed.

Example parse_version_two_parts : Adoption.parse_version "1.2" = [1; 2]%Z.
Proof. reflexivity. Qed.

Example parse_version_suffix :
  Adoption.parse_version "1.0.0-beta" = [0; 0; 0]%Z.
Proof. reflexivity. Qed.

Example parse_version_keeps_prefix :
  Adoption.parse_version "^1.2.3" = [0; 0; 0]%Z.
Proof. reflexivity. Qed.

Example py_int_forms :
  map py_int [" 12 "; "+3"; "-3"; "1_000"; "007"; ""; "1__0"; "_1"; "1 2"; "x"]
  = [Some 12; Some 3; Some (-3); Some 1000; Some 7; None; None; None; None;
     None]%Z.
Proof. reflexivity. Qed.

Example tuple_lt_prefix : tuple_lt [1; 2]%Z [1; 2; 0]%Z = true.
Proof. reflexivity. Qed.

Example sorted_is_stable :
  sorted tuple_lt Adoption.parse_version
    ["1.10.0"; "beta"; "1.9.0"; "alpha"; "01.9.0"]
  = ["beta"; "alpha"; "1.9.0"; "01.9.0"; "1.10.0"].
Proof. reflexivity. Qed.

Example lstrip_range_leading_only : lstrip_range "^~^1.0.0^" = "1.0.0^".
Proof. reflexivity. Qed.

Example split_keeps_empty_parts : split "." "1..2." = ["1"; ""; "2"; ""].
Proof. reflexivity. Qed.

Example toordinal_leap_year : toordinal (mkDatetime 2024 3 1 0 0 0 0) = 738946%Z.
Proof. reflexivity. Qed.

Example days_between_floors :
  days_between (mkDatetime 2024 1 1 0 0 0 0) (mkDatetime 2024 1 1 12 0 0 0)
  = (-1)%Z /\
  days_between (mkDatetime 2024 1 15 8 0 0 0) (mkDatetime 2024 1 1 9 0 0 0)
  = 13%Z.
Proof. split; reflexivity. Qed.

Example py_eq_bool_is_int : py_eq (JBool true) (JNum 1) = true.
Proof. reflexivity. Qed.

Example py_eq_dict_ignores_order :
  py_eq (JObj [("a", JNum 1); ("b", JStr "x")])
        (JObj [("b", JStr "x"); ("a", JNum 1)]) = true.
Proof. reflexivity. Qed.

Example extract_transitive_parents :
  extract_component_versions pkg doc_transitive
  = Ok (mkVersions (JStr "1.0.0") JNull
          [mkTransitive "pkgA" (JStr "2.0.0");
           mkTransitive "pkgB" (JStr "3.0.0")]).
Proof. reflexivity. Qed.

Example dict_set_keeps_place :
  dict_set "a" "z" [("a", "x"); ("b", "y")] = [("a", "z"); ("b", "y")] /\
  dict_set "c" "z" [("a", "x"); ("b", "y")]
  = [("a", "x"); ("b", "y"); ("c", "z")].
Proof. split; reflexivity. Qed.

(** ** Facts about Python values *)

Lemma py_eq_arr (l l' : list json) :
  py_eq (JArr l) (JArr l') = all2 py_eq l l'.
Proof.
  revert l'; induction l as [|x l IH]; intros [|y l']; try reflexivity.
  change (py_eq (JArr (x :: l)) (JArr (y :: l')))
    with (py_eq x y && py_eq (JArr l) (JArr l')).
  now rewrite IH.
Qed.

Lemma py_eq_obj (m m' : list (string * json)) :
  py_eq (JObj m) (JObj m')
  = (List.length m =? List.length m')%nat && forallb (item_in m') m.
Proof.
  cbn [py_eq]. f_equal.
  induction m as [|[k v] m IH]; [reflexivity|].
  cbn [forallb item_in fst snd]. now rewrite <- IH.
Qed.

Lemma bool_value_eq (x y : bool) :
  Qeq_bool (bool_value x) (bool_value y) = Bool.eqb x y.
Proof. now destruct x, y. Qed.

Lemma Qeq_bool_trans' (p q r : Q) :
  Qeq_bool p q = true -> Qeq_bool q r = true -> Qeq_bool p r = true.
Proof.
  rewrite !Qeq_bool_iff. intros H1 H2. now rewrite H1.
Qed.

Lemma lookup_In {A : Type} (key : string) (m : list (string * A)) (v : A) :
  lookup key m = Some v -> In (key, v) m.
Proof.
  induction m as [|[k x] m IH]; cbn; [discriminate|].
  destruct (String.eqb_spec k key) as [->|_].
  - intros [= ->]. now left.
  - intros H. right. now apply IH.
Qed.

(** [==] is transitive. *)
Lemma py_eq_trans (a : json) :
  forall b c, py_eq a b = true -> py_eq b c = true -> py_eq a c = true.
Proof.
  induction a as [ | x | p | s | l IH | m IH ] using json_induction;
    intros b c Hab Hbc.
  - destruct b; try discriminate. exact Hbc.
  - destruct b as [ | y | q | | | ]; try discriminate;
      destruct c as [ | z | r | | | ]; try discriminate; cbn in *.
    + rewrite <- bool_value_eq in *. eapply Qeq_bool_trans'; eassumption.
    + rewrite <- bool_value_eq in Hab. eapply Qeq_bool_trans'; eassumption.
    + rewrite <- bool_value_eq. eapply Qeq_bool_trans'; eassumption.
    + eapply Qeq_bool_trans'; eassumption.
  - destruct b as [ | y | q | | | ]; try discriminate;
      destruct c as [ | z | r | | | ]; try discriminate; cbn in *.
    + rewrite <- bool_value_eq in Hbc. eapply Qeq_bool_trans'; eassumption.
    + eapply Qeq_bool_trans'; eassumption.
    + eapply Qeq_bool_trans'; eassumption.
    + eapply Qeq_bool_trans'; eassumption.
  - destruct b; try discriminate. cbn in Hab.
    apply String.eqb_eq in Hab. now subst.
  - destruct b as [ | | | | l' | ]; try discriminate.
    destruct c as [ | | | | l'' | ]; try discriminate.
    rewrite py_eq_arr in *.
    revert l' l'' Hab Hbc.
    induction IH as [|x l Hx _ IHl]; intros [|y l'] [|z l''];
      cbn; try discriminate; auto.
    intros [H1 H2]%andb_prop [H3 H4]%andb_prop.
    rewrite (Hx _ _ H1 H3). cbn. eapply IHl; eassumption.
  - destruct b as [ | | | | | m' ]; try discriminate.
    destruct c as [ | | | | | m'' ]; try discriminate.
    rewrite py_eq_obj in *.
    apply andb_prop in Hab as [L1 F1]. apply andb_prop in Hbc as [L2 F2].
    apply Nat.eqb_eq in L1, L2.
    apply andb_true_intro; split; [apply Nat.eqb_eq; congruence|].
    rewrite forallb_forall in F1, F2. rewrite Forall_forall in IH.
    apply forallb_forall. intros [k v] Hin.
    specialize (F1 _ Hin). unfold item_in in F1 |- *. cbn [fst snd] in *.
    destruct (lookup k m') as [v'|] eqn:E'; [|discriminate].
    specialize (F2 _ (lookup_In _ _ _ E')). unfold item_in in F2.
    cbn [fst snd] in F2.
    destruct (lookup k m'') as [v''|]; [|discriminate].
    exact (IH _ Hin _ _ F1 F2).
Qed.

(** Equal values have the same truth value. *)
Lemma py_eq_truthy (a b : json) : py_eq a b = true -> truthy a = truthy b.
Proof.
  destruct a as [ | x | p | s | l | m ], b as [ | y | q | t | l' | m' ];
    cbn [py_eq truthy]; try discriminate; auto.
  - intros H. now apply eqb_prop.
  - intros H. apply Qeq_bool_iff in H.
    destruct x; cbn in H.
    + destruct (Qeq_bool q 0) eqn:E; [|reflexivity].
      apply Qeq_bool_iff in E. rewrite E in H. discriminate.
    + symmetry in H. apply Qeq_bool_iff in H. now rewrite H.
  - intros H. apply Qeq_bool_iff in H.
    destruct y; cbn in H.
    + destruct (Qeq_bool p 0) eqn:E; [|reflexivity].
      apply Qeq_bool_iff in E. rewrite E in H. discriminate.
    + apply Qeq_bool_iff in H. now rewrite H.
  - intros H. apply Qeq_bool_iff in H.
    destruct (Qeq_bool p 0) eqn:E1, (Qeq_bool q 0) eqn:E2; auto;
      exfalso.
    + apply Qeq_bool_iff in E1. apply Qeq_bool_neq in E2.
      apply E2. now rewrite <- H.
    + apply Qeq_bool_iff in E2. apply Qeq_bool_neq in E1.
      apply E1. now rewrite H.
  - intros H. apply String.eqb_eq in H. now subst.
  - destruct l, l'; try discriminate; auto.
  - destruct m, m'; try discriminate; auto.
Qed.

(** A value equal to a string or to [None] is that very value. *)
Lemma py_eq_text (a b : json) :
  py_eq a b = true -> is_text b = true -> a = b.
Proof.
  destruct b; try discriminate; destruct a; try discriminate; auto.
  cbn. intros H%String.eqb_eq _. now subst.
Qed.

Lemma same_value_text (a b : json) :
  same_value a b -> is_text b = true -> a = b.
Proof. intros [H|H] Ht; [assumption|now apply py_eq_text]. Qed.

Lemma same_value_step (a b c : json) :
  py_eq a b = true -> same_value b c -> same_value a c.
Proof.
  intros Hab [->|Hbc]; right; [assumption|].
  eapply py_eq_trans; eassumption.
Qed.

(** ** Facts about the resolver *)

Lemma transitive_list_eq_head (xs ys : list transitive) :
  transitive_list_eq xs ys = true ->
  match xs, ys with
  | [], [] => True
  | x :: _, y :: _ => py_eq (version x) (version y) = true
  | _, _ => False
  end.
Proof.
  destruct xs as [|x xs], ys as [|y ys]; cbn; try discriminate; auto.
  unfold transitive_eq. now intros [[_ H]%andb_prop _]%andb_prop.
Qed.

(** Snapshots whose three constituents are equal resolve to equal
    effective versions. *)
Lemma unchanged_effective (new old : versions) :
  changed new old = false -> py_eq (effective new) (effective old) = true.
Proof.
  unfold changed, py_ne. intros H.
  apply orb_false_elim in H as [H Ht]. apply orb_false_elim in H as [Hd Ho].
  apply negb_false_iff in Hd, Ho, Ht.
  apply transitive_list_eq_head in Ht.
  unfold effective.
  rewrite (py_eq_truthy _ _ Ho).
  destruct (truthy (override old)) eqn:To; cbn.
  - rewrite (py_eq_truthy _ _ Ho), To. exact Ho.
  - destruct (transitive_overrides new) as [|x xs],
             (transitive_overrides old) as [|y ys]; try contradiction.
    + rewrite (py_eq_truthy _ _ Ho), To. exact Hd.
    + rewrite (py_eq_truthy _ _ Ht).
      destruct (truthy (version y)); cbn; assumption.
Qed.

(** A record is emitted exactly when the effective version differs. *)
Lemma emit_iff_effective_differs (new old : versions) :
  changed new old && py_ne (effective new) (effective old)
  = py_ne (effective new) (effective old).
Proof.
  destruct (changed new old) eqn:E; [reflexivity|].
  unfold py_ne. now rewrite (unchanged_effective _ _ E).
Qed.

(** Reading the entry of the package in one section of an object. *)
Lemma read_section (sect name : string) (m : list (string * json))
    (otherwise : json) {B : Type} (k : json -> result B) :
  section_ok sect m = true ->
  (has <- py_in sect (JObj m) ;;
   dep <- (if has : bool
           then (d <- py_getitem (JObj m) sect ;; py_get d name)
           else Ok otherwise) ;;
   k dep)
  = k (if has_key sect m then entry_of sect name m else otherwise).
Proof.
  unfold section_ok, entry_of, has_key, get_or_none, py_in, py_getitem.
  cbn [bind]. unfold has_key.
  destruct (lookup sect m) as [[ | | | | | d]|]; try discriminate;
    intros _; cbn [bind py_get].
  - now destruct (lookup name d).
  - reflexivity.
Qed.

(** Reading [pnpm.overrides] of an object. *)
Lemma read_overrides (name : string) (m : list (string * json)) (dep : json) :
  match lookup "pnpm" m with
  | None => true
  | Some (JObj p) => section_ok "overrides" p
  | Some _ => false
  end = true ->
  (has_pnpm <- py_in "pnpm" (JObj m) ;;
   has_overrides <- (if has_pnpm : bool
                     then (pnpm <- py_getitem (JObj m) "pnpm" ;;
                           py_in "overrides" pnpm)
                     else Ok false) ;;
   if has_overrides : bool
   then
     pnpm <- py_getitem (JObj m) "pnpm" ;;
     overrides <- py_getitem pnpm "overrides" ;;
     ovr <- py_get overrides name ;;
     items <- py_items overrides ;;
     Ok (mkVersions dep ovr (collect_transitive name items))
   else Ok (mkVersions dep JNull []))
  = Ok (mkVersions dep (get_or_none name (overrides_of m))
          (collect_transitive name (overrides_of m))).
Proof.
  unfold section_ok, overrides_of, get_or_none, py_in, py_getitem.
  cbn [bind]. unfold has_key.
  destruct (lookup "pnpm" m) as [[ | | | | | p]|]; try discriminate;
    cbn [bind]; [|reflexivity].
  unfold has_key.
  destruct (lookup "overrides" p) as [[ | | | | | o]|]; try discriminate;
    intros _; cbn [bind py_get py_items]; [|reflexivity].
  now destruct (lookup name o).
Qed.

(** On a well-shaped manifest the resolver returns, and what it returns is
    read off the three sections. *)
Lemma extract_well_shaped (name : string) (m : list (string * json)) :
  well_shaped (JObj m) = true ->
  extract_component_versions name (JObj m)
  = Ok (mkVersions (dependency_of name m)
          (get_or_none name (overrides_of m))
          (collect_transitive name (overrides_of m))).
Proof.
  cbn [well_shaped]. intros H.
  apply andb_prop in H as [H Hp]. apply andb_prop in H as [Hd Hv].
  unfold extract_component_versions, dependency_of.
  rewrite (read_section _ name _ JNull _ Hd).
  assert (D : (if has_key "dependencies" m
               then entry_of "dependencies" name m else JNull)
              = entry_of "dependencies" name m).
  { unfold entry_of, has_key. now destruct (lookup "dependencies" m). }
  rewrite D. clear D.
  destruct (truthy (entry_of "dependencies" name m)) eqn:T; cbn [bind].
  - now apply read_overrides.
  - rewrite (read_section _ name _ _ _ Hv).
    now apply read_overrides.
Qed.

Lemma first_transitive_collect (name : string) (items : list (string * json)) :
  Adoption.first_transitive name items
  = match collect_transitive name items with
    | t :: _ => Some (version t)
    | [] => None
    end.
Proof.
  induction items as [|[k v] items IH]; cbn; [reflexivity|].
  now destruct (is_transitive_key name k).
Qed.

(** The effective version of what the resolver extracts from a well-shaped
    manifest follows the precedence of the trackers. *)
Lemma effective_well_shaped (name : string) (m : list (string * json)) :
  effective (mkVersions (dependency_of name m)
               (get_or_none name (overrides_of m))
               (collect_transitive name (overrides_of m)))
  = tracker_precedence name m.
Proof.
  unfold effective, tracker_precedence. cbn [override transitive_overrides
    dependency]. rewrite first_transitive_collect.
  destruct (truthy (get_or_none name (overrides_of m))) eqn:T; cbn [negb].
  - now rewrite T.
  - destruct (collect_transitive name (overrides_of m)) as [|t ts].
    + now rewrite T.
    + now destruct (truthy (version t)).
Qed.

(** [get_version_at_commit] on a well-shaped manifest. *)
Lemma get_version_well_shaped (name : string) (r : repo_state) (c : string)
    (m : list (string * json)) :
  git_show r c = ShowDoc (JObj m) ->
  well_shaped (JObj m) = true ->
  Adoption.get_version_at_commit name r c = Ok (analyzer_precedence name m).
Proof.
  intros Hs H. cbn [well_shaped] in H.
  apply andb_prop in H as [H Hp]. apply andb_prop in H as [Hd _].
  unfold Adoption.get_version_at_commit, analyzer_precedence. rewrite Hs.
  rewrite (read_section _ name _ JNull _ Hd).
  assert (D : (if has_key "dependencies" m
               then entry_of "dependencies" name m else JNull)
              = entry_of "dependencies" name m).
  { unfold entry_of, has_key. now destruct (lookup "dependencies" m). }
  rewrite D. clear D.
  destruct (truthy (entry_of "dependencies" name m)) eqn:T; cbn [bind];
    [reflexivity|].
  unfold has_overrides, overrides_of, get_or_none, section_ok, py_in,
    py_getitem in *.
  cbn [bind]. unfold has_key.
  destruct (lookup "pnpm" m) as [[ | | | | | p]|]; try discriminate;
    cbn [bind]; [|reflexivity].
  unfold has_key.
  destruct (lookup "overrides" p) as [[ | | | | | o]|]; try discriminate;
    cbn [bind py_get py_items]; [|reflexivity].
  destruct (lookup name o) as [x|]; cbn [bind truthy negb].
  - now destruct (truthy x).
  - reflexivity.
Qed.

(** C1 (as amended).  On every well-shaped manifest the two trackers
    resolve the effective version in the order direct override (when not
    empty), first transitive override (when not empty), dependency entry
    ([dependencies], then [devDependencies]); a non-empty direct override
    wins whatever the other entries are.  [get_version_at_commit] of the
    adoption analyzer resolves in another order: the [dependencies] entry
    first, then the direct override, then the first transitive override,
    and it never reads [devDependencies]. *)
Theorem effective_version_precedence (name : string)
    (m : list (string * json)) :
  well_shaped (JObj m) = true ->
  (exists v,
      extract_component_versions name (JObj m) = Ok v /\
      effective v = tracker_precedence name m /\
      (forall o, lookup name (overrides_of m) = Some o -> truthy o = true ->
                 effective v = o)) /\
  (forall r c, git_show r c = ShowDoc (JObj m) ->
      Adoption.get_version_at_commit name r c
      = Ok (analyzer_precedence name m)).
Proof.
  intros H. split.
  - eexists. split; [now apply extract_well_shaped|].
    rewrite effective_well_shaped. split; [reflexivity|].
    intros o Ho To. unfold tracker_precedence, get_or_none.
    now rewrite Ho, To.
  - intros r c Hs. now apply get_version_well_shaped.
Qed.

Lemma effective_version_precedence_witness :
  (exists v,
      extract_component_versions pkg doc_transitive = Ok v /\
      effective v = JStr "2.0.0") /\
  Adoption.get_version_at_commit pkg
    (repo_showing (ShowDoc doc_transitive)) "c1" = Ok (JStr "2.0.0").
Proof.
  destruct (effective_version_precedence pkg
              [("devDependencies", JObj [(pkg, JStr "1.0.0")]);
               ("pnpm", JObj [("overrides",
                   JObj [(("pkgA>" ++ pkg)%string, JStr "2.0.0");
                         (("pkgB>" ++ pkg)%string, JStr "3.0.0")])])]
              eq_refl) as [[v [E [P _]]] A].
  split.
  - exists v. split; [exact E|exact P].
  - exact (A (repo_showing (ShowDoc doc_transitive)) "c1" eq_refl).
Defined.

(** C1 fails as stated: with a direct override ["2.0.0"] and a dependency
    entry ["1.0.0"], [get_version_at_commit] answers the dependency entry;
    and in the trackers a direct override that is present but empty does
    not win. *)
Lemma override_does_not_always_win :
  (get_or_none pkg
     (overrides_of [("dependencies", JObj [(pkg, JStr "1.0.0")]);
                    ("pnpm", JObj [("overrides", JObj [(pkg, JStr "2.0.0")])])])
   = JStr "2.0.0" /\
   Adoption.get_version_at_commit pkg
     (repo_showing (ShowDoc doc_override_and_dependency)) "c1"
   = Ok (JStr "1.0.0")) /\
  (exists v, extract_component_versions pkg doc_empty_override = Ok v /\
             override v = JStr "" /\ effective v = JStr "1.0.0").
Proof.
  split; [split; reflexivity|].
  eexists. split; [reflexivity|]. split; reflexivity.
Qed.

(** ** The exceptions of the resolver *)

Lemma only_ok {A : Type} (a : A) : raises_only_kind_errors (Ok a).
Proof. intros e H. discriminate. Qed.

Lemma only_bind {A B : Type} (r : result A) (k : A -> result B) :
  raises_only_kind_errors r ->
  (forall a, r = Ok a -> raises_only_kind_errors (k a)) ->
  raises_only_kind_errors (x <- r ;; k x).
Proof.
  intros Hr Hk e. destruct r as [a|e']; cbn.
  - now apply Hk.
  - intros [= <-]. now apply Hr.
Qed.

Lemma py_in_only (key : string) (v : json) :
  raises_only_kind_errors (py_in key v).
Proof.
  intros e. destruct v; cbn; try discriminate; intros [= <-]; now right.
Qed.

Lemma py_get_only (v : json) (key : string) :
  raises_only_kind_errors (py_get v key).
Proof.
  intros e. destruct v as [ | | | | |m]; cbn;
    try (intros [= <-]; now left).
  destruct (lookup key m); discriminate.
Qed.

Lemma py_items_only (v : json) : raises_only_kind_errors (py_items v).
Proof.
  intros e. destruct v; cbn; try discriminate; intros [= <-]; now left.
Qed.

(** Behind the test [key in v], [v[key]] raises no [KeyError]. *)
Lemma py_getitem_guarded (v : json) (key : string) :
  py_in key v = Ok true -> raises_only_kind_errors (py_getitem v key).
Proof.
  intros H e. destruct v as [ | | | | |m]; cbn in *;
    try discriminate; try (intros [= <-]; now right).
  injection H as H. unfold has_key in H.
  destruct (lookup key m); discriminate.
Qed.

(** Reading [doc[sect].get(name)] behind the test [sect in doc]. *)
Lemma read_guarded_only (doc : json) (sect name : string) (has : bool)
    (otherwise : json) :
  py_in sect doc = Ok has ->
  raises_only_kind_errors
    (if has
     then (d <- py_getitem doc sect ;; py_get d name)
     else Ok otherwise).
Proof.
  intros H. destruct has; [|apply only_ok].
  apply only_bind; [now apply py_getitem_guarded|].
  intros d _. apply py_get_only.
Qed.

(** The part of both resolvers that reads [pnpm.overrides]. *)
Lemma overrides_guarded_only {A : Type} (doc : json) (skip : bool)
    (found : json -> result A) (missing : result A) :
  (forall overrides, raises_only_kind_errors (found overrides)) ->
  raises_only_kind_errors missing ->
  raises_only_kind_errors
    (has_pnpm <- (if skip then Ok false else py_in "pnpm" doc) ;;
     has_overrides <- (if has_pnpm : bool
                       then (pnpm <- py_getitem doc "pnpm" ;;
                             py_in "overrides" pnpm)
                       else Ok false) ;;
     if has_overrides : bool
     then
       pnpm <- py_getitem doc "pnpm" ;;
       overrides <- py_getitem pnpm "overrides" ;;
       found overrides
     else missing).
Proof.
  intros Hf Hm.
  apply only_bind; [destruct skip; [apply only_ok|apply py_in_only]|].
  intros has_pnpm Hp.
  assert (Hp' : has_pnpm = true -> py_in "pnpm" doc = Ok true).
  { intros ->. destruct skip; [discriminate|exact Hp]. }
  clear Hp. destruct has_pnpm; cbn [bind]; [|exact Hm].
  specialize (Hp' eq_refl).
  destruct (py_getitem doc "pnpm") as [pnpm|e] eqn:G; cbn [bind].
  - destruct (py_in "overrides" pnpm) as [has_overrides|e] eqn:O; cbn [bind].
    + destruct has_overrides; [|exact Hm].
      apply only_bind; [now apply py_getitem_guarded|].
      intros overrides _. apply Hf.
    + intros e' [= <-]. now apply (py_in_only "overrides" pnpm).
  - intros e' [= <-]. apply (py_getitem_guarded doc "pnpm" Hp'). exact G.
Qed.

Lemma extract_only_kind_errors (name : string) (doc : json) :
  raises_only_kind_errors (extract_component_versions name doc).
Proof.
  unfold extract_component_versions.
  apply only_bind; [apply py_in_only|]. intros has_deps Hd.
  apply only_bind; [now apply read_guarded_only|]. intros dep _.
  apply only_bind;
    [destruct (truthy dep); [apply only_ok|apply py_in_only]|].
  intros has_dev Hv.
  apply only_bind.
  { destruct has_dev; [|apply only_ok].
    destruct (truthy dep); [discriminate|].
    now apply (read_guarded_only doc "devDependencies" name true dep). }
  intros dep' _.
  apply (overrides_guarded_only doc false).
  - intros overrides. apply only_bind; [apply py_get_only|].
    intros ovr _. apply only_bind; [apply py_items_only|].
    intros items _. apply only_ok.
  - apply only_ok.
Qed.

Lemma get_version_only_kind_errors (name : string) (r : repo_state)
    (c : string) (e : exn) :
  Adoption.get_version_at_commit name r c = Raise e ->
  kind_error e \/
  exists u, git_show r c = ShowEscapes u /\ e = uncaught_exn u.
Proof.
  unfold Adoption.get_version_at_commit.
  destruct (git_show r c) as [ | |u|doc]; try discriminate.
  { intros [= <-]. right. now exists u. }
  intros H. left. revert e H.
  change (raises_only_kind_errors
            (has_deps <- py_in "dependencies" doc ;;
             version <- (if has_deps : bool
                         then (deps <- py_getitem doc "dependencies" ;;
                               py_get deps name)
                         else Ok JNull) ;;
             has_pnpm <- (if truthy version then Ok false
                          else py_in "pnpm" doc) ;;
             has_overrides <- (if has_pnpm : bool
                               then (pnpm <- py_getitem doc "pnpm" ;;
                                     py_in "overrides" pnpm)
                               else Ok false) ;;
             if has_overrides : bool
             then
               pnpm <- py_getitem doc "pnpm" ;;
               overrides <- py_getitem pnpm "overrides" ;;
               version <- py_get overrides name ;;
               if negb (truthy version)
               then
                 items <- py_items overrides ;;
                 Ok (match Adoption.first_transitive name items with
                     | Some value => value
                     | None => version
                     end)
               else Ok version
             else Ok version)).
  apply only_bind; [apply py_in_only|]. intros has_deps Hd.
  apply only_bind; [now apply read_guarded_only|]. intros version _.
  apply (overrides_guarded_only doc (truthy version)).
  - intros overrides. apply only_bind; [apply py_get_only|].
    intros v _. destruct (truthy v); cbn [negb]; [apply only_ok|].
    apply only_bind; [apply py_items_only|]. intros items _.
    apply only_ok.
  - apply only_ok.
Qed.

(** C5 (as amended).  A commit whose [git show] fails or whose output is
    not JSON resolves to [None] and leaves the state of the trackers as it
    was; an exception that the reader does not catch leaves the reader,
    the loop body of both trackers and the resolver of the analyzer.  On
    a well-shaped manifest the resolver returns, and when the manifest
    has no entry for the package every constituent and the effective
    version are absent.  Whenever the resolver raises, the manifest is
    not well-shaped and the exception is [AttributeError] or
    [TypeError]. *)
Theorem resolver_returns_on_well_shaped (name : string) :
  (forall r c, git_show r c = ShowFailed \/ git_show r c = ShowUnparsable ->
     get_package_json_at_commit r c = Ok JNull /\
     Adoption.get_version_at_commit name r c = Ok JNull /\
     (forall repo st, Multi.track_commit name r repo st c = Ok st) /\
     (forall st, Single.track_commit name r st c = Ok st)) /\
  (forall r c u, git_show r c = ShowEscapes u ->
     get_package_json_at_commit r c = Raise (uncaught_exn u) /\
     Adoption.get_version_at_commit name r c = Raise (uncaught_exn u) /\
     (forall repo st,
        Multi.track_commit name r repo st c = Raise (uncaught_exn u)) /\
     (forall st, Single.track_commit name r st c = Raise (uncaught_exn u))) /\
  (forall doc, well_shaped doc = true ->
     exists v, extract_component_versions name doc = Ok v) /\
  (forall m, well_shaped (JObj m) = true ->
     entry_of "dependencies" name m = JNull ->
     entry_of "devDependencies" name m = JNull ->
     lookup name (overrides_of m) = None ->
     Adoption.first_transitive name (overrides_of m) = None ->
     extract_component_versions name (JObj m) = Ok no_versions /\
     effective no_versions = JNull) /\
  (forall doc e,
     extract_component_versions name doc = Raise e ->
     well_shaped doc = false /\ kind_error e) /\
  (forall r c e,
     Adoption.get_version_at_commit name r c = Raise e ->
     (exists u, git_show r c = ShowEscapes u /\ e = uncaught_exn u) \/
     (exists doc, git_show r c = ShowDoc doc /\ well_shaped doc = false /\
                  kind_error e)).
Proof.
  assert (W : forall doc, well_shaped doc = true ->
                exists v, extract_component_versions name doc = Ok v).
  { intros [ | | | | | m] H; try discriminate.
    eexists. now apply extract_well_shaped. }
  split; [|split; [|split; [exact W|split; [|split]]]].
  - intros r c H.
    assert (E : get_package_json_at_commit r c = Ok JNull).
    { unfold get_package_json_at_commit. now destruct H as [-> | ->]. }
    split; [exact E|]. split.
    + unfold Adoption.get_version_at_commit. now destruct H as [-> | ->].
    + split.
      * intros repo [ch last]. unfold Multi.track_commit. now rewrite E.
      * intros [ch last]. unfold Single.track_commit. now rewrite E.
  - intros r c u H.
    assert (E : get_package_json_at_commit r c = Raise (uncaught_exn u)).
    { unfold get_package_json_at_commit. now rewrite H. }
    split; [exact E|]. split.
    + unfold Adoption.get_version_at_commit. now rewrite H.
    + split.
      * intros repo [ch last]. unfold Multi.track_commit. now rewrite E.
      * intros [ch last]. unfold Single.track_commit. now rewrite E.
  - intros m H Hd Hv Ho Ht. split; [|reflexivity].
    rewrite (extract_well_shaped _ _ H). unfold no_versions. f_equal.
    rewrite first_transitive_collect in Ht.
    unfold dependency_of, get_or_none. rewrite Hd, Hv, Ho. cbn [truthy].
    destruct (collect_transitive name (overrides_of m)); [|discriminate].
    now destruct (has_key "devDependencies" m).
  - intros doc e H. split; [|now apply (extract_only_kind_errors name doc)].
    destruct (well_shaped doc) eqn:Ws; [|reflexivity].
    destruct (W doc Ws) as [v Hv]. congruence.
  - intros r c e H.
    destruct (git_show r c) as [ | |u|doc] eqn:G.
    + unfold Adoption.get_version_at_commit in H. rewrite G in H.
      discriminate.
    + unfold Adoption.get_version_at_commit in H. rewrite G in H.
      discriminate.
    + left. exists u. split; [reflexivity|].
      unfold Adoption.get_version_at_commit in H. rewrite G in H.
      now injection H as <-.
    + right. exists doc. split; [reflexivity|]. split.
      * destruct (well_shaped doc) eqn:Ws; [|reflexivity].
        destruct doc as [ | | | | | m]; try discriminate.
        rewrite (get_version_well_shaped name r c m) in H;
          [discriminate|exact G|exact Ws].
      * destruct (get_version_only_kind_errors name r c e H)
          as [K|[u [G' _]]]; [exact K|].
        rewrite G in G'. discriminate.
Qed.

Lemma resolver_returns_on_well_shaped_witness :
  (extract_component_versions pkg doc_without_package = Ok no_versions /\
   effective no_versions = JNull) /\
  (well_shaped doc_null_dependencies = false /\ kind_error AttributeError).
Proof.
  split.
  - apply (proj1 (proj2 (proj2 (proj2 (resolver_returns_on_well_shaped pkg))))
             [("name", JStr "app");
              ("dependencies", JObj [("react", JStr "18.0.0")])]);
      reflexivity.
  - exact (proj1 (proj2 (proj2 (proj2 (proj2
                    (resolver_returns_on_well_shaped pkg)))))
             doc_null_dependencies AttributeError eq_refl).
Defined.

(** Not every manifest with a section of another kind makes the resolver
    raise: a [pnpm] section that is a text without ["overrides"] in it is
    read as having no overrides. *)
Example text_section_resolves :
  well_shaped (JObj [("pnpm", JStr "text")]) = false /\
  extract_component_versions pkg (JObj [("pnpm", JStr "text")])
  = Ok no_versions.
Proof. split; reflexivity. Qed.

(** C5 fails as stated: a parsed manifest whose [dependencies] is [null]
    makes the resolver raise [AttributeError], in both trackers and in the
    analyzer; one whose [pnpm] is [null] makes it raise [TypeError]; and
    a manifest whose bytes are not UTF-8 makes the reader itself raise. *)
Lemma resolver_raises_on_malformed_entry :
  extract_component_versions pkg doc_null_dependencies = Raise AttributeError /\
  Multi.track_commit pkg (repo_showing (ShowDoc doc_null_dependencies)) "app"
    ([], no_versions) "c1" = Raise AttributeError /\
  Adoption.get_version_at_commit pkg
    (repo_showing (ShowDoc doc_null_dependencies)) "c1" = Raise AttributeError /\
  extract_component_versions pkg (JObj [("pnpm", JNull)]) = Raise TypeError /\
  get_package_json_at_commit (repo_showing (ShowEscapes NotDecodable)) "c1"
  = Raise UnicodeDecodeError /\
  Multi.track_commit pkg (repo_showing (ShowEscapes NotDecodable)) "app"
    ([], no_versions) "c1" = Raise UnicodeDecodeError.
Proof. repeat split; reflexivity. Qed.

(** ** The change detector *)

Lemma for_each_app {S A : Type} (body : S -> A -> result S)
    (xs ys : list A) (s : S) :
  for_each body (xs ++ ys) s
  = (s' <- for_each body xs s ;; for_each body ys s').
Proof.
  revert s; induction xs as [|x xs IH]; intros s; cbn; [reflexivity|].
  destruct (body s x); cbn; [apply IH|reflexivity].
Qed.

(** An invariant of the body of a loop holds when the loop returns. *)
Lemma for_each_invariant {S A : Type} (body : S -> A -> result S)
    (I : S -> Prop) :
  (forall s x s', body s x = Ok s' -> I s -> I s') ->
  forall items s s', for_each body items s = Ok s' -> I s -> I s'.
Proof.
  intros Hstep items. induction items as [|x items IH]; intros s s'; cbn.
  - now intros [= <-].
  - destruct (body s x) as [s1|] eqn:E; cbn; [|discriminate].
    intros H Hs. eapply IH; [exact H|]. eapply Hstep; eassumption.
Qed.

Lemma bind_ok {A B : Type} (r : result A) (k : A -> result B) (b : B) :
  (x <- r ;; k x) = Ok b -> exists a, r = Ok a /\ k a = Ok b.
Proof. destruct r as [a|]; cbn; [eauto|discriminate]. Qed.

Lemma multi_track_commit_step (name : string) (r : repo_state)
    (repo : string) (st st' : list Multi.change_record * versions)
    (c : string) :
  Multi.track_commit name r repo st c = Ok st' ->
  detector_step (map multi_transition (fst st)) (snd st)
                (map multi_transition (fst st')) (snd st').
Proof.
  destruct st as [ch last]. unfold Multi.track_commit.
  destruct (get_package_json_at_commit r c) as [doc|]; cbn [bind];
    [|discriminate].
  destruct (truthy doc); cbn [negb].
  - intros H. apply bind_ok in H as [v [_ H]].
    apply bind_ok in H as [ch' [H [= <-]]]. right. cbn [fst snd].
    destruct (changed v last && py_ne (effective v) (effective last)).
    + apply bind_ok in H as [info [_ [= <-]]].
      now rewrite map_app.
    + now injection H as <-.
  - intros [= <-]. now left.
Qed.

Lemma single_track_commit_step (name : string) (r : repo_state)
    (st st' : list Single.change_record * versions) (c : string) :
  Single.track_commit name r st c = Ok st' ->
  detector_step (map single_transition (fst st)) (snd st)
                (map single_transition (fst st')) (snd st').
Proof.
  destruct st as [ch last]. unfold Single.track_commit.
  destruct (get_package_json_at_commit r c) as [doc|]; cbn [bind];
    [|discriminate].
  destruct (truthy doc); cbn [negb].
  - intros H. apply bind_ok in H as [v [_ H]].
    apply bind_ok in H as [info [_ [= <-]]]. right. cbn [fst snd].
    destruct (changed v last && py_ne (effective v) (effective last));
      [now rewrite map_app|reflexivity].
  - intros [= <-]. now left.
Qed.

Lemma multi_last_snapshot (name : string) (r : repo_state) (repo : string)
    (commits : list string) :
  forall st st',
    for_each (Multi.track_commit name r repo) commits st = Ok st' ->
    snd st' = last_snapshot name r commits (snd st).
Proof.
  induction commits as [|c commits IH]; intros [ch last] st'; cbn.
  - now intros [= <-].
  - intros H. apply bind_ok in H as [[ch1 last1] [H1 H2]].
    apply IH in H2. rewrite H2. cbn [snd]. clear IH H2.
    unfold Multi.track_commit in H1.
    destruct (get_package_json_at_commit r c) as [doc|]; cbn [bind] in H1;
      [|discriminate].
    destruct (truthy doc); cbn [negb] in H1.
    + apply bind_ok in H1 as [v [-> H1]].
      now apply bind_ok in H1 as [? [_ [= _ <-]]].
    + now injection H1 as _ <-.
Qed.

Lemma single_last_snapshot (name : string) (r : repo_state)
    (commits : list string) :
  forall st st',
    for_each (Single.track_commit name r) commits st = Ok st' ->
    snd st' = last_snapshot name r commits (snd st).
Proof.
  induction commits as [|c commits IH]; intros [ch last] st'; cbn.
  - now intros [= <-].
  - intros H. apply bind_ok in H as [[ch1 last1] [H1 H2]].
    apply IH in H2. rewrite H2. cbn [snd]. clear IH H2.
    unfold Single.track_commit in H1.
    destruct (get_package_json_at_commit r c) as [doc|]; cbn [bind] in H1;
      [|discriminate].
    destruct (truthy doc); cbn [negb] in H1.
    + apply bind_ok in H1 as [v [-> H1]].
      now apply bind_ok in H1 as [? [_ [= _ <-]]].
    + now injection H1 as _ <-.
Qed.

(** C4 (as amended).  After any commits [pre], the snapshot the detector
    compares with is the one resolved at the last commit of [pre] whose
    manifest was read as a true value and resolved.  At the next commit
    [c] whose manifest is read: when the manifest is a true value and is
    resolved, a record from the previous to the new effective version is
    appended if and only if a constituent differs and the effective
    version differs, and the snapshot becomes the newly resolved one
    whether or not a record was appended, so a change of constituents
    that leaves the effective version as it was appends nothing and still
    moves the snapshot; when the manifest is a false value (absent,
    unparsable, or parsed to an empty object or another empty value)
    nothing is appended and the snapshot stays as it was.  Both
    trackers. *)
Theorem change_record_iff_effective_change (name : string) (r : repo_state)
    (pre : list string) (c : string) (doc : json) (last v : versions)
    (info : commit_info) :
  get_package_json_at_commit r c = Ok doc ->
  let emit := changed v last && py_ne (effective v) (effective last) in
  (truthy doc = true ->
   extract_component_versions name doc = Ok v ->
   (forall repo changes,
      for_each (Multi.track_commit name r repo) pre ([], no_versions)
      = Ok (changes, last) ->
      (emit = true -> get_commit_info r c = Ok info) ->
      last = last_snapshot name r pre no_versions /\
      for_each (Multi.track_commit name r repo) (pre ++ [c]) ([], no_versions)
      = Ok (if emit
            then changes ++
                   [Multi.mkChange repo (take 8 (info_hash info))
                      (info_date info) (author_name info)
                      (take 80 (info_message info))
                      (dependency v) (override v) (transitive_overrides v)
                      (effective v) (effective last)]
            else changes,
            v)) /\
   (forall changes,
      for_each (Single.track_commit name r) pre ([], no_versions)
      = Ok (changes, last) ->
      get_commit_info r c = Ok info ->
      last = last_snapshot name r pre no_versions /\
      for_each (Single.track_commit name r) (pre ++ [c]) ([], no_versions)
      = Ok (if emit
            then changes ++
                   [Single.mkChange (take 8 (info_hash info))
                      (info_date info) (author_name info)
                      (take 80 (info_message info))
                      (dependency v) (override v)
                      (effective v) (effective last)
                      (Single.change_details v last)]
            else changes,
            v))) /\
  (truthy doc = false ->
   (forall repo changes,
      for_each (Multi.track_commit name r repo) pre ([], no_versions)
      = Ok (changes, last) ->
      for_each (Multi.track_commit name r repo) (pre ++ [c]) ([], no_versions)
      = Ok (changes, last) /\
      last_snapshot name r (pre ++ [c]) no_versions = last) /\
   (forall changes,
      for_each (Single.track_commit name r) pre ([], no_versions)
      = Ok (changes, last) ->
      for_each (Single.track_commit name r) (pre ++ [c]) ([], no_versions)
      = Ok (changes, last) /\
      last_snapshot name r (pre ++ [c]) no_versions = last)).
Proof.
  intros G emit. split.
  - intros T E. split.
    + intros repo changes H I. split.
      * now apply multi_last_snapshot in H.
      * rewrite for_each_app, H. cbn [bind for_each].
        unfold Multi.track_commit. rewrite G. cbn [bind].
        rewrite T, E. cbn [negb bind].
        fold emit. destruct emit; cbn [bind]; [|reflexivity].
        now rewrite (I eq_refl).
    + intros changes H I. split.
      * now apply single_last_snapshot in H.
      * rewrite for_each_app, H. cbn [bind for_each].
        unfold Single.track_commit. rewrite G. cbn [bind].
        rewrite T, E, I. cbn [negb bind].
        fold emit. now destruct emit.
  - intros T. split.
    + intros repo changes H.
      assert (H' : for_each (Multi.track_commit name r repo) (pre ++ [c])
                     ([], no_versions) = Ok (changes, last)).
      { rewrite for_each_app, H. cbn [bind for_each].
        unfold Multi.track_commit. rewrite G. cbn [bind].
        now rewrite T. }
      split; [exact H'|]. now apply multi_last_snapshot in H'.
    + intros changes H.
      assert (H' : for_each (Single.track_commit name r) (pre ++ [c])
                     ([], no_versions) = Ok (changes, last)).
      { rewrite for_each_app, H. cbn [bind for_each].
        unfold Single.track_commit. rewrite G. cbn [bind].
        now rewrite T. }
      split; [exact H'|]. now apply single_last_snapshot in H'.
Qed.

Lemma change_record_iff_effective_change_witness :
  for_each (Multi.track_commit pkg history_repo "app") (["c1"; "c2"] ++ ["c3"])
    ([], no_versions)
  = Ok ([Multi.mkChange "app" "c1012345" "2024-01-01 10:00:00 +0000" "dev"
           "bump components" (JStr "1.0.0") JNull [] (JStr "1.0.0") JNull;
         Multi.mkChange "app" "c3012345" "2024-01-01 10:00:00 +0000" "dev"
           "bump components" (JStr "1.1.0") JNull [] (JStr "1.1.0")
           (JStr "1.0.0")],
        mkVersions (JStr "1.1.0") JNull []) /\
  for_each (Multi.track_commit pkg cancel_repo "app") (["c1"] ++ ["c2"])
    ([], no_versions)
  = Ok ([Multi.mkChange "app" "c1012345" "2024-01-01 10:00:00 +0000" "dev"
           "bump components" (JStr "1.0.0") (JStr "2.0.0") []
           (JStr "2.0.0") JNull],
        mkVersions (JStr "2.0.0") JNull []) /\
  for_each (Single.track_commit pkg emptied_repo) (["c1"] ++ ["c2"])
    ([], no_versions)
  = for_each (Single.track_commit pkg emptied_repo) ["c1"] ([], no_versions).
Proof.
  split; [|split].
  - exact (proj2 (proj1 (proj1 (change_record_iff_effective_change pkg
             history_repo ["c1"; "c2"] "c3" (manifest_of "1.1.0" None)
             (mkVersions (JStr "1.0.0") JNull [])
             (mkVersions (JStr "1.1.0") JNull [])
             (mkCommitInfo "c30123456789abcdef" "2024-01-01 10:00:00 +0000"
                "dev" "dev@example.org" "bump components")
             eq_refl) eq_refl eq_refl) "app" _ eq_refl (fun _ => eq_refl))).
  - exact (proj2 (proj1 (proj1 (change_record_iff_effective_change pkg
             cancel_repo ["c1"] "c2" (manifest_of "2.0.0" None)
             (mkVersions (JStr "1.0.0") (JStr "2.0.0") [])
             (mkVersions (JStr "2.0.0") JNull [])
             (mkCommitInfo "c20123456789abcdef" "2024-01-01 10:00:00 +0000"
                "dev" "dev@example.org" "bump components")
             eq_refl) eq_refl eq_refl) "app" _ eq_refl (fun _ => eq_refl))).
  - exact (proj1 (proj2 (proj2 (change_record_iff_effective_change pkg
             emptied_repo ["c1"] "c2" (JObj [])
             (mkVersions (JStr "1.0.0") JNull []) no_versions
             (mkCommitInfo "" "" "" "" "")
             eq_refl) eq_refl) _ eq_refl)).
Defined.

(** C4 fails as stated: a manifest that parses to the empty object is a
    parsed commit, and resolves to all-absent values that differ from a
    snapshot with a version, in a constituent and in the effective
    version; yet both trackers pass it over, append no record and leave
    the snapshot as it was, so that the commit after it, with the
    version of the first, gives no record either. *)
Lemma empty_manifest_is_passed_over :
  get_package_json_at_commit emptied_repo "c2" = Ok (JObj []) /\
  extract_component_versions pkg (JObj []) = Ok no_versions /\
  (changed no_versions (mkVersions (JStr "1.0.0") JNull [])
   && py_ne (effective no_versions)
        (effective (mkVersions (JStr "1.0.0") JNull []))) = true /\
  (exists record,
      for_each (Multi.track_commit pkg emptied_repo "app") ["c1"]
        ([], no_versions)
      = Ok ([record], mkVersions (JStr "1.0.0") JNull []) /\
      for_each (Multi.track_commit pkg emptied_repo "app") ["c1"; "c2"]
        ([], no_versions)
      = Ok ([record], mkVersions (JStr "1.0.0") JNull []) /\
      for_each (Multi.track_commit pkg emptied_repo "app")
        ["c1"; "c2"; "c3"] ([], no_versions)
      = Ok ([record], mkVersions (JStr "1.0.0") JNull [])) /\
  (exists record,
      Single.track_version_changes pkg emptied_repo None None
      = Ok [record]).
Proof.
  split; [reflexivity|]. split; [reflexivity|]. split; [reflexivity|].
  split; eexists; repeat split; reflexivity.
Qed.

(** ** The chain of change records *)

Lemma linked_app (R : json -> json -> Prop) (ts : list transition)
    (t : transition) :
  forall start,
    linked R start (ts ++ [t])
    <-> linked R start ts /\ R (fst t) (tip start ts).
Proof.
  induction ts as [|u ts IH]; intros start; cbn.
  - tauto.
  - rewrite IH. tauto.
Qed.

Lemma tip_app (ts : list transition) (t : transition) :
  forall start, tip start (ts ++ [t]) = snd t.
Proof.
  induction ts as [|u ts IH]; intros start; cbn; [reflexivity|apply IH].
Qed.

Lemma detector_step_chained (ts ts' : list transition) (last last' : versions) :
  detector_step ts last ts' last' -> chained ts last -> chained ts' last'.
Proof.
  intros [[-> ->] | ->] [L T]; [now split|].
  rewrite emit_iff_effective_differs. unfold py_ne.
  destruct (py_eq (effective last') (effective last)) eqn:E; cbn [negb].
  - split; [exact L|]. eapply same_value_step; eassumption.
  - split.
    + apply linked_app. now split.
    + rewrite tip_app. now left.
Qed.

Lemma linked_chain (ts : list transition) :
  linked same_value JNull ts -> chain same_value ts.
Proof.
  destruct ts as [|t ts]; cbn; [trivial|].
  intros [H L]. split; [|exact L]. now apply same_value_text.
Qed.

Lemma linked_text (ts : list transition) :
  forall start,
    is_text start = true ->
    forallb (fun t => is_text (snd t)) ts = true ->
    linked same_value start ts -> linked eq start ts.
Proof.
  induction ts as [|t ts IH]; intros start Hs Ht; cbn; [trivial|].
  cbn in Ht. apply andb_prop in Ht as [H1 H2].
  intros [H L]. split; [now apply same_value_text|now apply IH].
Qed.

Lemma chain_text (ts : list transition) :
  forallb (fun t => is_text (snd t)) ts = true ->
  chain same_value ts -> chain eq ts.
Proof.
  destruct ts as [|t ts]; cbn; [trivial|].
  intros [H1 H2]%andb_prop [H L]. split; [exact H|now apply linked_text].
Qed.

Lemma multi_loop_chain (name : string) (r : repo_state) (repo : string)
    (commits : list string) (st : list Multi.change_record * versions) :
  for_each (Multi.track_commit name r repo) commits ([], no_versions) = Ok st ->
  chain same_value (map multi_transition (fst st)).
Proof.
  intros H. apply linked_chain.
  apply (for_each_invariant _
           (fun s => chained (map multi_transition (fst s)) (snd s))
           (fun s x s' Hb => detector_step_chained _ _ _ _
                               (multi_track_commit_step _ _ _ _ _ _ Hb))
           _ _ _ H).
  split; [exact I|now left].
Qed.

Lemma single_loop_chain (name : string) (r : repo_state)
    (commits : list string) (st : list Single.change_record * versions) :
  for_each (Single.track_commit name r) commits ([], no_versions) = Ok st ->
  chain same_value (map single_transition (fst st)).
Proof.
  intros H. apply linked_chain.
  apply (for_each_invariant _
           (fun s => chained (map single_transition (fst s)) (snd s))
           (fun s x s' Hb => detector_step_chained _ _ _ _
                               (single_track_commit_step _ _ _ _ _ Hb))
           _ _ _ H).
  split; [exact I|now left].
Qed.

(** What a returned result of [track_repo_version_changes] is. *)
Lemma track_repo_result (name : string) (w : world) (repo : Path)
    (since_date until_date : datetime) (res : Multi.repo_result) :
  Multi.track_repo_version_changes name w repo since_date until_date = Ok res ->
  Multi.result_repository res = path_name repo /\
  (Multi.changes res = [] \/
   exists lines st,
     git_log (w repo) (Some since_date) (Some until_date) = Some lines /\
     for_each (Multi.track_commit name (w repo) (path_name repo))
       (filter (fun c => negb (c =? "")) lines) ([], no_versions) = Ok st /\
     Multi.changes res = fst st).
Proof.
  unfold Multi.track_repo_version_changes, except_called_process_error.
  destruct (git_log (w repo) (Some since_date) (Some until_date))
    as [lines|]; cbn [subprocess_run bind].
  - destruct (for_each _ _ _) as [st|e] eqn:E; cbn [bind].
    + destruct (Multi.current_of name (w repo)) as [cur|e]; cbn [bind].
      * intros [= <-]. cbn. split; [reflexivity|]. right. eauto.
      * destruct e; try discriminate. intros [= <-]. cbn. auto.
    + destruct e; try discriminate. intros [= <-]. cbn. auto.
  - intros [= <-]. cbn. auto.
Qed.

(** C9.  In every list of change records that a tracker returns, the first
    record's previous effective version is the absent version and each
    later record's previous effective version is the same value as the new
    effective version of the record before it; when the versions are
    strings the two are identical. *)
Theorem previous_effective_chain (name : string) :
  (forall w repo since_date until_date res,
     Multi.track_repo_version_changes name w repo since_date until_date
     = Ok res ->
     let ts := map multi_transition (Multi.changes res) in
     chain same_value ts /\
     (forallb (fun t => is_text (snd t)) ts = true -> chain eq ts)) /\
  (forall r since_date until_date changes,
     Single.track_version_changes name r since_date until_date = Ok changes ->
     let ts := map single_transition changes in
     chain same_value ts /\
     (forallb (fun t => is_text (snd t)) ts = true -> chain eq ts)).
Proof.
  split.
  - intros w repo since_date until_date res H ts.
    assert (C : chain same_value ts).
    { apply track_repo_result in H as [_ [E|[lines [st [_ [L E]]]]]];
        subst ts; rewrite E; [exact I|].
      eapply multi_loop_chain; eassumption. }
    split; [exact C|]. intros T. now apply chain_text.
  - intros r since_date until_date changes H ts.
    assert (C : chain same_value ts).
    { unfold Single.track_version_changes in H.
      apply bind_ok in H as [lines [_ H]].
      apply bind_ok in H as [st [L [= <-]]].
      eapply single_loop_chain; eassumption. }
    split; [exact C|]. intros T. now apply chain_text.
Qed.

Lemma previous_effective_chain_witness :
  map multi_transition
    (match Multi.track_repo_version_changes pkg (fun _ => history_repo)
             ["code"; "app"] epoch epoch with
     | Ok res => Multi.changes res
     | Raise _ => []
     end)
  = [(JNull, JStr "1.0.0"); (JStr "1.0.0", JStr "1.1.0");
     (JStr "1.1.0", JStr "2.0.0")] /\
  chain eq [(JNull, JStr "1.0.0"); (JStr "1.0.0", JStr "1.1.0");
            (JStr "1.1.0", JStr "2.0.0")].
Proof.
  split; [reflexivity|].
  refine (proj2 (proj1 (previous_effective_chain pkg) (fun _ => history_repo)
                   ["code"; "app"] epoch epoch _ eq_refl) eq_refl).
Defined.

(** Why the chain is stated up to [==]: [True == 1], so the commit that
    turns the entry [1] into [true] gives no record, and the next record
    starts from [true] where the record before it had reached [1]. *)
Example chain_up_to_python_equality :
  match for_each (Multi.track_commit pkg odd_values_repo "app")
          ["c1"; "c2"; "c3"] ([], no_versions) with
  | Ok st => map multi_transition (fst st)
  | Raise _ => []
  end
  = [(JNull, JNum 1); (JBool true, JStr "x")].
Proof. reflexivity. Qed.

(** ** The metrics aggregator *)

Lemma append_entries_nil (acc : Adoption.lists) : append_entries acc [] = acc.
Proof.
  destruct acc. unfold append_entries. cbn. now rewrite !app_nil_r.
Qed.

Lemma append_entries_app (acc : Adoption.lists) (es fs : list version_info) :
  append_entries (append_entries acc es) fs = append_entries acc (es ++ fs).
Proof.
  unfold append_entries. cbn.
  now rewrite map_app, !flat_map_app, !app_assoc.
Qed.

Lemma previous_adoption (pre rest : list adoption) (a : adoption) :
  (if (0 <? List.length pre)%nat
   then Some (nth (List.length pre - 1) (pre ++ rest) a)
   else None)
  = last (map Some pre) None.
Proof.
  induction pre as [|x pre IH]; [reflexivity|].
  destruct pre as [|y pre]; [reflexivity|].
  cbn [List.length Nat.ltb Nat.leb map last] in *.
  rewrite <- IH.
  replace (S (S (List.length pre)) - 1)%nat with (S (List.length pre)) by lia.
  replace (S (List.length pre) - 1)%nat with (List.length pre) by lia.
  reflexivity.
Qed.

Lemma metrics_step_entry (releases : list (string * release))
    (adoptions : list adoption) (acc : Adoption.lists) (i : nat)
    (a : adoption) :
  Adoption.metrics_step releases adoptions acc i a
  = append_entries acc
      (version_entry releases
         (if (0 <? i)%nat then Some (nth (i - 1) adoptions a) else None) a).
Proof.
  unfold Adoption.metrics_step, version_entry.
  destruct (lookup (adopted_version a) releases) as [rel|].
  - unfold append_entries. now destruct (0 <? i)%nat.
  - now rewrite append_entries_nil.
Qed.

Lemma metrics_loop_entries (releases : list (string * release))
    (rest : list adoption) :
  forall pre acc,
    Adoption.metrics_loop releases (pre ++ rest) (List.length pre) rest acc
    = append_entries acc
        (flat_map (fun p => version_entry releases (fst p) (snd p))
           (combine (last (map Some pre) None :: map Some rest) rest)).
Proof.
  induction rest as [|a rest IH]; intros pre acc.
  - cbn. now rewrite append_entries_nil.
  - cbn [Adoption.metrics_loop].
    replace (pre ++ a :: rest) with ((pre ++ [a]) ++ rest)
      by now rewrite <- app_assoc.
    replace (S (List.length pre)) with (List.length (pre ++ [a]))
      by (rewrite length_app; cbn; lia).
    rewrite IH. rewrite metrics_step_entry.
    rewrite <- app_assoc. cbn [app].
    rewrite previous_adoption, append_entries_app.
    rewrite map_app. cbn [map]. rewrite last_last.
    reflexivity.
Qed.

(** The lists of [calculate_adoption_metrics] in closed form. *)
Lemma repo_metrics_lists (releases : list (string * release))
    (adoptions : list adoption) :
  let m := Adoption.repo_metrics_of releases adoptions in
  let es := version_entries releases adoptions in
  metric_versions m = es /\
  adoption_lags m = map lag_days es /\
  skip_counts m = flat_map (fun e => some_list (versions_skipped e)) es /\
  update_intervals m
  = flat_map (fun e => some_list (days_since_last_update e)) es.
Proof.
  cbn zeta. unfold Adoption.repo_metrics_of.
  pose proof (metrics_loop_entries releases adoptions []
                (Adoption.mkLists [] [] [] [])) as H.
  cbn [app List.length map last] in H. rewrite H.
  unfold append_entries, version_entries, with_previous. cbn.
  repeat split.
Qed.

Lemma lags_of_entries (releases : list (string * release))
    (ps : list (option adoption * adoption)) :
  map lag_days (flat_map (fun p => version_entry releases (fst p) (snd p)) ps)
  = flat_map (fun p => some_list (lag_of releases (snd p))) ps.
Proof.
  induction ps as [|[prev cur] ps IH]; [reflexivity|].
  cbn [flat_map fst snd]. rewrite map_app, IH. f_equal.
  unfold version_entry, lag_of.
  now destruct (lookup (adopted_version cur) releases).
Qed.

Lemma flat_map_snd_combine {A B C : Type} (f : B -> list C) (ys : list B) :
  forall xs : list A,
    (List.length ys <= List.length xs)%nat ->
    flat_map (fun p => f (snd p)) (combine xs ys) = flat_map f ys.
Proof.
  induction ys as [|y ys IH]; intros [|x xs]; cbn; try lia; auto.
  intros H. rewrite IH; [reflexivity|lia].
Qed.

(** The lags that enter the statistics: those of the adoptions whose
    version is a release, in order. *)
Lemma adoption_lags_defined (releases : list (string * release))
    (adoptions : list adoption) :
  adoption_lags (Adoption.repo_metrics_of releases adoptions)
  = flat_map (fun a => some_list (lag_of releases a)) adoptions.
Proof.
  destruct (repo_metrics_lists releases adoptions) as [_ [-> _]].
  unfold version_entries. rewrite lags_of_entries.
  unfold with_previous.
  apply (flat_map_snd_combine (fun a => some_list (lag_of releases a))).
  cbn. rewrite length_map. lia.
Qed.

Lemma lags_without_unknown (releases : list (string * release))
    (adoptions : list adoption) :
  flat_map (fun a => some_list (lag_of releases a))
    (filter (known releases) adoptions)
  = flat_map (fun a => some_list (lag_of releases a)) adoptions.
Proof.
  induction adoptions as [|a adoptions IH]; [reflexivity|].
  cbn [filter flat_map].
  assert (E : known releases a = false -> lag_of releases a = None).
  { unfold lag_of, known, has_key.
    now destruct (lookup (adopted_version a) releases). }
  destruct (known releases a).
  - cbn [flat_map]. now rewrite IH.
  - rewrite (E eq_refl). exact IH.
Qed.

(** C3.  The lag of an adoption is defined exactly when its version is a
    key of the release table, and is then the number of whole days from
    the release date to the adoption date; the dashboard document gives
    the lag of an unknown version as absent; the lags from which the
    mean, median, minimum and maximum are computed are those of the
    adoptions with a known version only, so the four statistics are the
    ones obtained without the adoptions of an unknown version. *)
Theorem lag_defined_iff_known_release (releases : list (string * release)) :
  (forall a,
     dash_lag_days (Adoption.dashboard_entry releases a) = lag_of releases a /\
     (lag_of releases a <> None <-> known releases a = true) /\
     (forall rel, lookup (adopted_version a) releases = Some rel ->
        lag_of releases a
        = Some (days_between (adoption_date a) (release_date rel)))) /\
  (forall adoptions,
     let m := Adoption.repo_metrics_of releases adoptions in
     let m' := Adoption.repo_metrics_of releases
                 (filter (known releases) adoptions) in
     adoption_lags m
     = flat_map (fun a => some_list (lag_of releases a)) adoptions /\
     map lag_days (metric_versions m) = adoption_lags m /\
     avg_lag_days m = if_any mean (adoption_lags m) /\
     median_lag_days m = if_any median (adoption_lags m) /\
     min_lag_days m = if_any min_list (adoption_lags m) /\
     max_lag_days m = if_any max_list (adoption_lags m) /\
     adoption_lags m' = adoption_lags m /\
     avg_lag_days m' = avg_lag_days m /\
     median_lag_days m' = median_lag_days m /\
     min_lag_days m' = min_lag_days m /\
     max_lag_days m' = max_lag_days m).
Proof.
  split.
  - intros a. split; [reflexivity|]. split.
    + unfold lag_of, known, has_key.
      destruct (lookup (adopted_version a) releases); split;
        congruence.
    + intros rel H. unfold lag_of. now rewrite H.
  - intros adoptions m m'.
    assert (L : adoption_lags m' = adoption_lags m).
    { subst m m'. rewrite !adoption_lags_defined.
      apply lags_without_unknown. }
    split; [apply adoption_lags_defined|].
    split.
    { pose proof (repo_metrics_lists releases adoptions) as H.
      cbn zeta in H. destruct H as [E1 [E2 _]]. subst m.
      now rewrite E1, E2. }
    repeat (split; [reflexivity|]).
    split; [exact L|].
    change (avg_lag_days m') with (if_any mean (adoption_lags m')).
    change (median_lag_days m') with (if_any median (adoption_lags m')).
    change (min_lag_days m') with (if_any min_list (adoption_lags m')).
    change (max_lag_days m') with (if_any max_list (adoption_lags m')).
    rewrite L. repeat split.
Qed.

Lemma lag_defined_iff_known_release_witness :
  lag_of release_4_2_0 adoption_4_2_0 = Some 14%Z /\
  lag_of release_4_2_0 adoption_unreleased = None /\
  adoption_lags (Adoption.repo_metrics_of release_4_2_0
                   [adoption_4_2_0; adoption_unreleased]) = [14%Z].
Proof.
  split; [|split].
  - exact (proj2 (proj2 (proj1 (lag_defined_iff_known_release release_4_2_0)
                           adoption_4_2_0))
             (mkRelease (midnight 2024 1 1) "4.2.0") eq_refl).
  - reflexivity.
  - reflexivity.
Defined.

(** Repository A adopts ["1.0.0"] on its release day and ["2.0.0"] ten
    days after its release; repository B adopts ["2.0.0"] five days after
    its release: both average a lag of five days. *)
Example average_lag_of_two_repositories :
  let metrics :=
    Adoption.calculate_adoption_metrics two_releases
      [("A", adoptions_a); ("B", adoptions_b)] in
  map fst metrics = ["A"; "B"] /\
  map (fun m => adoption_lags (snd m)) metrics = [[0; 10]; [5]]%Z /\
  map (fun m => avg_lag_days (snd m)) metrics
  = [Some (Qmake 10 2); Some (Qmake 5 1)] /\
  Qeq (Qmake 10 2) 5 /\
  map (fun m => skip_counts (snd m)) metrics = [[0]; []]%Z.
Proof. repeat split; reflexivity. Qed.

(** ** Dicts *)

Lemma lookup_dict_set {A : Type} (k k' : string) (v : A)
    (d : list (string * A)) :
  lookup k (dict_set k' v d) = if k' =? k then Some v else lookup k d.
Proof.
  induction d as [|[k0 v0] d IH]; cbn.
  - reflexivity.
  - destruct (String.eqb_spec k0 k') as [->|N]; cbn.
    + now destruct (k' =? k).
    + rewrite IH. destruct (String.eqb_spec k0 k) as [->|N'];
        [|reflexivity].
      destruct (String.eqb_spec k' k) as [->|_]; [contradiction|reflexivity].
Qed.

Lemma has_key_In {A : Type} (k : string) (d : list (string * A)) :
  has_key k d = true <-> In k (map fst d).
Proof.
  unfold has_key. induction d as [|[k0 v0] d IH]; cbn.
  - split; [discriminate|tauto].
  - destruct (String.eqb_spec k0 k) as [->|N].
    + split; auto.
    + rewrite IH. split; [auto|]. intros [E|H]; [contradiction|exact H].
Qed.

(** ** Sorting and positions *)

Section SortedFacts.

Context {A K : Type}.
Variable lt : K -> K -> bool.
Variable key : A -> K.

Lemma insert_sorted_perm (x : A) (l : list A) :
  Permutation (insert_sorted lt key x l) (x :: l).
Proof.
  induction l as [|y l IH]; cbn; [reflexivity|].
  destruct (lt (key y) (key x)); [|reflexivity].
  rewrite IH. apply perm_swap.
Qed.

(** Sorting rearranges. *)
Lemma sorted_perm (l : list A) : Permutation (sorted lt key l) l.
Proof.
  induction l as [|x l IH]; cbn; [reflexivity|].
  rewrite insert_sorted_perm. now constructor.
Qed.

Lemma sorted_In (x : A) (l : list A) : In x (sorted lt key l) <-> In x l.
Proof.
  split; apply Permutation_in;
    [apply sorted_perm|symmetry; apply sorted_perm].
Qed.

End SortedFacts.

Lemma index_of_In (x : string) (l : list string) :
  In x l -> exists i, index_of x l = Some i.
Proof.
  induction l as [|y l IH]; cbn; [tauto|].
  destruct (String.eqb_spec y x) as [->|N]; [eauto|].
  intros [E|H]; [contradiction|].
  destruct (IH H) as [i ->]. cbn. eauto.
Qed.

Lemma index_of_not_In (x : string) (l : list string) :
  ~ In x l -> index_of x l = None.
Proof.
  induction l as [|y l IH]; cbn; [reflexivity|].
  destruct (String.eqb_spec y x) as [->|N]; [tauto|].
  intros H. rewrite IH; [reflexivity|tauto].
Qed.

Lemma before_length (x : string) (l : list string) (i : nat) :
  index_of x l = Some i -> List.length (before x l) = i.
Proof.
  revert i; induction l as [|y l IH]; intros i; cbn; [discriminate|].
  destruct (y =? x); [now intros [= <-]|].
  destruct (index_of x l) as [j|]; cbn; [|discriminate].
  intros [= <-]. cbn. now rewrite (IH j).
Qed.

(** The number of elements strictly between two different elements is the
    distance of their positions minus one. *)
Lemma strictly_between_length (x y : string) (l : list string) :
  x <> y ->
  forall i j,
    index_of x l = Some i -> index_of y l = Some j ->
    Z.of_nat (List.length (strictly_between x y l))
    = (Z.abs (Z.of_nat j - Z.of_nat i) - 1)%Z.
Proof.
  intros N. induction l as [|z l IH]; intros i j; cbn; [discriminate|].
  destruct (String.eqb_spec z x) as [->|Nx].
  - intros [= <-].
    destruct (String.eqb_spec x y) as [E|_]; [contradiction|].
    destruct (index_of y l) as [j'|] eqn:E; cbn; [|discriminate].
    intros [= <-]. rewrite (before_length _ _ _ E). lia.
  - destruct (String.eqb_spec z y) as [->|Ny].
    + destruct (index_of x l) as [i'|] eqn:E; cbn; [|discriminate].
      intros [= <-] [= <-]. rewrite (before_length _ _ _ E). lia.
    + destruct (index_of x l) as [i'|]; cbn; [|discriminate].
      destruct (index_of y l) as [j'|]; cbn; [|discriminate].
      intros [= <-] [= <-]. rewrite (IH i' j' eq_refl eq_refl). lia.
Qed.

(** ** The order of version keys *)

Lemma tuple_lt_irrefl (a : list Z) : tuple_lt a a = false.
Proof.
  induction a as [|x a IH]; cbn; [reflexivity|].
  rewrite IH, Z.ltb_irrefl. now rewrite andb_false_r.
Qed.

Lemma tuple_lt_trans (a : list Z) :
  forall b c, tuple_lt a b = true -> tuple_lt b c = true ->
              tuple_lt a c = true.
Proof.
  induction a as [|x a IH]; intros [|y b] [|z c]; cbn; try discriminate; auto.
  intros H1 H2.
  apply orb_true_iff in H1 as [H1|[E1 H1]%andb_prop];
    apply orb_true_iff in H2 as [H2|[E2 H2]%andb_prop];
    apply orb_true_iff.
  - left. apply Z.ltb_lt in H1, H2. apply Z.ltb_lt. lia.
  - left. apply Z.ltb_lt in H1. apply Z.eqb_eq in E2. apply Z.ltb_lt. lia.
  - left. apply Z.ltb_lt in H2. apply Z.eqb_eq in E1. apply Z.ltb_lt. lia.
  - right. apply Z.eqb_eq in E1, E2. subst.
    rewrite Z.eqb_refl. cbn. eapply IH; eassumption.
Qed.

Lemma tuple_lt_total (a : list Z) :
  forall b, tuple_lt a b = false -> tuple_lt b a = false -> a = b.
Proof.
  induction a as [|x a IH]; intros [|y b]; cbn; try discriminate; auto.
  intros H1 H2.
  apply orb_false_elim in H1 as [L1 R1]. apply orb_false_elim in H2 as [L2 R2].
  apply Z.ltb_ge in L1, L2. assert (x = y) by lia. subst y.
  rewrite Z.eqb_refl in R1, R2. cbn in R1, R2.
  f_equal. apply IH; assumption.
Qed.

Section RankFacts.

Context {K : Type}.
Variable lt : K -> K -> bool.
Variable key : string -> K.
Hypothesis lt_irrefl : forall a, lt a a = false.
Hypothesis lt_trans :
  forall a b c, lt a b = true -> lt b c = true -> lt a c = true.
Hypothesis lt_total : forall a b, lt a b = false -> lt b a = false -> a = b.

Lemma lt_asym (a b : K) : lt a b = true -> lt b a = false.
Proof.
  intros H. destruct (lt b a) eqn:E; [|reflexivity].
  rewrite <- (lt_irrefl a). symmetry. eapply lt_trans; eassumption.
Qed.

Lemma lt_neg_trans (a b c : K) :
  lt b a = false -> lt c b = false -> lt c a = false.
Proof.
  intros H1 H2. destruct (lt c a) eqn:E; [|reflexivity].
  destruct (lt a b) eqn:E'.
  - rewrite <- H2. symmetry. eapply lt_trans; eassumption.
  - rewrite (lt_total _ _ E' H1) in E. congruence.
Qed.

Lemma insert_sorted_ordered (x : string) (l : list string) :
  StronglySorted (fun a b => lt (key b) (key a) = false) l ->
  StronglySorted (fun a b => lt (key b) (key a) = false)
    (insert_sorted lt key x l).
Proof.
  induction 1 as [|y l S IH F]; cbn; [repeat constructor|].
  destruct (lt (key y) (key x)) eqn:E.
  - constructor; [exact IH|].
    eapply Permutation_Forall;
      [symmetry; apply insert_sorted_perm|].
    constructor; [now apply lt_asym|exact F].
  - constructor; [now constructor|].
    constructor; [exact E|].
    eapply Forall_impl; [|exact F]. cbn. intros z Hz.
    eapply lt_neg_trans; eassumption.
Qed.

(** The sort puts the keys in non-decreasing order. *)
Lemma sorted_ordered (l : list string) :
  StronglySorted (fun a b => lt (key b) (key a) = false) (sorted lt key l).
Proof.
  induction l as [|x l IH]; cbn; [constructor|].
  now apply insert_sorted_ordered.
Qed.

Lemma ordered_strictly (l : list string) :
  StronglySorted (fun a b => lt (key b) (key a) = false) l ->
  NoDup (map key l) ->
  StronglySorted (fun a b => lt (key a) (key b) = true) l.
Proof.
  induction 1 as [|y l S IH F]; cbn; intros N; [constructor|].
  apply NoDup_cons_iff in N as [Nin N].
  constructor; [now apply IH|].
  rewrite Forall_forall in F |- *. intros z Hz.
  destruct (lt (key y) (key z)) eqn:E; [reflexivity|].
  exfalso. apply Nin. rewrite (lt_total _ _ E (F z Hz)).
  now apply in_map.
Qed.

Lemma filter_none {A : Type} (f : A -> bool) (l : list A) :
  (forall x, In x l -> f x = false) -> filter f l = [].
Proof.
  induction l as [|y l IH]; cbn; [reflexivity|]. intros H.
  rewrite (H y (or_introl eq_refl)). apply IH. intros x Hx. apply H. now right.
Qed.

(** In a strictly ordered list the position of an element is the number
    of elements with a smaller key. *)
Lemma index_is_rank (x : string) (l : list string) :
  StronglySorted (fun a b => lt (key a) (key b) = true) l ->
  In x l ->
  index_of x l
  = Some (List.length (filter (fun y => lt (key y) (key x)) l)).
Proof.
  induction 1 as [|y l S IH F]; cbn; [tauto|].
  rewrite Forall_forall in F.
  destruct (String.eqb_spec y x) as [->|N].
  - intros _. rewrite lt_irrefl, filter_none; [reflexivity|].
    intros z Hz. apply lt_asym. now apply F.
  - intros [E|Hin]; [contradiction|].
    rewrite (IH Hin), (F x Hin). reflexivity.
Qed.

Lemma filter_length_perm {A : Type} (f : A -> bool) (l l' : list A) :
  Permutation l l' -> List.length (filter f l) = List.length (filter f l').
Proof.
  induction 1 as [|x l l' _ IH|x y l|l l' l'' _ IH1 _ IH2]; cbn.
  - reflexivity.
  - destruct (f x); cbn; now rewrite IH.
  - now destruct (f x), (f y).
  - now rewrite IH1.
Qed.

(** The elements below [hi] are those below [lo], those at [lo] and those
    strictly between. *)
Lemma rank_split (lo hi : string) (l : list string) :
  lt (key lo) (key hi) = true ->
  List.length (filter (fun y => lt (key y) (key hi)) l)
  = (List.length (filter (fun y => lt (key y) (key lo)) l)
     + List.length (filter (fun y => negb (lt (key y) (key lo))
                                     && negb (lt (key lo) (key y))) l)
     + List.length (filter (fun y => lt (key lo) (key y)
                                     && lt (key y) (key hi)) l))%nat.
Proof.
  intros Hlt. induction l as [|y l IH]; [reflexivity|].
  cbn [filter].
  destruct (lt (key y) (key lo)) eqn:E1.
  - rewrite (lt_trans _ _ _ E1 Hlt), (lt_asym _ _ E1). cbn. lia.
  - destruct (lt (key lo) (key y)) eqn:E2.
    + destruct (lt (key y) (key hi)); cbn; lia.
    + rewrite (lt_total _ _ E1 E2), Hlt. cbn. lia.
Qed.

(** With pairwise different keys exactly one element is at the key of an
    element of the list. *)
Lemma one_at_key (x : string) (l : list string) :
  NoDup (map key l) -> In x l ->
  List.length (filter (fun y => negb (lt (key y) (key x))
                                && negb (lt (key x) (key y))) l) = 1%nat.
Proof.
  induction l as [|y l IH]; [intros _ []|].
  cbn [map filter]. intros [Nin N]%NoDup_cons_iff [->|Hin].
  - rewrite lt_irrefl. cbn [negb andb List.length]. f_equal.
    rewrite filter_none; [reflexivity|].
    intros z Hz.
    destruct (lt (key z) (key x)) eqn:E1; [reflexivity|].
    destruct (lt (key x) (key z)) eqn:E2; [reflexivity|].
    exfalso. apply Nin. rewrite (lt_total _ _ E2 E1). now apply in_map.
  - destruct (lt (key y) (key x)) eqn:E1; cbn [negb andb]; [now apply IH|].
    destruct (lt (key x) (key y)) eqn:E2; cbn [negb andb]; [now apply IH|].
    exfalso. apply Nin. rewrite (lt_total _ _ E1 E2). now apply in_map.
Qed.

End RankFacts.

(** ** Skipped releases *)

Section SkipFacts.

Variable releases : list (string * release).

Lemma known_index (v : string) :
  has_key v releases = true ->
  exists i, index_of v (Adoption.all_versions releases) = Some i.
Proof.
  intros H. apply index_of_In, sorted_In. now apply has_key_In.
Qed.

Lemma unknown_index (v : string) :
  has_key v releases = false ->
  index_of v (Adoption.all_versions releases) = None.
Proof.
  intros H. apply index_of_not_In. intros HIn.
  apply sorted_In, has_key_In in HIn. congruence.
Qed.

Lemma count_unknown (v1 v2 : string) :
  has_key v1 releases = false \/ has_key v2 releases = false ->
  Adoption.count_versions_between releases v1 v2 = 0%Z.
Proof.
  unfold Adoption.count_versions_between.
  intros [H|H]; rewrite (unknown_index _ H); [reflexivity|].
  now destruct (index_of v1 (Adoption.all_versions releases)).
Qed.

Lemma count_same (v : string) :
  has_key v releases = true ->
  Adoption.count_versions_between releases v v = (-1)%Z.
Proof.
  intros H. destruct (known_index v H) as [i E].
  unfold Adoption.count_versions_between.
  rewrite E. lia.
Qed.

Lemma count_symmetric (v1 v2 : string) :
  Adoption.count_versions_between releases v1 v2
  = Adoption.count_versions_between releases v2 v1.
Proof.
  unfold Adoption.count_versions_between.
  destruct (index_of v1 (Adoption.all_versions releases)),
           (index_of v2 (Adoption.all_versions releases));
    try reflexivity.
  lia.
Qed.

Lemma count_between (v1 v2 : string) :
  has_key v1 releases = true -> has_key v2 releases = true -> v1 <> v2 ->
  Adoption.count_versions_between releases v1 v2
  = Z.of_nat
      (List.length (strictly_between v1 v2 (Adoption.all_versions releases))).
Proof.
  intros H1 H2 N.
  destruct (known_index v1 H1) as [i E1], (known_index v2 H2) as [j E2].
  rewrite (strictly_between_length v1 v2 _ N i j E1 E2).
  unfold Adoption.count_versions_between.
  now rewrite E1, E2.
Qed.

(** With pairwise different numeric keys, the count is the number of
    releases whose key lies strictly between the two keys. *)
Lemma count_by_keys (v1 v2 : string) :
  NoDup (map Adoption.parse_version (map fst releases)) ->
  has_key v1 releases = true -> has_key v2 releases = true ->
  tuple_lt (Adoption.parse_version v1) (Adoption.parse_version v2) = true ->
  Adoption.count_versions_between releases v1 v2
  = Z.of_nat
      (List.length
         (keys_between (Adoption.parse_version v1) (Adoption.parse_version v2)
            (map fst releases))).
Proof.
  intros N H1 H2 Hlt.
  pose proof (sorted_perm tuple_lt Adoption.parse_version (map fst releases))
    as P.
  fold (Adoption.all_versions releases) in P.
  assert (N' : NoDup (map Adoption.parse_version
                        (Adoption.all_versions releases))).
  { eapply Permutation_NoDup; [|exact N].
    symmetry. now apply Permutation_map. }
  assert (S : StronglySorted
                (fun a b => tuple_lt (Adoption.parse_version a)
                              (Adoption.parse_version b) = true)
                (Adoption.all_versions releases)).
  { apply (ordered_strictly tuple_lt Adoption.parse_version tuple_lt_total);
      [|exact N'].
    apply sorted_ordered;
      [exact tuple_lt_irrefl|exact tuple_lt_trans|exact tuple_lt_total]. }
  assert (I1 : In v1 (Adoption.all_versions releases))
    by now apply sorted_In, has_key_In.
  assert (I2 : In v2 (Adoption.all_versions releases))
    by now apply sorted_In, has_key_In.
  unfold Adoption.count_versions_between.
  rewrite (index_is_rank tuple_lt Adoption.parse_version tuple_lt_irrefl
             tuple_lt_trans v1 _ S I1).
  rewrite (index_is_rank tuple_lt Adoption.parse_version tuple_lt_irrefl
             tuple_lt_trans v2 _ S I2).
  rewrite (rank_split tuple_lt Adoption.parse_version tuple_lt_irrefl
             tuple_lt_trans tuple_lt_total v1 v2 _ Hlt).
  rewrite (one_at_key tuple_lt Adoption.parse_version tuple_lt_irrefl
             tuple_lt_total v1 _ N' I1).
  unfold keys_between.
  repeat rewrite (filter_length_perm _ _ _ P). lia.
Qed.

End SkipFacts.

(** C2 (as amended).  The entries and the skip counts a repository gets
    are those of its adoptions with a known version, each taken with the
    adoption before it.  For an adoption after the first whose version is
    a release, [versions_skipped] is [count_versions_between] of the
    previous and the current version and is added to the skip counts; an
    adoption whose version is not a release gets no entry at all, so no
    [versions_skipped].  [count_versions_between] is 0 when either version
    is not a release.  For two different releases it is the number of
    releases lying strictly between them in the list of all releases put
    in the order of their numeric keys, which is the distance of their
    positions minus one, the same in both directions; when no two releases
    have the same numeric key this is the number of releases whose key is
    strictly between the two keys. *)
Theorem versions_skipped_between (releases : list (string * release)) :
  let all_versions := Adoption.all_versions releases in
  (forall adoptions,
     let m := Adoption.repo_metrics_of releases adoptions in
     metric_versions m = version_entries releases adoptions /\
     skip_counts m
     = flat_map (fun e => some_list (versions_skipped e))
         (metric_versions m)) /\
  (forall prev cur,
     known releases cur = true ->
     exists e,
       version_entry releases (Some prev) cur = [e] /\
       versions_skipped e
       = Some (Adoption.count_versions_between releases
                 (adopted_version prev) (adopted_version cur))) /\
  (forall prev cur,
     known releases cur = false -> version_entry releases prev cur = []) /\
  (forall cur e,
     In e (version_entry releases None cur) -> versions_skipped e = None) /\
  (forall v1 v2,
     has_key v1 releases = false \/ has_key v2 releases = false ->
     Adoption.count_versions_between releases v1 v2 = 0%Z) /\
  (Permutation all_versions (map fst releases) /\
   StronglySorted
     (fun a b => tuple_lt (Adoption.parse_version b) (Adoption.parse_version a)
                 = false)
     all_versions) /\
  (forall v1 v2,
     has_key v1 releases = true -> has_key v2 releases = true -> v1 <> v2 ->
     Adoption.count_versions_between releases v1 v2
     = Z.of_nat (List.length (strictly_between v1 v2 all_versions)) /\
     Adoption.count_versions_between releases v1 v2
     = Adoption.count_versions_between releases v2 v1) /\
  (NoDup (map Adoption.parse_version (map fst releases)) ->
   forall v1 v2,
     has_key v1 releases = true -> has_key v2 releases = true ->
     tuple_lt (Adoption.parse_version v1) (Adoption.parse_version v2) = true ->
     Adoption.count_versions_between releases v1 v2
     = Z.of_nat
         (List.length
            (keys_between (Adoption.parse_version v1)
               (Adoption.parse_version v2) (map fst releases))) /\
     Adoption.count_versions_between releases v2 v1
     = Adoption.count_versions_between releases v1 v2).
Proof.
  intros all_versions.
  split; [|split; [|split; [|split; [|split; [|split; [|split]]]]]].
  - intros adoptions m.
    pose proof (repo_metrics_lists releases adoptions) as H.
    cbn zeta in H. destruct H as [E1 [_ [E3 _]]]. subst m.
    now rewrite E3, E1.
  - intros prev cur H. unfold known, has_key in H. unfold version_entry.
    destruct (lookup (adopted_version cur) releases); [|discriminate].
    eexists. split; reflexivity.
  - intros prev cur H. unfold known, has_key in H. unfold version_entry.
    now destruct (lookup (adopted_version cur) releases).
  - intros cur e. unfold version_entry.
    destruct (lookup (adopted_version cur) releases); cbn; [|tauto].
    now intros [<-|[]].
  - apply count_unknown.
  - split; [apply sorted_perm|].
    apply sorted_ordered;
      [exact tuple_lt_irrefl|exact tuple_lt_trans|exact tuple_lt_total].
  - intros v1 v2 H1 H2 N. split;
      [now apply count_between|apply count_symmetric].
  - intros N v1 v2 H1 H2 Hlt. split;
      [now apply count_by_keys|apply count_symmetric].
Qed.

Lemma versions_skipped_between_witness :
  Adoption.count_versions_between four_releases "1.0.0" "1.3.0" = 2%Z /\
  Adoption.count_versions_between four_releases "1.3.0" "1.0.0" = 2%Z /\
  keys_between [1; 0; 0]%Z [1; 3; 0]%Z (map fst four_releases)
  = ["1.2.0"; "1.1.0"].
Proof.
  assert (N : NoDup (map Adoption.parse_version (map fst four_releases))).
  { repeat constructor; cbn; intuition discriminate. }
  destruct (proj2 (proj2 (proj2 (proj2 (proj2 (proj2 (proj2
              (versions_skipped_between four_releases)))))))
              N "1.0.0" "1.3.0" eq_refl eq_refl eq_refl) as [E S].
  split; [rewrite E; reflexivity|].
  split; [rewrite S, E; reflexivity|reflexivity].
Defined.

(** C2 fails as stated: after an adoption of an unknown version nothing is
    recorded for the pair (no entry, no skip count of 0); and two
    adoptions of one release give -1, which counts no entries. *)
Lemma skipped_absent_or_negative :
  (let m := Adoption.repo_metrics_of release_4_2_0
              [adoption_4_2_0; adoption_unreleased] in
   map versions_skipped (metric_versions m) = [None] /\ skip_counts m = []) /\
  (let m := Adoption.repo_metrics_of one_release prefix_adoptions in
   map versions_skipped (metric_versions m) = [None; Some (-1)%Z] /\
   skip_counts m = [(-1)%Z]).
Proof. repeat split; reflexivity. Qed.

(** C10.  [count_versions_between] of a release and itself is -1.  A
    repository whose manifest goes from ["^1.0.0"] to ["1.0.0"] gets two
    adoption records with the version ["1.0.0"]; with ["1.0.0"] in the
    release table the second record has [versions_skipped] -1, which is
    the repository's only skip count and its average. *)
Theorem versions_skipped_can_be_negative :
  (forall releases v,
     has_key v releases = true ->
     Adoption.count_versions_between releases v v = (-1)%Z) /\
  Adoption.get_repo_adoptions pkg prefix_world ["code"; "app"] 36 []
  = Ok ([("app", prefix_adoptions)], prefix_adoptions) /\
  map adopted_version prefix_adoptions = ["1.0.0"; "1.0.0"] /\
  map raw_version prefix_adoptions = ["^1.0.0"; "1.0.0"] /\
  (let m := Adoption.repo_metrics_of one_release prefix_adoptions in
   map versions_skipped (metric_versions m) = [None; Some (-1)%Z] /\
   skip_counts m = [(-1)%Z] /\
   avg_versions_skipped m = Some (Qmake (-1) 1)).
Proof.
  split; [exact count_same|]. repeat split; reflexivity.
Qed.

Lemma versions_skipped_can_be_negative_witness :
  Adoption.count_versions_between one_release "1.0.0" "1.0.0" = (-1)%Z.
Proof.
  exact (proj1 versions_skipped_can_be_negative one_release "1.0.0" eq_refl).
Defined.

(** ** Stored and compared versions *)

Lemma lstrip_range_head (s : string) (c : ascii) (rest : string) :
  lstrip_range s = String c rest -> c <> "^"%char /\ c <> "~"%char.
Proof.
  induction s as [|d s IH]; cbn; [discriminate|].
  destruct (Ascii.eqb_spec d "^"%char) as [->|N1]; cbn; [exact IH|].
  destruct (Ascii.eqb_spec d "~"%char) as [->|N2]; cbn; [exact IH|].
  intros [= <- _]. now split.
Qed.

Lemma adopt_commit_stripped (name : string) (r : repo_state)
    (st : list adoption * json) (line : log_line)
    (st' : list adoption * json) :
  Adoption.adopt_commit name r st line = Ok st' ->
  Forall (fun a => adopted_version a = lstrip_range (raw_version a)) (fst st) ->
  Forall (fun a => adopted_version a = lstrip_range (raw_version a)) (fst st').
Proof.
  destruct st as [adoptions last]. unfold Adoption.adopt_commit.
  destruct line as [|h d]; [now intros [= <-]|].
  intros H F. apply bind_ok in H as [v [_ H]].
  destruct (truthy v && py_ne v last); [|now injection H as <-].
  destruct v; try discriminate. injection H as <-. cbn [fst].
  apply Forall_app. split; [exact F|]. now repeat constructor.
Qed.

Lemma load_releases_keys (data : list (string * datetime)) :
  forall releases,
    (forall k rel, lookup k releases = Some rel ->
                   k = lstrip_range (release_version rel)) ->
    forall k rel,
      lookup k (Adoption.load_releases data releases) = Some rel ->
      k = lstrip_range (release_version rel).
Proof.
  unfold Adoption.load_releases.
  induction data as [|[v d] data IH]; intros releases H; cbn; [exact H|].
  apply IH. intros k rel. rewrite lookup_dict_set.
  destruct (String.eqb_spec (lstrip_range v) k) as [<-|_]; [|apply H].
  now intros [= <-].
Qed.

(** C6 (as amended).  The adoption analyzer stores, in every adoption
    record, the manifest's version string without its leading ['^'] and
    ['~'] as the version and the string as written as the raw version;
    the release table is keyed by the release version without those
    leading characters and keeps the version as written in the entry.
    Whether a commit gives an adoption record is decided on the strings as
    written: a record is appended exactly when the string is not empty and
    differs from the one of the last record.  The trackers never strip:
    the values they resolve are the entries of the manifest as they
    stand, two strings are different versions as soon as they differ in
    one character, and at a resolved commit both trackers compare the
    resolved effective version with the previous one and store the
    resolved values in the record and in the snapshot. *)
Theorem versions_stored_stripped_compared_raw (name : string) :
  (forall w repo months d d' adoptions,
     Adoption.get_repo_adoptions name w repo months d = Ok (d', adoptions) ->
     Forall (fun a => adopted_version a = lstrip_range (raw_version a))
       adoptions) /\
  (forall s c rest,
     lstrip_range s = String c rest -> c <> "^"%char /\ c <> "~"%char) /\
  (forall data k rel,
     lookup k (Adoption.load_releases data []) = Some rel ->
     k = lstrip_range (release_version rel)) /\
  (forall r adoptions last commit_hash date_obj raw,
     Adoption.get_version_at_commit name r commit_hash = Ok (JStr raw) ->
     Adoption.adopt_commit name r (adoptions, last) (Line commit_hash date_obj)
     = Ok (if negb (raw =? "") && py_ne (JStr raw) last
           then (adoptions ++
                   [mkAdoption (lstrip_range raw) raw date_obj
                      (take 8 commit_hash)],
                 JStr raw)
           else (adoptions, last))) /\
  (forall a b, py_ne (JStr a) (JStr b) = negb (a =? b)) /\
  (forall m,
     well_shaped (JObj m) = true ->
     exists v,
       extract_component_versions name (JObj m) = Ok v /\
       (forall s, entry_of "dependencies" name m = JStr s -> s <> "" ->
                  dependency v = JStr s) /\
       override v = get_or_none name (overrides_of m) /\
       effective v = tracker_precedence name m) /\
  (forall r c doc v info,
     get_package_json_at_commit r c = Ok doc ->
     truthy doc = true ->
     extract_component_versions name doc = Ok v ->
     get_commit_info r c = Ok info ->
     (forall repo changes last,
        Multi.track_commit name r repo (changes, last) c
        = Ok (if py_ne (effective v) (effective last)
              then changes ++
                     [Multi.mkChange repo (take 8 (info_hash info))
                        (info_date info) (author_name info)
                        (take 80 (info_message info))
                        (dependency v) (override v) (transitive_overrides v)
                        (effective v) (effective last)]
              else changes,
              v)) /\
     (forall changes last,
        Single.track_commit name r (changes, last) c
        = Ok (if py_ne (effective v) (effective last)
              then changes ++
                     [Single.mkChange (take 8 (info_hash info))
                        (info_date info) (author_name info)
                        (take 80 (info_message info))
                        (dependency v) (override v)
                        (effective v) (effective last)
                        (Single.change_details v last)]
              else changes,
              v))).
Proof.
  split; [|split; [|split; [|split; [|split; [|split]]]]].
  - intros w repo months d d' adoptions.
    unfold Adoption.get_repo_adoptions, except_called_process_error.
    destruct (git_log_dated (w repo) months) as [commits|];
      cbn [subprocess_run bind]; [|intros [= _ <-]; constructor].
    destruct (for_each _ commits _) as [st|e] eqn:E; cbn [bind].
    + intros [= _ <-].
      apply (for_each_invariant _
               (fun s => Forall (fun a => adopted_version a
                                          = lstrip_range (raw_version a))
                           (fst s))
               (adopt_commit_stripped name (w repo)) _ _ _ E).
      constructor.
    + destruct e; try discriminate. intros [= _ <-]. constructor.
  - exact lstrip_range_head.
  - intros data. apply load_releases_keys. discriminate.
  - intros r adoptions last h d raw H. unfold Adoption.adopt_commit.
    rewrite H. cbn [bind truthy].
    now destruct (negb (raw =? "") && py_ne (JStr raw) last).
  - reflexivity.
  - intros m W. eexists. split; [now apply extract_well_shaped|].
    cbn [dependency override]. split; [|split; [reflexivity|]].
    + intros s Hs Ns. unfold dependency_of. rewrite Hs. cbn [truthy].
      destruct (String.eqb_spec s ""); [contradiction|reflexivity].
    + apply effective_well_shaped.
  - intros r c doc v info G T E I. split.
    + intros repo changes last. unfold Multi.track_commit.
      rewrite G. cbn [bind]. rewrite T, E. cbn [negb bind].
      rewrite emit_iff_effective_differs.
      destruct (py_ne (effective v) (effective last)); [|reflexivity].
      now rewrite I.
    + intros changes last. unfold Single.track_commit.
      rewrite G. cbn [bind]. rewrite T, E, I. cbn [negb bind].
      now rewrite emit_iff_effective_differs.
Qed.

Lemma versions_stored_stripped_compared_raw_witness :
  Forall (fun a => adopted_version a = lstrip_range (raw_version a))
    prefix_adoptions /\
  lookup "1.0.0" (Adoption.load_releases [("^1.0.0", midnight 2024 1 1)] [])
  = Some (mkRelease (midnight 2024 1 1) "^1.0.0") /\
  Single.track_commit pkg prefix_repo
    ([], mkVersions (JStr "^1.0.0") JNull []) "c2"
  = Ok ([Single.mkChange "c2012345" "2024-01-01 10:00:00 +0000" "dev"
           "bump components" (JStr "1.0.0") JNull (JStr "1.0.0")
           (JStr "^1.0.0")
           [Single.DependencyDetail (JStr "^1.0.0") (JStr "1.0.0")]],
        mkVersions (JStr "1.0.0") JNull []).
Proof.
  split; [|split].
  - exact (proj1 (versions_stored_stripped_compared_raw pkg)
             prefix_world ["code"; "app"] 36%Z [] _ _ eq_refl).
  - reflexivity.
  - exact (proj2 (proj2 (proj2 (proj2 (proj2 (proj2 (proj2
             (versions_stored_stripped_compared_raw pkg))))))
             prefix_repo "c2" (manifest_of "1.0.0" None)
             (mkVersions (JStr "1.0.0") JNull [])
             (mkCommitInfo "c20123456789abcdef" "2024-01-01 10:00:00 +0000"
                "dev" "dev@example.org" "bump components")
             eq_refl eq_refl eq_refl eq_refl)
             [] (mkVersions (JStr "^1.0.0") JNull [])).
Defined.

(** C6 fails as stated: a manifest that goes from ["^1.0.0"] to ["1.0.0"]
    gives a second adoption record with the same stored version, and a
    second change record in both trackers, which store the strings as
    written. *)
Lemma prefix_only_edit_is_recorded :
  Adoption.get_repo_adoptions pkg prefix_world ["code"; "app"] 36 []
  = Ok ([("app", prefix_adoptions)], prefix_adoptions) /\
  map adopted_version prefix_adoptions = ["1.0.0"; "1.0.0"] /\
  (exists res,
      Multi.track_repo_version_changes pkg prefix_world ["code"; "app"]
        epoch epoch = Ok res /\
      map multi_transition (Multi.changes res)
      = [(JNull, JStr "^1.0.0"); (JStr "^1.0.0", JStr "1.0.0")]) /\
  (exists records,
      Single.track_version_changes pkg prefix_repo None None = Ok records /\
      map single_transition records
      = [(JNull, JStr "^1.0.0"); (JStr "^1.0.0", JStr "1.0.0")]).
Proof.
  split; [reflexivity|]. split; [reflexivity|].
  split; eexists; split; reflexivity.
Qed.

(** ** The orchestrator *)

Lemma merge_result_ok (name : string) (w : world)
    (since_date until_date : datetime)
    (d d' : list (string * Multi.repo_result)) (repo : Path) :
  Multi.merge_result name w since_date until_date d repo = Ok d' ->
  exists res,
    Multi.track_repo_version_changes name w repo since_date until_date
    = Ok res /\
    d' = dict_set (path_name repo) res d.
Proof.
  unfold Multi.merge_result. intros H.
  apply bind_ok in H as [res [T [= <-]]].
  exists res. split; [exact T|].
  now rewrite (proj1 (track_repo_result _ _ _ _ _ _ T)).
Qed.

(** After the merge loop every repository of a list without two equal
    names has its own result under its name, and the other keys are as
    they were. *)
Lemma merge_loop_entries (name : string) (w : world)
    (since_date until_date : datetime) (repos : list Path) :
  forall d d',
    for_each (Multi.merge_result name w since_date until_date) repos d
    = Ok d' ->
    NoDup (map path_name repos) ->
    (forall repo, In repo repos ->
       exists res,
         Multi.track_repo_version_changes name w repo since_date until_date
         = Ok res /\
         lookup (path_name repo) d' = Some res) /\
    (forall key, ~ In key (map path_name repos) ->
       lookup key d' = lookup key d).
Proof.
  induction repos as [|repo repos IH]; intros d d'; cbn [for_each].
  - intros [= <-] _. split; [intros ? []|reflexivity].
  - intros H N. apply bind_ok in H as [d1 [M H]].
    apply merge_result_ok in M as [res [T ->]].
    apply NoDup_cons_iff in N as [Nin N].
    destruct (IH _ _ H N) as [In1 Out1]. split.
    + intros repo' [<-|Hin]; [|now apply In1].
      exists res. split; [exact T|].
      rewrite (Out1 _ Nin), lookup_dict_set. now rewrite String.eqb_refl.
    + intros key Hk. cbn in Hk.
      rewrite Out1 by tauto. rewrite lookup_dict_set.
      destruct (String.eqb_spec (path_name repo) key); [tauto|reflexivity].
Qed.

(** The merge loop returns exactly when every call returns. *)
Lemma merge_loop_returns (name : string) (w : world)
    (since_date until_date : datetime) (repos : list Path) :
  forall d,
    returns (for_each (Multi.merge_result name w since_date until_date)
               repos d)
    <-> forall repo, In repo repos ->
          returns (Multi.track_repo_version_changes name w repo
                     since_date until_date).
Proof.
  induction repos as [|repo repos IH]; intros d; cbn [for_each].
  - split; [intros _ ? []|intros _; now eexists].
  - unfold Multi.merge_result at 1.
    destruct (Multi.track_repo_version_changes name w repo since_date
                until_date) as [res|e] eqn:T; cbn [bind].
    + rewrite IH. split.
      * intros H repo' [<-|Hin]; [rewrite T; now eexists|now apply H].
      * intros H repo' Hin. apply H. now right.
    + split.
      * intros [? H]. discriminate.
      * intros H. destruct (H repo (or_introl eq_refl)) as [? H'].
        rewrite T in H'. discriminate.
Qed.

(** C7 (as amended).  For repositories no two of which have the same
    directory name, and for every order in which the workers finish, the
    concurrent run returns exactly when the sequential run does, and the
    two result mappings hold the same value under every key: for each
    repository the result of its own walk, under its name.  At most
    min(4, number of repositories) workers are used. *)
Theorem parallel_equals_sequential (name : string) (w : world)
    (repos as_completed : list Path) (since_date until_date : datetime)
    (repo_results : list (string * Multi.repo_result)) :
  NoDup (map path_name repos) ->
  Permutation repos as_completed ->
  let sequential :=
    Multi.process_repositories name w repos since_date until_date false
      as_completed repo_results in
  let concurrent :=
    Multi.process_repositories name w repos since_date until_date true
      as_completed repo_results in
  Multi.max_workers repos = Nat.min 4 (List.length repos) /\
  (returns sequential <-> returns concurrent) /\
  (forall ds dc,
     sequential = Ok ds -> concurrent = Ok dc ->
     (forall key, lookup key ds = lookup key dc) /\
     (forall repo, In repo repos ->
        exists res,
          Multi.track_repo_version_changes name w repo since_date until_date
          = Ok res /\
          lookup (path_name repo) ds = Some res /\
          lookup (path_name repo) dc = Some res)).
Proof.
  intros N P sequential concurrent.
  assert (N' : NoDup (map path_name as_completed)).
  { eapply Permutation_NoDup; [|exact N]. now apply Permutation_map. }
  split; [reflexivity|].
  subst sequential concurrent. unfold Multi.process_repositories.
  cbn [andb].
  destruct (1 <? List.length repos)%nat.
  - split.
    + rewrite !merge_loop_returns. split; intros H repo Hin; apply H.
      * eapply Permutation_in; [symmetry; exact P|exact Hin].
      * eapply Permutation_in; [exact P|exact Hin].
    + intros ds dc Hs Hc.
      destruct (merge_loop_entries _ _ _ _ _ _ _ Hs N) as [Ins Outs].
      destruct (merge_loop_entries _ _ _ _ _ _ _ Hc N') as [Inc Outc].
      assert (Both : forall repo, In repo repos ->
                exists res,
                  Multi.track_repo_version_changes name w repo since_date
                    until_date = Ok res /\
                  lookup (path_name repo) ds = Some res /\
                  lookup (path_name repo) dc = Some res).
      { intros repo Hin.
        destruct (Ins _ Hin) as [res [T L]].
        destruct (Inc repo (Permutation_in _ P Hin)) as [res' [T' L']].
        exists res. rewrite T in T'. injection T' as <-. auto. }
      split; [|exact Both].
      intros key.
      destruct (in_dec string_dec key (map path_name repos)) as [Hk|Hk].
      * apply in_map_iff in Hk as [repo [<- Hin]].
        destruct (Both _ Hin) as [res [_ [-> ->]]]. reflexivity.
      * rewrite (Outs _ Hk). symmetry. apply Outc.
        intros Hk'. apply Hk.
        eapply Permutation_in; [|exact Hk'].
        symmetry. now apply Permutation_map.
  - split; [tauto|]. intros ds dc Hs Hc. rewrite Hs in Hc.
    injection Hc as <-. split; [reflexivity|].
    intros repo Hin.
    destruct (merge_loop_entries _ _ _ _ _ _ _ Hs N) as [Ins _].
    destruct (Ins _ Hin) as [res [T L]]. eauto.
Qed.

Lemma parallel_equals_sequential_witness :
  exists ds dc,
    Multi.process_repositories pkg mixed_world [["x"; "app"]; ["x"; "gone"]]
      epoch epoch false [["x"; "gone"]; ["x"; "app"]] [] = Ok ds /\
    Multi.process_repositories pkg mixed_world [["x"; "app"]; ["x"; "gone"]]
      epoch epoch true [["x"; "gone"]; ["x"; "app"]] [] = Ok dc /\
    map fst ds = ["app"; "gone"] /\
    map fst dc = ["gone"; "app"] /\
    forall key, lookup key ds = lookup key dc.
Proof.
  assert (N : NoDup (map path_name [["x"; "app"]; ["x"; "gone"]])).
  { repeat constructor; cbn; [|tauto]. intros [H|[]]. discriminate. }
  do 2 eexists.
  split; [reflexivity|]. split; [reflexivity|].
  split; [reflexivity|]. split; [reflexivity|].
  exact (proj1 (proj2 (proj2
           (parallel_equals_sequential pkg mixed_world
              [["x"; "app"]; ["x"; "gone"]] [["x"; "gone"]; ["x"; "app"]]
              epoch epoch [] N (perm_swap _ _ [])))
           _ _ eq_refl eq_refl)).
Defined.

(** C7 fails as stated: of two repositories with one directory name the
    mapping keeps the result of the one merged last, which is the second
    in the sequential run and, when the second finishes first, the first
    in the concurrent run. *)
Lemma same_name_results_depend_on_order :
  Permutation same_name_repos [["b"; "app"]; ["a"; "app"]] /\
  exists ds dc,
    Multi.process_repositories pkg (fun _ => history_repo) same_name_repos
      epoch epoch false [["b"; "app"]; ["a"; "app"]] [] = Ok ds /\
    Multi.process_repositories pkg (fun _ => history_repo) same_name_repos
      epoch epoch true [["b"; "app"]; ["a"; "app"]] [] = Ok dc /\
    option_map Multi.path (lookup "app" ds) = Some "/b/app" /\
    option_map Multi.path (lookup "app" dc) = Some "/a/app".
Proof.
  split; [apply perm_swap|].
  do 2 eexists. repeat split; reflexivity.
Qed.

Lemma for_each_raises {S A : Type} (body : S -> A -> result S) (x : A)
    (items : list A) :
  In x items -> (forall s, raises (body s x)) ->
  forall s, raises (for_each body items s).
Proof.
  intros Hin Hx. induction items as [|y items IH]; [destruct Hin|].
  intros s. cbn [for_each].
  destruct Hin as [->|Hin].
  - destruct (Hx s) as [e ->]. now exists e.
  - destruct (body s y) as [s'|e]; cbn [bind]; [now apply IH|now exists e].
Qed.

(** C8 on the code.  A failing history query is caught: the repository is
    recorded with the error and no changes.  A working copy whose
    [package.json] is not JSON is not: when the walk itself returns, the
    [JSONDecodeError] of the current-version lookup leaves
    [track_repo_version_changes], and every run over a list that has such
    a repository raises, sequential or concurrent. *)
Theorem unparsable_working_copy_aborts_run (name : string) (w : world)
    (since_date until_date : datetime) :
  (forall repo,
     git_log (w repo) (Some since_date) (Some until_date) = None ->
     Multi.track_repo_version_changes name w repo since_date until_date
     = Ok (Multi.mkResult (path_name repo) (path_str repo)
             (Some CalledProcessError) [] 0 None)) /\
  (forall repo lines st,
     git_log (w repo) (Some since_date) (Some until_date) = Some lines ->
     for_each (Multi.track_commit name (w repo) (path_name repo))
       (filter (fun c => negb (c =? "")) lines) ([], no_versions) = Ok st ->
     working_copy (w repo) = FileUnparsable ->
     Multi.track_repo_version_changes name w repo since_date until_date
     = Raise JSONDecodeError /\
     forall repos parallel as_completed repo_results,
       In repo repos -> Permutation repos as_completed ->
       raises (Multi.process_repositories name w repos since_date until_date
                 parallel as_completed repo_results)).
Proof.
  split.
  - intros repo H. unfold Multi.track_repo_version_changes. now rewrite H.
  - intros repo lines st Hlog Hloop Hwc.
    assert (T : Multi.track_repo_version_changes name w repo since_date
                  until_date = Raise JSONDecodeError).
    { unfold Multi.track_repo_version_changes. rewrite Hlog.
      cbn [subprocess_run bind]. rewrite Hloop. cbn [bind].
      unfold Multi.current_of. now rewrite Hwc. }
    split; [exact T|].
    intros repos parallel as_completed repo_results Hin P.
    assert (R : forall s, raises (Multi.merge_result name w since_date
                                    until_date s repo)).
    { intros s. unfold Multi.merge_result. rewrite T. now eexists. }
    unfold Multi.process_repositories.
    destruct (parallel && (1 <? List.length repos)%nat).
    + apply (for_each_raises _ repo); [|exact R].
      eapply Permutation_in; eassumption.
    + now apply (for_each_raises _ repo).
Qed.

Lemma unparsable_working_copy_aborts_run_witness :
  Multi.track_repo_version_changes pkg mixed_world ["x"; "broken"] epoch epoch
  = Raise JSONDecodeError /\
  raises (Multi.process_repositories pkg mixed_world
            [["x"; "broken"]; ["x"; "app"]] epoch epoch false
            [["x"; "broken"]; ["x"; "app"]] []).
Proof.
  destruct (proj2 (unparsable_working_copy_aborts_run pkg mixed_world
                     epoch epoch)
              ["x"; "broken"] [""] ([], no_versions) eq_refl eq_refl eq_refl)
    as [T R].
  split; [exact T|].
  apply R; [now left|reflexivity].
Defined.

(** * Further properties of the code *)

(** ** What the resolver can raise *)

(** X1.  Whatever the document, the resolver of the trackers raises
    nothing but [AttributeError] and [TypeError]: every subscript sits
    behind an [in] test, so a missing section or a missing package is
    never a [KeyError].  [get_version_at_commit] raises those two on a
    manifest it has read, and otherwise only what reading the commit
    raises past its [except] clause; a failed [git show] and an output
    that is not JSON are never raised. *)
Theorem resolver_raises_only_kind_errors (name : string) :
  (forall doc e,
     extract_component_versions name doc = Raise e -> kind_error e) /\
  (forall r c e,
     Adoption.get_version_at_commit name r c = Raise e ->
     ((exists doc, git_show r c = ShowDoc doc) /\ kind_error e) \/
     (exists u, git_show r c = ShowEscapes u /\ e = uncaught_exn u)) /\
  (forall r c e,
     get_package_json_at_commit r c = Raise e ->
     exists u, git_show r c = ShowEscapes u /\ e = uncaught_exn u).
Proof.
  split; [|split].
  - intros doc. apply extract_only_kind_errors.
  - intros r c e H.
    destruct (get_version_only_kind_errors name r c e H) as [K|E];
      [left|now right].
    split; [|exact K].
    unfold Adoption.get_version_at_commit in H.
    destruct (git_show r c) as [ | |u|doc]; try discriminate.
    + injection H as <-. destruct K as [K|K]; destruct u; discriminate.
    + now exists doc.
  - intros r c e. unfold get_package_json_at_commit.
    destruct (git_show r c) as [ | |u|doc]; try discriminate.
    intros [= <-]. now exists u.
Qed.

Lemma resolver_raises_only_kind_errors_witness :
  extract_component_versions pkg doc_list_dependencies = Raise AttributeError /\
  kind_error AttributeError /\
  Adoption.get_version_at_commit pkg
    (repo_showing (ShowEscapes NotDecodable)) "c1" = Raise UnicodeDecodeError.
Proof.
  split; [reflexivity|]. split; [|reflexivity].
  exact (proj1 (resolver_raises_only_kind_errors pkg)
           doc_list_dependencies AttributeError eq_refl).
Defined.

(** ** Transitive overrides *)

Lemma split_head_no_separator (s : string) :
  is_substring ">" (split_head ">" s) = false.
Proof.
  induction s as [|c s IH]; [reflexivity|].
  cbn [split_head]. destruct (Ascii.eqb_spec c ">"%char) as [->|N];
    [reflexivity|].
  cbn [is_substring String.prefix]. rewrite IH.
  destruct (ascii_dec ">" c) as [E|_]; [now subst c|reflexivity].
Qed.

Lemma direct_key_not_transitive (name : string) :
  is_transitive_key name name = false.
Proof.
  unfold is_transitive_key, endswith. cbn [String.append String.length].
  replace (S (String.length name) <=? String.length name)%nat with false;
    [now rewrite andb_false_r|].
  symmetry. apply Nat.leb_gt. lia.
Qed.

Lemma collect_transitive_In (name : string) (items : list (string * json))
    (t : transitive) :
  In t (collect_transitive name items) ->
  exists key,
    In (key, version t) items /\ is_transitive_key name key = true /\
    parent t = split_head ">" key.
Proof.
  induction items as [|[key value] items IH]; cbn; [tauto|].
  destruct (is_transitive_key name key) eqn:E.
  - intros [<-|H].
    + exists key. cbn. auto.
    + destruct (IH H) as [k [H1 H2]]. exists k. auto.
  - intros H. destruct (IH H) as [k [H1 H2]]. exists k. auto.
Qed.

Lemma collect_transitive_length (name : string)
    (items : list (string * json)) :
  (List.length (collect_transitive name items)
   + (if has_key name items then 1 else 0)
   <= List.length items)%nat.
Proof.
  unfold has_key.
  induction items as [|[key value] items IH]; cbn; [lia|].
  destruct (String.eqb_spec key name) as [->|N].
  - rewrite direct_key_not_transitive.
    destruct (lookup name items); lia.
  - destruct (is_transitive_key name key); cbn [List.length];
      destruct (lookup name items); lia.
Qed.

Lemma substring_found (n : nat) :
  forall s t, substring n (String.length t) s = t -> is_substring t s = true.
Proof.
  induction n as [|n IH]; intros s t H.
  - apply prefix_correct in H. destruct s; cbn [is_substring]; now rewrite H.
  - destruct s as [|c s].
    + destruct t; [reflexivity|discriminate].
    + cbn [substring] in H. cbn [is_substring].
      rewrite (IH s t H). apply orb_true_r.
Qed.

Lemma is_substring_first (c : ascii) (t s : string) :
  is_substring (String c t) s = true -> is_substring (String c "") s = true.
Proof.
  induction s as [|d s IH]; cbn [is_substring String.prefix];
    [discriminate|].
  destruct (ascii_dec c d); [intros _; now destruct s|].
  cbn [orb]. exact IH.
Qed.

(** A key that ends with ['>'] and the package name holds a ['>']: the
    first half of the test on a key follows from the second. *)
Lemma is_transitive_key_endswith (name key : string) :
  is_transitive_key name key = endswith key (">" ++ name)%string.
Proof.
  unfold is_transitive_key.
  destruct (endswith key (">" ++ name)%string) eqn:E;
    [|apply andb_false_r].
  rewrite andb_true_r. unfold endswith in E.
  apply andb_prop in E as [_ E]. apply String.eqb_eq in E.
  apply (is_substring_first ">" name). cbn [String.append] in E.
  eapply substring_found. exact E.
Qed.

Lemma collect_transitive_filter (name : string)
    (items : list (string * json)) :
  collect_transitive name items
  = map (fun item => mkTransitive (split_head ">" (fst item)) (snd item))
      (filter (fun item => endswith (fst item) (">" ++ name)%string) items).
Proof.
  induction items as [|[key value] items IH]; [reflexivity|].
  cbn [collect_transitive filter fst snd].
  rewrite is_transitive_key_endswith.
  destruct (endswith key (">" ++ name)%string); cbn [map fst snd];
    now rewrite IH.
Qed.

(** Whatever the document, when the resolver returns, its transitive
    overrides are collected from the items of [pnpm.overrides], and there
    are none when that section is missing. *)
Lemma extract_transitive_items (name : string) (doc : json) (v : versions) :
  extract_component_versions name doc = Ok v ->
  transitive_overrides v
  = collect_transitive name
      match doc with
      | JObj m => overrides_of m
      | _ => []
      end.
Proof.
  unfold extract_component_versions. intros H.
  apply bind_ok in H as [has_deps [_ H]].
  apply bind_ok in H as [dep0 [_ H]].
  apply bind_ok in H as [has_dev [_ H]].
  apply bind_ok in H as [dep [_ H]].
  apply bind_ok in H as [has_pnpm [Hp H]].
  apply bind_ok in H as [has_overrides [Ho H]].
  assert (Tail : has_overrides = false -> transitive_overrides v = []).
  { intros ->. now injection H as <-. }
  destruct doc as [ | | |s|l|m]; try discriminate.
  - destruct has_pnpm; [discriminate|].
    apply Tail. congruence.
  - destruct has_pnpm; [discriminate|].
    apply Tail. congruence.
  - assert (Hk : has_key "pnpm" m = has_pnpm)
      by (unfold py_in in Hp; congruence).
    unfold overrides_of. unfold has_key in Hk.
    destruct (lookup "pnpm" m) as [p|] eqn:Lp.
    + subst has_pnpm. unfold py_getitem in Ho at 1. rewrite Lp in Ho.
      cbn [bind] in Ho.
      destruct p as [ | | |ps|pl|pm]; try discriminate.
      * destruct has_overrides; [|now apply Tail].
        unfold py_getitem in H at 1. rewrite Lp in H. discriminate.
      * destruct has_overrides; [|now apply Tail].
        unfold py_getitem in H at 1. rewrite Lp in H. discriminate.
      * assert (Hko : has_key "overrides" pm = has_overrides)
          by (unfold py_in in Ho; congruence).
        unfold has_key in Hko.
        destruct (lookup "overrides" pm) as [o|] eqn:Lo;
          [|now apply Tail].
        subst has_overrides.
        unfold py_getitem in H at 1. rewrite Lp in H. cbn [bind] in H.
        unfold py_getitem in H at 1. rewrite Lo in H. cbn [bind] in H.
        apply bind_ok in H as [ovr [Hg H]].
        apply bind_ok in H as [items [Hi H]].
        destruct o as [ | | | | |om]; try discriminate.
        assert (items = om) by (unfold py_items in Hi; congruence).
        subst items. now injection H as <-.
    + subst has_pnpm. apply Tail. congruence.
Qed.

(** X2.  A key of [pnpm.overrides] counts as a transitive override
    exactly when it ends with ['>'] and the package name, and the key of
    the direct override never does.  The transitive overrides the
    resolver collects are exactly the items with such a key, in document
    order, each with its value as it stands and with the key up to its
    first ['>'] as parent, which therefore holds no ['>']; this holds for
    every document on which the resolver returns, with no transitive
    override when the section is missing.  On a well-shaped manifest the
    direct override and the transitive overrides are different items of
    [pnpm.overrides]. *)
Theorem transitive_overrides_are_suffix_keys (name : string) :
  is_transitive_key name name = false /\
  (forall items t,
     In t (collect_transitive name items) ->
     is_substring ">" (parent t) = false /\
     exists key,
       In (key, version t) items /\
       endswith key (">" ++ name)%string = true /\
       key <> name /\
       parent t = split_head ">" key) /\
  (forall m v,
     well_shaped (JObj m) = true ->
     extract_component_versions name (JObj m) = Ok v ->
     (List.length (transitive_overrides v)
      + (if has_key name (overrides_of m) then 1 else 0)
      <= List.length (overrides_of m))%nat) /\
  (forall key,
     is_transitive_key name key = endswith key (">" ++ name)%string) /\
  (forall items,
     collect_transitive name items
     = map (fun item => mkTransitive (split_head ">" (fst item)) (snd item))
         (filter (fun item => endswith (fst item) (">" ++ name)%string)
            items)) /\
  (forall doc v,
     extract_component_versions name doc = Ok v ->
     transitive_overrides v
     = map (fun item => mkTransitive (split_head ">" (fst item)) (snd item))
         (filter (fun item => endswith (fst item) (">" ++ name)%string)
            match doc with
            | JObj m => overrides_of m
            | _ => []
            end)).
Proof.
  split; [apply direct_key_not_transitive|].
  split; [|split; [|split; [|split]]].
  - intros items t H.
    destruct (collect_transitive_In _ _ _ H) as [key [Hin [Hk Hp]]].
    split; [rewrite Hp; apply split_head_no_separator|].
    exists key. split; [exact Hin|].
    split; [unfold is_transitive_key in Hk; now apply andb_prop in Hk|].
    split; [|exact Hp].
    intros ->. rewrite direct_key_not_transitive in Hk. discriminate.
  - intros m v W E. rewrite (extract_well_shaped _ _ W) in E.
    injection E as <-. cbn [transitive_overrides].
    apply collect_transitive_length.
  - apply is_transitive_key_endswith.
  - apply collect_transitive_filter.
  - intros doc v H. rewrite (extract_transitive_items name doc v H).
    apply collect_transitive_filter.
Qed.

Lemma transitive_overrides_are_suffix_keys_witness :
  exists v,
    extract_component_versions pkg doc_transitive = Ok v /\
    map parent (transitive_overrides v) = ["pkgA"; "pkgB"] /\
    (List.length (transitive_overrides v) + 0 <= 2)%nat.
Proof.
  eexists. split; [reflexivity|]. split; [reflexivity|].
  exact (proj1 (proj2 (proj2 (transitive_overrides_are_suffix_keys pkg)))
           [("devDependencies", JObj [(pkg, JStr "1.0.0")]);
            ("pnpm", JObj [("overrides",
                JObj [(("pkgA>" ++ pkg)%string, JStr "2.0.0");
                      (("pkgB>" ++ pkg)%string, JStr "3.0.0")])])]
           _ eq_refl eq_refl).
Defined.

(** ** What the change records hold *)

Lemma for_each_length {S A : Type} (body : S -> A -> result S)
    (size : S -> nat) :
  (forall s x s', body s x = Ok s' -> (size s' <= Datatypes.S (size s))%nat) ->
  forall items s s',
    for_each body items s = Ok s' ->
    (size s' <= size s + List.length items)%nat.
Proof.
  intros Hstep items. induction items as [|x items IH]; intros s s'; cbn.
  - intros [= <-]. lia.
  - destruct (body s x) as [s1|] eqn:E; cbn; [|discriminate].
    intros H. apply IH in H. apply Hstep in E. lia.
Qed.

Lemma multi_track_commit_records (name : string) (r : repo_state)
    (repo : string) (st : list Multi.change_record * versions) (c : string)
    (st' : list Multi.change_record * versions) :
  Multi.track_commit name r repo st c = Ok st' ->
  (Forall (multi_record_ok repo) (fst st) ->
   Forall (multi_record_ok repo) (fst st')) /\
  (List.length (fst st') <= S (List.length (fst st)))%nat.
Proof.
  destruct st as [ch last]. unfold Multi.track_commit.
  destruct (get_package_json_at_commit r c) as [doc|]; cbn [bind];
    [|discriminate].
  destruct (truthy doc); cbn [negb].
  - intros H. apply bind_ok in H as [v [_ H]].
    apply bind_ok in H as [ch' [H [= <-]]]. cbn [fst].
    destruct (changed v last && py_ne (effective v) (effective last)) eqn:E.
    + apply bind_ok in H as [info [_ [= <-]]]. split.
      * intros F. apply Forall_app. split; [exact F|].
        constructor; [|constructor]. unfold multi_record_ok. cbn.
        apply andb_prop in E as [_ E]. destruct v. auto.
      * rewrite length_app. cbn. lia.
    + injection H as <-. split; [auto|lia].
  - intros [= <-]. cbn. split; [auto|lia].
Qed.

(** The two shapes of a returned result. *)
Lemma track_repo_shape (name : string) (w : world) (repo : Path)
    (since_date until_date : datetime) (res : Multi.repo_result) :
  Multi.track_repo_version_changes name w repo since_date until_date = Ok res ->
  res = Multi.mkResult (path_name repo) (path_str repo)
          (Some CalledProcessError) [] 0 None \/
  exists lines st cur,
    git_log (w repo) (Some since_date) (Some until_date) = Some lines /\
    for_each (Multi.track_commit name (w repo) (path_name repo))
      (filter (fun c => negb (c =? "")) lines) ([], no_versions) = Ok st /\
    Multi.current_of name (w repo) = Ok cur /\
    res = Multi.mkResult (path_name repo) (path_str repo) None (fst st)
            (List.length (fst st))
            (Some (Multi.mkCurrent (fst cur) (snd cur)
                     (List.length (filter (fun c => negb (c =? "")) lines)))).
Proof.
  unfold Multi.track_repo_version_changes, except_called_process_error.
  destruct (git_log (w repo) (Some since_date) (Some until_date))
    as [lines|]; cbn [subprocess_run bind].
  - destruct (for_each _ _ _) as [st|e] eqn:E; cbn [bind].
    + destruct (Multi.current_of name (w repo)) as [cur|e] eqn:C;
        cbn [bind].
      * intros [= <-]. right. exists lines, st, cur. auto.
      * destruct e; try discriminate. intros [= <-]. now left.
    + destruct e; try discriminate. intros [= <-]. now left.
  - intros [= <-]. now left.
Qed.

(** X3.  In a result of [track_repo_version_changes] every change record
    names the repository, goes between two effective versions that
    differ, and has as its effective version the one its own constituents
    resolve to; [total_changes] is the number of records, which is at
    most [commits_analyzed], the number of non-empty lines of the log; a
    result with an error has no records. *)
Theorem change_records_are_transitions (name : string) (w : world)
    (repo : Path) (since_date until_date : datetime)
    (res : Multi.repo_result) :
  Multi.track_repo_version_changes name w repo since_date until_date = Ok res ->
  Forall (multi_record_ok (path_name repo)) (Multi.changes res) /\
  Multi.total_changes res = List.length (Multi.changes res) /\
  (forall cur lines,
     Multi.completed res = Some cur ->
     git_log (w repo) (Some since_date) (Some until_date) = Some lines ->
     (Multi.total_changes res <= Multi.commits_analyzed cur)%nat /\
     (Multi.commits_analyzed cur <= List.length lines)%nat) /\
  (Multi.error res <> None -> Multi.changes res = []).
Proof.
  intros H. apply track_repo_shape in H
    as [->|[lines [st [cur [L [E [_ ->]]]]]]]; cbn.
  - repeat split; auto; intros; discriminate.
  - split; [|split; [reflexivity|split]].
    + apply (for_each_invariant _
               (fun s => Forall (multi_record_ok (path_name repo)) (fst s))
               (fun s x s' Hb => proj1 (multi_track_commit_records
                                          _ _ _ _ _ _ Hb))
               _ _ _ E).
      constructor.
    + intros cur' lines' [= <-] L'. rewrite L in L'. injection L' as <-.
      cbn. split.
      * apply (for_each_length _ (fun s => List.length (fst s))
                 (fun s x s' Hb => proj2 (multi_track_commit_records
                                            _ _ _ _ _ _ Hb))
                 _ _ _ E).
      * apply filter_length_le.
    + intros N. now contradiction N.
Qed.

Lemma change_records_are_transitions_witness :
  exists res,
    Multi.track_repo_version_changes pkg (fun _ => history_repo)
      ["code"; "app"] epoch epoch = Ok res /\
    Multi.total_changes res = 3%nat /\
    option_map Multi.commits_analyzed (Multi.completed res) = Some 5%nat /\
    Forall (multi_record_ok "app") (Multi.changes res).
Proof.
  eexists. split; [reflexivity|]. split; [reflexivity|].
  split; [reflexivity|].
  exact (proj1 (change_records_are_transitions pkg (fun _ => history_repo)
                  ["code"; "app"] epoch epoch _ eq_refl)).
Defined.

(** ** The record test *)

Lemma multi_track_commit_resolved (name : string) (r : repo_state)
    (repo : string) (st st' : list Multi.change_record * versions)
    (c : string) (doc : json) :
  get_package_json_at_commit r c = Ok doc -> truthy doc = true ->
  Multi.track_commit name r repo st c = Ok st' ->
  (List.length (fst st') = S (List.length (fst st))
   <-> py_ne (effective (snd st')) (effective (snd st)) = true) /\
  (fst st' = fst st
   <-> py_ne (effective (snd st')) (effective (snd st)) = false).
Proof.
  destruct st as [ch last]. unfold Multi.track_commit. intros -> T.
  cbn [bind]. rewrite T. cbn [negb]. intros H. apply bind_ok in H as [v [_ H]].
  apply bind_ok in H as [ch' [H [= <-]]]. cbn [fst snd].
  rewrite emit_iff_effective_differs in H.
  destruct (py_ne (effective v) (effective last)).
  - apply bind_ok in H as [info [_ [= <-]]]. rewrite length_app. cbn.
    split; split; try discriminate; auto; try lia.
    intros E. apply (f_equal (@List.length _)) in E.
    rewrite length_app in E. cbn in E. lia.
  - injection H as <-. split; split; auto; try discriminate; lia.
Qed.

Lemma single_track_commit_resolved (name : string) (r : repo_state)
    (st st' : list Single.change_record * versions) (c : string)
    (doc : json) :
  get_package_json_at_commit r c = Ok doc -> truthy doc = true ->
  Single.track_commit name r st c = Ok st' ->
  (List.length (fst st') = S (List.length (fst st))
   <-> py_ne (effective (snd st')) (effective (snd st)) = true) /\
  (fst st' = fst st
   <-> py_ne (effective (snd st')) (effective (snd st)) = false).
Proof.
  destruct st as [ch last]. unfold Single.track_commit. intros -> T.
  cbn [bind]. rewrite T. cbn [negb]. intros H. apply bind_ok in H as [v [_ H]].
  apply bind_ok in H as [info [_ [= <-]]]. cbn [fst snd].
  rewrite emit_iff_effective_differs.
  destruct (py_ne (effective v) (effective last)).
  - rewrite length_app. cbn.
    split; split; try discriminate; auto; try lia.
    intros E. apply (f_equal (@List.length _)) in E.
    rewrite length_app in E. cbn in E. lia.
  - split; split; auto; try discriminate; lia.
Qed.

(** X4.  Two snapshots whose effective versions differ always differ in a
    constituent, so the test "any version changed" never holds a record
    back: at a commit whose manifest is resolved, both trackers append
    exactly one record when the new snapshot's effective version differs
    from the previous one's, and leave the records as they are when it
    does not. *)
Theorem record_iff_effective_version_differs (name : string)
    (r : repo_state) (c : string) (doc : json) :
  (forall new old,
     py_ne (effective new) (effective old) = true -> changed new old = true) /\
  (get_package_json_at_commit r c = Ok doc -> truthy doc = true ->
   (forall repo st st',
      Multi.track_commit name r repo st c = Ok st' ->
      (List.length (fst st') = S (List.length (fst st))
       <-> py_ne (effective (snd st')) (effective (snd st)) = true) /\
      (fst st' = fst st
       <-> py_ne (effective (snd st')) (effective (snd st)) = false)) /\
   (forall st st',
      Single.track_commit name r st c = Ok st' ->
      (List.length (fst st') = S (List.length (fst st))
       <-> py_ne (effective (snd st')) (effective (snd st)) = true) /\
      (fst st' = fst st
       <-> py_ne (effective (snd st')) (effective (snd st)) = false))).
Proof.
  split.
  - intros new old H. destruct (changed new old) eqn:E; [reflexivity|].
    unfold py_ne in H. now rewrite (unchanged_effective _ _ E) in H.
  - intros G T. split.
    + intros repo st st'.
      now apply (multi_track_commit_resolved _ _ _ _ _ _ doc).
    + intros st st'.
      now apply (single_track_commit_resolved _ _ _ _ _ doc).
Qed.

Lemma record_iff_effective_version_differs_witness :
  exists st',
    Multi.track_commit pkg cancel_repo "app"
      ([], mkVersions (JStr "1.0.0") (JStr "2.0.0") []) "c2" = Ok st' /\
    snd st' = mkVersions (JStr "2.0.0") JNull [] /\
    fst st' = [].
Proof.
  eexists. split; [reflexivity|]. split; [reflexivity|].
  apply (proj2 (proj1 (proj2 (record_iff_effective_version_differs pkg
                                cancel_repo "c2" (manifest_of "2.0.0" None))
                         eq_refl eq_refl)
                  "app" ([], mkVersions (JStr "1.0.0") (JStr "2.0.0") []) _
                  eq_refl)).
  reflexivity.
Defined.

(** ** Failing commit metadata *)

Lemma get_commit_info_short (r : repo_state) (c : string)
    (lines : list string) :
  git_show_info r c = Some lines -> (List.length lines < 4)%nat ->
  get_commit_info r c = Raise IndexError.
Proof.
  intros H L. unfold get_commit_info. rewrite H. cbn [subprocess_run bind].
  destruct lines as [|a [|b [|d [|e lines]]]]; cbn in *; try reflexivity.
  lia.
Qed.

Lemma get_commit_info_failed (r : repo_state) (c : string) :
  git_show_info r c = None -> get_commit_info r c = Raise CalledProcessError.
Proof. intros H. unfold get_commit_info. now rewrite H. Qed.

(** The walk raises what the metadata query raises at a commit that gives
    a record. *)
Lemma multi_loop_raises_at (name : string) (r : repo_state) (repo : string)
    (pre post : list string) (c : string) (doc : json)
    (changes : list Multi.change_record) (last v : versions) (e : exn) :
  for_each (Multi.track_commit name r repo) pre ([], no_versions)
  = Ok (changes, last) ->
  get_package_json_at_commit r c = Ok doc ->
  truthy doc = true ->
  extract_component_versions name doc = Ok v ->
  py_ne (effective v) (effective last) = true ->
  get_commit_info r c = Raise e ->
  for_each (Multi.track_commit name r repo) (pre ++ c :: post)
    ([], no_versions) = Raise e.
Proof.
  intros P G T E N I. rewrite for_each_app, P. cbn [bind for_each].
  unfold Multi.track_commit at 1. rewrite G. cbn [bind].
  rewrite T, E. cbn [negb bind].
  rewrite emit_iff_effective_differs, N, I. reflexivity.
Qed.

(** X5.  When the metadata query of a commit that gives a change record
    exits non-zero, [track_repo_version_changes] returns the error result
    with no change records, whatever records the earlier commits had
    given; when it answers fewer than four lines the [IndexError] leaves
    the function.  [track_version_changes] queries the metadata of every
    resolved commit and catches nothing: a failing query raises, whether
    or not the commit would have given a record. *)
Theorem failing_commit_metadata (name : string) (w : world) (repo : Path)
    (since_date until_date : datetime) (lines pre post : list string)
    (c : string) (doc : json) (v : versions) :
  git_log (w repo) (Some since_date) (Some until_date) = Some lines ->
  filter (fun c => negb (c =? "")) lines = pre ++ c :: post ->
  get_package_json_at_commit (w repo) c = Ok doc ->
  truthy doc = true ->
  extract_component_versions name doc = Ok v ->
  (forall changes last,
     for_each (Multi.track_commit name (w repo) (path_name repo)) pre
       ([], no_versions) = Ok (changes, last) ->
     py_ne (effective v) (effective last) = true ->
     (git_show_info (w repo) c = None ->
      Multi.track_repo_version_changes name w repo since_date until_date
      = Ok (Multi.mkResult (path_name repo) (path_str repo)
              (Some CalledProcessError) [] 0 None)) /\
     (forall info,
        git_show_info (w repo) c = Some info ->
        (List.length info < 4)%nat ->
        Multi.track_repo_version_changes name w repo since_date until_date
        = Raise IndexError)) /\
  (forall st,
     for_each (Single.track_commit name (w repo)) pre ([], no_versions)
     = Ok st ->
     git_show_info (w repo) c = None ->
     Single.track_version_changes name (w repo) (Some since_date)
       (Some until_date) = Raise CalledProcessError).
Proof.
  intros L F G T E. split.
  - intros changes last P N. split.
    + intros I. apply get_commit_info_failed in I.
      unfold Multi.track_repo_version_changes. rewrite L.
      cbn [subprocess_run bind]. rewrite F.
      now rewrite (multi_loop_raises_at _ _ _ _ _ _ _ _ _ _ _ P G T E N I).
    + intros info I S. apply (get_commit_info_short _ _ _ I) in S.
      unfold Multi.track_repo_version_changes. rewrite L.
      cbn [subprocess_run bind]. rewrite F.
      now rewrite (multi_loop_raises_at _ _ _ _ _ _ _ _ _ _ _ P G T E N S).
  - intros st P I. apply get_commit_info_failed in I.
    unfold Single.track_version_changes. rewrite L.
    cbn [subprocess_run bind]. rewrite F, for_each_app, P.
    cbn [bind for_each]. destruct st as [ch last].
    unfold Single.track_commit at 1. rewrite G. cbn [bind].
    rewrite T, E. cbn [negb bind].
    now rewrite I.
Qed.

Lemma failing_commit_metadata_witness :
  Multi.track_repo_version_changes pkg (fun _ => info_fails_repo)
    ["code"; "app"] epoch epoch
  = Ok (Multi.mkResult "app" "/code/app" (Some CalledProcessError) [] 0 None) /\
  (exists changes last,
      for_each (Multi.track_commit pkg info_fails_repo "app") ["c1"]
        ([], no_versions) = Ok (changes, last) /\
      List.length changes = 1%nat).
Proof.
  split.
  - exact (proj1 (proj1 (failing_commit_metadata pkg (fun _ => info_fails_repo)
                           ["code"; "app"] epoch epoch ["c1"; "c2"] ["c1"] []
                           "c2" (manifest_of "1.1.0" None)
                           (mkVersions (JStr "1.1.0") JNull [])
                           eq_refl eq_refl eq_refl eq_refl eq_refl)
                    _ _ eq_refl eq_refl) eq_refl).
  - do 2 eexists. split; reflexivity.
Defined.

Example short_metadata_raises :
  Multi.track_repo_version_changes pkg (fun _ => info_short_repo)
    ["code"; "app"] epoch epoch = Raise IndexError.
Proof. reflexivity. Qed.

(** ** The adoption records of a repository *)

Lemma for_each_raise {S A : Type} (body : S -> A -> result S)
    (P : exn -> Prop) :
  (forall s x e, body s x = Raise e -> P e) ->
  forall items s e, for_each body items s = Raise e -> P e.
Proof.
  intros Hb items. induction items as [|x items IH]; intros s e; cbn;
    [discriminate|].
  destruct (body s x) as [s'|e'] eqn:E; cbn.
  - apply IH.
  - intros [= <-]. eapply Hb; eassumption.
Qed.

Lemma adopt_commit_never_process_error (name : string) (r : repo_state)
    (st : list adoption * json) (line : log_line) :
  Adoption.adopt_commit name r st line <> Raise CalledProcessError.
Proof.
  destruct st as [adoptions last]. unfold Adoption.adopt_commit.
  destruct line as [|h d]; [discriminate|].
  destruct (Adoption.get_version_at_commit name r h) as [v|e] eqn:E;
    cbn [bind].
  - destruct (truthy v && py_ne v last); [|discriminate].
    destruct v; discriminate.
  - intros [= ->].
    destruct (get_version_only_kind_errors name r h _ E)
      as [[K|K]|[u [_ K]]]; try discriminate.
    destruct u; discriminate.
Qed.

Lemma adjacent_differ_app (l : list string) (x : string) :
  adjacent_differ l -> last l "" <> x \/ l = [] ->
  adjacent_differ (l ++ [x]).
Proof.
  induction l as [|y l IH]; [cbn; auto|].
  destruct l as [|z l].
  - cbn. intros _ [H|H]; [auto|discriminate].
  - intros [N A] H. cbn [app adjacent_differ]. split; [exact N|].
    apply IH; [exact A|]. destruct H as [H|H]; [now left|discriminate].
Qed.

Lemma for_each_invariant_in {S A : Type} (body : S -> A -> result S)
    (I : S -> Prop) (all : list A) :
  (forall s x s', In x all -> body s x = Ok s' -> I s -> I s') ->
  forall items s s',
    incl items all -> for_each body items s = Ok s' -> I s -> I s'.
Proof.
  intros Hstep items. induction items as [|x items IH]; intros s s' Hin; cbn.
  - now intros [= <-].
  - destruct (body s x) as [s1|] eqn:E; cbn; [|discriminate].
    intros H Hs. eapply IH; [|exact H|].
    + intros y Hy. apply Hin. now right.
    + eapply Hstep; [|exact E|exact Hs]. apply Hin. now left.
Qed.

Lemma last_recorded_app (adoptions : list adoption) (a : adoption) :
  last_recorded (adoptions ++ [a]) = JStr (raw_version a).
Proof. unfold last_recorded. rewrite map_app. cbn. apply last_last. Qed.

Lemma last_recorded_raw (adoptions : list adoption) (raw : string) :
  py_ne (JStr raw) (last_recorded adoptions) = true ->
  last (map raw_version adoptions) "" <> raw \/ map raw_version adoptions = [].
Proof.
  unfold last_recorded.
  induction adoptions as [|a adoptions IH] using rev_ind; [now right|].
  rewrite !map_app. cbn [map]. rewrite !last_last.
  unfold py_ne. cbn. intros H. left. intros <-.
  now rewrite String.eqb_refl in H.
Qed.

Lemma adopt_commit_ok (name : string) (r : repo_state)
    (lines : list log_line) (st : list adoption * json) (line : log_line)
    (st' : list adoption * json) :
  In line lines ->
  Adoption.adopt_commit name r st line = Ok st' ->
  adoptions_ok lines st -> adoptions_ok lines st'.
Proof.
  destruct st as [adoptions last_version]. unfold Adoption.adopt_commit.
  intros Hin. destruct line as [|h d]; [now intros [= <-]|].
  intros H I. apply bind_ok in H as [v [_ H]].
  destruct (truthy v && py_ne v last_version) eqn:E;
    [|now injection H as <-].
  destruct v as [ | | |raw| | ]; try discriminate. injection H as <-.
  destruct I as [F [A L]]. cbn [fst snd] in *. subst last_version.
  apply andb_prop in E as [T N].
  unfold adoptions_ok. cbn [fst snd]. split; [|split].
  - apply Forall_app. split; [exact F|]. constructor; [|constructor].
    cbn. split.
    + intros ->. discriminate.
    + exists h. cbn. auto.
  - rewrite map_app. cbn [map].
    apply adjacent_differ_app; [exact A|now apply last_recorded_raw].
  - now rewrite last_recorded_app.
Qed.

Lemma adopt_commit_length (name : string) (r : repo_state)
    (st : list adoption * json) (line : log_line)
    (st' : list adoption * json) :
  Adoption.adopt_commit name r st line = Ok st' ->
  (List.length (fst st') <= S (List.length (fst st)))%nat.
Proof.
  destruct st as [adoptions last_version]. unfold Adoption.adopt_commit.
  destruct line as [|h d]; [intros [= <-]; cbn; lia|].
  intros H. apply bind_ok in H as [v [_ H]].
  destruct (truthy v && py_ne v last_version);
    [|injection H as <-; cbn; lia].
  destruct v; try discriminate. injection H as <-. cbn.
  rewrite length_app. cbn. lia.
Qed.

(** X6.  The adoption records [get_repo_adoptions] returns are taken, in
    order, from lines of the log (date of the line, first eight
    characters of its hash), at most one per line; each has a raw version
    that is not empty, and no two consecutive records have the same raw
    version.  When the log query fails the list is empty and
    [self.repo_adoptions] is left as it was; otherwise the list is stored
    under the repository's name. *)
Theorem adoptions_follow_raw_changes (name : string) (w : world)
    (repo : Path) (months : Z) (d d' : list (string * list adoption))
    (adoptions : list adoption) :
  Adoption.get_repo_adoptions name w repo months d = Ok (d', adoptions) ->
  match git_log_dated (w repo) months with
  | None => d' = d /\ adoptions = []
  | Some lines =>
      d' = dict_set (path_name repo) adoptions d /\
      (List.length adoptions <= List.length lines)%nat /\
      Forall (fun a => raw_version a <> "" /\ from_line lines a) adoptions /\
      adjacent_differ (map raw_version adoptions)
  end.
Proof.
  unfold Adoption.get_repo_adoptions, except_called_process_error.
  destruct (git_log_dated (w repo) months) as [lines|];
    cbn [subprocess_run bind]; [|now intros [= <- <-]].
  destruct (for_each _ lines _) as [st|e] eqn:E; cbn [bind].
  - intros [= <- <-]. split; [reflexivity|]. split.
    + apply (for_each_length _ (fun s => List.length (fst s))
               (adopt_commit_length name (w repo)) _ _ _ E).
    + assert (I : adoptions_ok lines st).
      { apply (for_each_invariant_in _ (adoptions_ok lines) lines
                 (fun s x s' Hin Hb => adopt_commit_ok _ _ _ _ _ _ Hin Hb)
                 lines _ _ (incl_refl _) E).
        repeat split. constructor. }
      destruct I as [F [A _]]. now split.
  - intros H. exfalso. destruct e; try discriminate.
    apply (for_each_raise _ (fun e => e <> CalledProcessError)) in E;
      [now apply E|].
    intros s x e Hb ->. now apply adopt_commit_never_process_error in Hb.
Qed.

Lemma adoptions_follow_raw_changes_witness :
  exists d' adoptions,
    Adoption.get_repo_adoptions pkg (fun _ => steady_repo) ["code"; "app"]
      36 [] = Ok (d', adoptions) /\
    map raw_version adoptions = ["^1.0.0"; "~1.1.0"] /\
    map adoption_commit adoptions = ["c1"; "c3"] /\
    adjacent_differ (map raw_version adoptions).
Proof.
  do 2 eexists. split; [reflexivity|]. split; [reflexivity|].
  split; [reflexivity|].
  exact (proj2 (proj2 (proj2
           (adoptions_follow_raw_changes pkg (fun _ => steady_repo)
              ["code"; "app"] 36%Z [] _ _ eq_refl)))).
Defined.

(** ** How many entries, lags, skips and intervals *)

Lemma version_entry_known (releases : list (string * release))
    (prev : option adoption) (cur : adoption) :
  List.length (version_entry releases prev cur)
  = if known releases cur then 1%nat else 0%nat.
Proof.
  unfold version_entry, known, has_key.
  now destruct (lookup (adopted_version cur) releases).
Qed.

Lemma entries_count (releases : list (string * release))
    (ps : list (option adoption * adoption)) :
  List.length (flat_map (fun p => version_entry releases (fst p) (snd p)) ps)
  = List.length (filter (known releases) (map snd ps)).
Proof.
  induction ps as [|[prev cur] ps IH]; [reflexivity|].
  cbn [flat_map map filter fst snd].
  rewrite length_app, version_entry_known, IH.
  now destruct (known releases cur).
Qed.

Lemma later_entries_count (releases : list (string * release))
    (ps : list (option adoption * adoption)) :
  Forall (fun p => fst p <> None) ps ->
  List.length
    (flat_map (fun e => some_list (versions_skipped e))
       (flat_map (fun p => version_entry releases (fst p) (snd p)) ps))
  = List.length (filter (known releases) (map snd ps)) /\
  List.length
    (flat_map (fun e => some_list (days_since_last_update e))
       (flat_map (fun p => version_entry releases (fst p) (snd p)) ps))
  = List.length (filter (known releases) (map snd ps)).
Proof.
  induction 1 as [|[prev cur] ps Hp _ [IH1 IH2]]; [split; reflexivity|].
  cbn [flat_map map filter fst snd] in *.
  rewrite !flat_map_app, !length_app, IH1, IH2.
  destruct prev as [prev|]; [|contradiction].
  unfold version_entry, known, has_key.
  destruct (lookup (adopted_version cur) releases); cbn; split; lia.
Qed.

Lemma map_snd_combine {A B : Type} (ys : list B) :
  forall xs : list A,
    (List.length ys <= List.length xs)%nat -> map snd (combine xs ys) = ys.
Proof.
  induction ys as [|y ys IH]; intros [|x xs]; cbn; try lia; auto.
  intros H. rewrite IH; [reflexivity|lia].
Qed.

Lemma combine_some_first {A : Type} (ys : list A) :
  forall xs : list A,
    Forall (fun p => fst p <> None) (combine (map Some xs) ys).
Proof.
  induction ys as [|y ys IH]; intros [|x xs]; cbn; constructor;
    [discriminate|apply IH].
Qed.

Lemma if_any_none {A B : Type} (f : list A -> B) (l : list A) :
  if_any f l = None <-> l = [].
Proof. destruct l; cbn; split; congruence. Qed.

Lemma length_zero_nil {A : Type} (l : list A) :
  List.length l = 0%nat <-> l = [].
Proof. destruct l; cbn; split; congruence. Qed.

(** X7.  In the metrics of a repository, [total_updates] counts all its
    adoption records; there is one entry and one lag for each record
    whose version is a release, and one skip count and one interval for
    each such record after the first.  The lag statistics are absent
    exactly when no record has a known version, and the average skip and
    the average interval exactly when no record after the first has one;
    a repository without adoption records has no statistic at all. *)
Theorem metrics_counts_and_absence (releases : list (string * release))
    (adoptions : list adoption) :
  let m := Adoption.repo_metrics_of releases adoptions in
  let known_all := filter (known releases) adoptions in
  let known_later := filter (known releases) (tl adoptions) in
  total_updates m = List.length adoptions /\
  List.length (metric_versions m) = List.length known_all /\
  List.length (adoption_lags m) = List.length known_all /\
  List.length (skip_counts m) = List.length known_later /\
  List.length (update_intervals m) = List.length known_later /\
  (avg_lag_days m = None <-> known_all = []) /\
  (median_lag_days m = None <-> known_all = []) /\
  (min_lag_days m = None <-> known_all = []) /\
  (max_lag_days m = None <-> known_all = []) /\
  (avg_versions_skipped m = None <-> known_later = []) /\
  (avg_update_interval m = None <-> known_later = []).
Proof.
  intros m known_all known_later.
  pose proof (repo_metrics_lists releases adoptions) as H.
  cbn zeta in H. fold m in H. destruct H as [E1 [E2 [E3 E4]]].
  assert (V : List.length (metric_versions m) = List.length known_all).
  { rewrite E1. unfold version_entries. rewrite entries_count.
    unfold with_previous. rewrite map_snd_combine; [reflexivity|].
    cbn. rewrite length_map. lia. }
  assert (L : List.length (adoption_lags m) = List.length known_all)
    by now rewrite E2, length_map, <- E1.
  assert (S : List.length (skip_counts m) = List.length known_later /\
              List.length (update_intervals m) = List.length known_later).
  { rewrite E3, E4. unfold version_entries, with_previous, known_later.
    destruct adoptions as [|a rest]; [split; reflexivity|].
    change (combine (None :: map Some (a :: rest)) (a :: rest))
      with ((None, a) :: combine (map Some (a :: rest)) rest).
    cbn [flat_map fst snd tl].
    rewrite !flat_map_app, !length_app.
    destruct (later_entries_count releases
                (combine (map Some (a :: rest)) rest)
                (combine_some_first _ _)) as [-> ->].
    rewrite map_snd_combine by (cbn; rewrite length_map; lia).
    unfold version_entry.
    destruct (lookup (adopted_version a) releases); split; reflexivity. }
  destruct S as [S1 S2].
  split; [reflexivity|]. split; [exact V|]. split; [exact L|].
  split; [exact S1|]. split; [exact S2|].
  change (avg_lag_days m) with (if_any mean (adoption_lags m)).
  change (median_lag_days m) with (if_any median (adoption_lags m)).
  change (min_lag_days m) with (if_any min_list (adoption_lags m)).
  change (max_lag_days m) with (if_any max_list (adoption_lags m)).
  change (avg_versions_skipped m) with (if_any mean (skip_counts m)).
  change (avg_update_interval m) with (if_any mean (update_intervals m)).
  rewrite !if_any_none.
  rewrite <- !(length_zero_nil (adoption_lags m)),
          <- (length_zero_nil (skip_counts m)),
          <- (length_zero_nil (update_intervals m)),
          <- (length_zero_nil known_all), <- (length_zero_nil known_later).
  rewrite L, S1, S2. tauto.
Qed.

(** ** Loading the releases *)

Lemma dict_set_keys {A : Type} (k : string) (v : A) (d : list (string * A)) :
  map fst (dict_set k v d)
  = if has_key k d then map fst d else (map fst d ++ [k])%list.
Proof.
  unfold has_key. induction d as [|[k0 v0] d IH]; cbn; [reflexivity|].
  destruct (String.eqb_spec k0 k) as [->|N]; cbn; [reflexivity|].
  rewrite IH. now destruct (lookup k d).
Qed.

Lemma has_key_keys {A : Type} (k : string) (d : list (string * A)) :
  has_key k d = true <-> In k (map fst d).
Proof.
  unfold has_key. induction d as [|[k0 v0] d IH]; cbn.
  - split; [discriminate|tauto].
  - destruct (String.eqb_spec k0 k) as [->|N]; [tauto|].
    rewrite IH. split; [tauto|]. now intros [E|H].
Qed.

Lemma dict_set_NoDup {A : Type} (k : string) (v : A)
    (d : list (string * A)) :
  NoDup (map fst d) -> NoDup (map fst (dict_set k v d)).
Proof.
  intros N. rewrite dict_set_keys.
  destruct (has_key k d) eqn:E; [exact N|].
  apply NoDup_app; [exact N|repeat constructor; intros []|].
  intros x Hx [<-|[]]. apply has_key_keys in Hx. congruence.
Qed.

Lemma dict_set_length {A : Type} (k : string) (v : A)
    (d : list (string * A)) :
  (List.length (dict_set k v d) <= S (List.length d))%nat.
Proof.
  rewrite <- (length_map fst), dict_set_keys, <- (length_map fst d).
  destruct (has_key k d); [lia|]. rewrite length_app. cbn. lia.
Qed.

Lemma find_app {A : Type} (f : A -> bool) (l1 l2 : list A) :
  find f (l1 ++ l2)
  = match find f l1 with
    | Some x => Some x
    | None => find f l2
    end.
Proof.
  induction l1 as [|x l1 IH]; cbn; [reflexivity|].
  now destruct (f x).
Qed.

(** X8.  [load_releases] files each entry under its version without the
    leading range characters, so two entries whose versions differ only
    there share a key: a key holds the last entry of the file that
    strips to it, or what it held before when there is none, and there
    are at most as many new keys as entries. *)
Theorem load_releases_last_entry_wins (data : list (string * datetime))
    (releases : list (string * release)) (k : string) :
  lookup k (Adoption.load_releases data releases)
  = match find (fun info => lstrip_range (fst info) =? k) (rev data) with
    | Some info => Some (mkRelease (snd info) (fst info))
    | None => lookup k releases
    end /\
  (List.length (Adoption.load_releases data releases)
   <= List.length releases + List.length data)%nat.
Proof.
  unfold Adoption.load_releases. revert releases.
  induction data as [|[v d] data IH]; intros releases.
  - cbn. split; [reflexivity|lia].
  - cbn [fold_left rev fst snd List.length].
    destruct (IH (dict_set (lstrip_range v) (mkRelease d v) releases))
      as [IH1 IH2].
    split.
    + rewrite IH1, find_app. clear IH IH1.
      destruct (find _ (rev data)); [reflexivity|].
      cbn [find fst snd]. rewrite lookup_dict_set.
      now destruct (lstrip_range v =? k).
    + pose proof (dict_set_length (lstrip_range v) (mkRelease d v) releases).
      lia.
Qed.

(** The keys of the releases stay distinct. *)
Lemma load_releases_NoDup (data : list (string * datetime))
    (releases : list (string * release)) :
  NoDup (map fst releases) ->
  NoDup (map fst (Adoption.load_releases data releases)).
Proof.
  unfold Adoption.load_releases. revert releases.
  induction data as [|[v d] data IH]; intros releases N; [exact N|].
  cbn [fold_left]. apply IH. now apply dict_set_NoDup.
Qed.

(** ** The result mapping of a run *)

Lemma dict_set_In_keys {A : Type} (k k' : string) (v : A)
    (d : list (string * A)) :
  In k (map fst (dict_set k' v d)) <-> In k (map fst d) \/ k = k'.
Proof.
  rewrite dict_set_keys. destruct (has_key k' d) eqn:E.
  - apply has_key_keys in E. split; [tauto|]. now intros [H | ->].
  - rewrite in_app_iff. cbn. split; [intros [H|[H|[]]]|intros [H|H]]; auto.
Qed.

Lemma merge_loop_keys (name : string) (w : world)
    (since_date until_date : datetime) (repos : list Path) :
  forall d d',
    for_each (Multi.merge_result name w since_date until_date) repos d
    = Ok d' ->
    (forall key, In key (map fst d')
                 <-> In key (map fst d) \/ In key (map path_name repos)) /\
    (forall key, In key (map path_name repos) ->
       exists repo res,
         In repo repos /\ path_name repo = key /\
         Multi.track_repo_version_changes name w repo since_date until_date
         = Ok res /\
         lookup key d' = Some res /\ Multi.result_repository res = key) /\
    (forall key, ~ In key (map path_name repos) ->
       lookup key d' = lookup key d) /\
    (List.length d' <= List.length d + List.length repos)%nat.
Proof.
  induction repos as [|repo repos IH]; intros d d'; cbn [for_each].
  - intros [= <-]. cbn. repeat split; try tauto; lia.
  - intros H. apply bind_ok in H as [d1 [M H]].
    apply merge_result_ok in M as [res [T ->]].
    destruct (IH _ _ H) as [K [Inside [Outside Len]]].
    pose proof (proj1 (track_repo_result _ _ _ _ _ _ T)) as R.
    split; [|split; [|split]].
    + intros key. rewrite K, dict_set_In_keys. cbn. intuition congruence.
    + intros key Hk.
      destruct (in_dec string_dec key (map path_name repos)) as [Hin|Hout].
      * destruct (Inside _ Hin) as [repo' [res' [? ?]]].
        exists repo', res'. cbn. tauto.
      * destruct Hk as [<-|Hk]; [|contradiction].
        exists repo, res. rewrite (Outside _ Hout), lookup_dict_set.
        rewrite String.eqb_refl. cbn. auto.
    + intros key Hk. cbn in Hk. rewrite Outside by tauto.
      rewrite lookup_dict_set.
      destruct (String.eqb_spec (path_name repo) key); [tauto|reflexivity].
    + pose proof (dict_set_length (path_name repo) res d). cbn. lia.
Qed.

(** X9.  Whatever the names of the repositories, a run of
    [process_repositories] that returns leaves exactly the keys it found
    and the directory names of its repositories; under each such name
    stands the result of the walk of one repository of that name, whose
    [repository] field is the key, and the other keys keep their value.
    The mapping grows by at most one entry for each repository. *)
Theorem results_keyed_by_directory_name (name : string) (w : world)
    (repos as_completed : list Path) (since_date until_date : datetime)
    (parallel : bool) (d d' : list (string * Multi.repo_result)) :
  Permutation repos as_completed ->
  Multi.process_repositories name w repos since_date until_date parallel
    as_completed d = Ok d' ->
  (forall key, In key (map fst d')
               <-> In key (map fst d) \/ In key (map path_name repos)) /\
  (forall key, In key (map path_name repos) ->
     exists repo res,
       In repo repos /\ path_name repo = key /\
       Multi.track_repo_version_changes name w repo since_date until_date
       = Ok res /\
       lookup key d' = Some res /\ Multi.result_repository res = key) /\
  (forall key, ~ In key (map path_name repos) ->
     lookup key d' = lookup key d) /\
  (List.length d' <= List.length d + List.length repos)%nat.
Proof.
  intros P. unfold Multi.process_repositories.
  destruct (parallel && (1 <? List.length repos)%nat);
    [|apply merge_loop_keys].
  intros H. apply merge_loop_keys in H as [K [Inside [Outside Len]]].
  assert (Names : forall key, In key (map path_name as_completed)
                              <-> In key (map path_name repos)).
  { intros key. split; apply Permutation_in, Permutation_map;
      [symmetry|]; exact P. }
  split; [|split; [|split]].
  - intros key. rewrite K, Names. tauto.
  - intros key Hk. apply Names in Hk.
    destruct (Inside _ Hk) as [repo [res [Hin ?]]].
    exists repo, res. split; [|tauto].
    eapply Permutation_in; [symmetry; exact P|exact Hin].
  - intros key Hk. apply Outside. now rewrite Names.
  - now rewrite (Permutation_length P).
Qed.

Lemma results_keyed_by_directory_name_witness :
  exists d',
    Multi.process_repositories pkg (fun _ => history_repo) same_name_repos
      epoch epoch true (rev same_name_repos) [] = Ok d' /\
    (List.length d' <= 0 + List.length same_name_repos)%nat.
Proof.
  eexists. split; [reflexivity|].
  refine (proj2 (proj2 (proj2
            (results_keyed_by_directory_name pkg (fun _ => history_repo)
               same_name_repos (rev same_name_repos) epoch epoch true [] _
               _ eq_refl)))).
  apply Permutation_rev.
Defined.

(** ** Parsing a version for comparison *)

Lemma split_not_empty (sep : ascii) (s : string) : split sep s <> [].
Proof.
  destruct s as [|c s]; cbn; [discriminate|].
  destruct (Ascii.eqb c sep); [discriminate|].
  destruct (split sep s); discriminate.
Qed.

Lemma int_tuple_length (parts : list string) :
  forall t, int_tuple parts = Some t -> List.length t = List.length parts.
Proof.
  induction parts as [|p parts IH]; cbn; intros t.
  - now intros [= <-].
  - destruct (py_int p); [|discriminate].
    destruct (int_tuple parts) as [t'|]; [|discriminate].
    intros [= <-]. cbn. now rewrite (IH t').
Qed.

Lemma adoption_parse_version_length (version : string) :
  (1 <= List.length (Adoption.parse_version version) <= 3)%nat.
Proof.
  unfold Adoption.parse_version.
  destruct (int_tuple _) as [t|] eqn:E; [|cbn; lia].
  rewrite (int_tuple_length _ _ E), length_firstn.
  pose proof (split_not_empty "." version).
  destruct (split "." version); [contradiction|cbn [List.length]; lia].
Qed.

(** X10.  The tracker's [parse_version] answers for a string what the
    analyzer's answers for that string without its leading range
    characters; a value that is neither a string nor false raises
    [AttributeError], a false one gives (0, 0, 0); and a tuple returned
    has one, two or three components. *)
Theorem parse_version_strips_then_agrees :
  (forall s, MultiAnalysis.parse_version (JStr s)
             = Ok (Adoption.parse_version (lstrip_range s))) /\
  (forall v, (forall s, v <> JStr s) ->
             MultiAnalysis.parse_version v
             = if truthy v then Raise AttributeError else Ok [0; 0; 0]%Z) /\
  (forall v t, MultiAnalysis.parse_version v = Ok t ->
               (1 <= List.length t <= 3)%nat).
Proof.
  assert (S : forall s, MultiAnalysis.parse_version (JStr s)
                        = Ok (Adoption.parse_version (lstrip_range s))).
  { intros s. unfold MultiAnalysis.parse_version, Adoption.parse_version.
    destruct s as [|c s]; [reflexivity|].
    cbn [truthy negb String.eqb].
    now destruct (int_tuple _). }
  split; [exact S|]. split.
  - intros v N. unfold MultiAnalysis.parse_version.
    destruct v as [|b|q|s| |]; try (now destruct (truthy _)).
    now elim (N s).
  - intros v t. destruct v as [|b|q|s|l|m]; try rewrite S;
      unfold MultiAnalysis.parse_version;
      try (destruct (truthy _); cbn; intros [= <-]; cbn; lia).
    intros [= <-]. apply adoption_parse_version_length.
Qed.

(** ** The patterns across repositories *)

Lemma scalar_eq_refl (a : json) : hashable a = true -> py_eq a a = true.
Proof.
  destruct a as [|b|q|s| |]; cbn; try discriminate; intros _.
  - reflexivity.
  - now destruct b.
  - apply Qeq_bool_iff. reflexivity.
  - apply String.eqb_refl.
Qed.

Lemma Qeq_bool_comm (p q : Q) : Qeq_bool p q = Qeq_bool q p.
Proof.
  destruct (Qeq_bool p q) eqn:E, (Qeq_bool q p) eqn:E'; try reflexivity.
  - apply Qeq_bool_iff in E. symmetry in E. apply Qeq_bool_iff in E.
    congruence.
  - apply Qeq_bool_iff in E'. symmetry in E'. apply Qeq_bool_iff in E'.
    congruence.
Qed.

Lemma scalar_eq_comm (a b : json) :
  hashable a = true -> py_eq a b = py_eq b a.
Proof.
  destruct a as [|x|p|s|la|ma], b as [|y|q|t|l|m]; cbn; try discriminate;
    intros _; try reflexivity.
  - now destruct x, y.
  - apply Qeq_bool_comm.
  - apply Qeq_bool_comm.
  - apply Qeq_bool_comm.
  - apply String.eqb_sym.
Qed.

Lemma scalar_eq_hashable (a b : json) :
  hashable a = true -> py_eq a b = true -> hashable b = true.
Proof.
  destruct a, b; cbn; try discriminate; auto.
Qed.

Lemma key_lookup_none {V : Type} (k : json) (v : V) (d : list (json * V)) :
  key_lookup k d = None ->
  Forall (fun item => py_eq (fst item) k = false) d /\
  key_set k v d = (d ++ [(k, v)])%list.
Proof.
  induction d as [|[k0 v0] d IH]; cbn; [auto|].
  destruct (py_eq k0 k) eqn:E; [discriminate|].
  intros H. destruct (IH H) as [F ->]. auto.
Qed.

Lemma key_lookup_some {V : Type} (k : json) (x : V) (d : list (json * V)) :
  key_lookup k d = Some x ->
  exists l1 k0 l2,
    d = (l1 ++ (k0, x) :: l2)%list /\ py_eq k0 k = true /\
    Forall (fun item => py_eq (fst item) k = false) l1 /\
    forall v, key_set k v d = (l1 ++ (k0, v) :: l2)%list.
Proof.
  induction d as [|[k0 v0] d IH]; cbn; [discriminate|].
  destruct (py_eq k0 k) eqn:E.
  - intros [= ->]. exists [], k0, d. cbn. auto.
  - intros H. destruct (IH H) as [l1 [k1 [l2 [-> [E1 [F S]]]]]].
    exists ((k0, v0) :: l1), k1, l2. cbn.
    repeat split; auto. intros v. now rewrite S.
Qed.

Lemma keys_distinct_snoc {V : Type} (d : list (json * V)) (k : json)
    (v : V) :
  keys_distinct d ->
  Forall (fun item => py_eq (fst item) k = false) d ->
  keys_distinct (d ++ [(k, v)]).
Proof.
  unfold keys_distinct. induction 1 as [|a d F _ IH]; cbn; intros H.
  - repeat constructor.
  - apply Forall_cons_iff in H as [Ha H].
    constructor; [|now apply IH].
    apply Forall_app. split; [exact F|]. now constructor.
Qed.

Lemma keys_distinct_middle {V : Type} (l1 l2 : list (json * V))
    (k0 : json) (x : V) :
  keys_distinct (l1 ++ (k0, x) :: l2) ->
  Forall (fun item => py_eq k0 (fst item) = false) l2 /\
  forall x', keys_distinct (l1 ++ (k0, x') :: l2).
Proof.
  unfold keys_distinct. induction l1 as [|a l1 IH]; cbn; intros H;
    inversion H as [|? ? F D]; subst.
  - split; [exact F|]. intros x'. now constructor.
  - destruct (IH D) as [F2 D2]. split; [exact F2|].
    intros x'. constructor; [|apply D2].
    apply Forall_app in F as [F1 F3]. apply Forall_cons_iff in F3 as [? ?].
    apply Forall_app. split; [exact F1|]. now constructor.
Qed.

Lemma set_add_In (x r : string) (s : list string) :
  In r (set_add x s) <-> In r s \/ r = x.
Proof.
  unfold set_add. destruct (existsb (String.eqb x) s) eqn:E.
  - apply existsb_exists in E as [y [Hy E]]. apply String.eqb_eq in E.
    subst y. split; [tauto|]. now intros [H | ->].
  - rewrite in_app_iff. cbn. intuition congruence.
Qed.

Lemma set_add_NoDup (x : string) (s : list string) :
  NoDup s -> NoDup (set_add x s).
Proof.
  intros N. unfold set_add. destruct (existsb (String.eqb x) s) eqn:E;
    [exact N|].
  apply NoDup_app; [exact N|repeat constructor; intros []|].
  intros y Hy [<-|[]].
  assert (existsb (String.eqb x) s = true); [|congruence].
  apply existsb_exists. exists x. split; [exact Hy|apply String.eqb_refl].
Qed.

Lemma seen_by_app (pre : list Multi.change_record)
    (c : Multi.change_record) (k : json) (r : string) :
  seen_by (pre ++ [c]) k r
  <-> seen_by pre k r \/
      (truthy (Multi.effective_version c) = true /\
       py_eq k (Multi.effective_version c) = true /\
       Multi.repository c = r).
Proof.
  unfold seen_by. split.
  - intros [c' [Hin H]]. apply in_app_iff in Hin as [Hin|[<-|[]]];
      [left; eauto|right; exact H].
  - intros [[c' [Hin H]]|H].
    + exists c'. split; [apply in_app_iff; now left|exact H].
    + exists c. split; [apply in_app_iff; right; now left|exact H].
Qed.

Lemma dates_ok_skip (pre : list Multi.change_record)
    (c : Multi.change_record)
    (vd : list (json * MultiAnalysis.version_seen)) :
  truthy (Multi.effective_version c) = false ->
  dates_ok pre vd -> dates_ok (pre ++ [c]) vd.
Proof.
  intros T [D [E C]]. split; [exact D|]. split.
  - intros k info Hin.
    destruct (E k info Hin) as [? [? [? [? [? R]]]]].
    repeat split; auto.
    + intros Hr. apply seen_by_app. left. now apply R.
    + intros Hr. apply seen_by_app in Hr as [Hr|[Tc _]];
        [now apply R|congruence].
  - intros c' Hin Tc. apply in_app_iff in Hin as [Hin|[<-|[]]];
      [now apply C|congruence].
Qed.

Lemma dates_ok_new (pre : list Multi.change_record)
    (c : Multi.change_record)
    (vd : list (json * MultiAnalysis.version_seen)) (d : datetime) :
  let v := Multi.effective_version c in
  truthy v = true -> hashable v = true -> key_lookup v vd = None ->
  dates_ok pre vd ->
  dates_ok (pre ++ [c])
    (key_set v
       (MultiAnalysis.mkSeen d d (Multi.repository c)
          (set_add (Multi.repository c) []))
       vd).
Proof.
  intros v T Hv L [D [E C]].
  destruct (key_lookup_none v
              (MultiAnalysis.mkSeen d d (Multi.repository c)
                 (set_add (Multi.repository c) [])) vd L) as [F ->].
  rewrite Forall_forall in F.
  split; [apply keys_distinct_snoc; [exact D|now apply Forall_forall]|].
  split.
  - intros k info Hin. apply in_app_iff in Hin as [Hin|[[= <- <-]|[]]].
    + destruct (E k info Hin) as [? [? [? [? [? R]]]]].
      repeat split; auto.
      * intros Hr. apply seen_by_app. left. now apply R.
      * intros Hr. apply seen_by_app in Hr as [Hr|[_ [Ek _]]];
          [now apply R|].
        specialize (F _ Hin). cbn in F. fold v in Ek. congruence.
    + cbn [MultiAnalysis.first_seen MultiAnalysis.last_seen
             MultiAnalysis.first_repo MultiAnalysis.seen_repos].
      unfold set_add. cbn [existsb app]. repeat split; auto.
      * apply tuple_lt_irrefl.
      * now left.
      * repeat constructor. intros [].
      * intros [<-|[]]. apply seen_by_app. right.
        repeat split; auto. now apply scalar_eq_refl.
      * intros Hr. apply seen_by_app in Hr as [[c' [Hin [Tc [Ec _]]]]|H];
          [|left; apply H].
        exfalso. destruct (C c' Hin Tc) as [k [info [Hk Ek]]].
        specialize (F _ Hk). cbn in F.
        rewrite (scalar_eq_comm v) in Ec by exact Hv.
        rewrite (py_eq_trans _ _ _ Ek Ec) in F. discriminate.
  - intros c' Hin Tc. apply in_app_iff in Hin as [Hin|[<-|[]]].
    + destruct (C c' Hin Tc) as [k [info [Hk Ek]]].
      exists k, info. split; [apply in_app_iff; now left|exact Ek].
    + eexists v, _. split; [apply in_app_iff; right; now left|].
      now apply scalar_eq_refl.
Qed.

Lemma dates_ok_update (pre : list Multi.change_record)
    (c : Multi.change_record)
    (vd : list (json * MultiAnalysis.version_seen))
    (info info' : MultiAnalysis.version_seen) :
  let v := Multi.effective_version c in
  truthy v = true -> hashable v = true -> key_lookup v vd = Some info ->
  datetime_lt (MultiAnalysis.last_seen info')
    (MultiAnalysis.first_seen info') = false ->
  (MultiAnalysis.first_repo info' = MultiAnalysis.first_repo info \/
   MultiAnalysis.first_repo info' = Multi.repository c) ->
  MultiAnalysis.seen_repos info'
  = set_add (Multi.repository c) (MultiAnalysis.seen_repos info) ->
  dates_ok pre vd ->
  dates_ok (pre ++ [c]) (key_set v info' vd).
Proof.
  intros v T Hv L Hd Hf Hr [D [E C]].
  destruct (key_lookup_some v info vd L) as [l1 [k0 [l2 [-> [E0 [F1 S]]]]]].
  rewrite S. clear S L.
  destruct (keys_distinct_middle l1 l2 k0 info D) as [F2 D'].
  rewrite Forall_forall in F1, F2.
  assert (Old : In (k0, info) (l1 ++ (k0, info) :: l2))
    by (apply in_app_iff; right; now left).
  destruct (E k0 info Old) as [T0 [H0 [_ [Fr0 [N0 R0]]]]].
  assert (Other : forall k i, In (k, i) l1 \/ In (k, i) l2 ->
                              hashable k = true -> py_eq k v = false).
  { intros k i [Hin|Hin] Hk; [exact (F1 _ Hin)|].
    specialize (F2 _ Hin). cbn in F2.
    destruct (py_eq k v) eqn:Ek; [|reflexivity].
    rewrite (scalar_eq_comm k) in Ek by exact Hk.
    rewrite (py_eq_trans _ _ _ E0 Ek) in F2. discriminate. }
  split; [apply D'|]. split.
  - intros k i Hin.
    assert (Cases : In (k, i) l1 \/ In (k, i) l2 \/ (k, i) = (k0, info')).
    { apply in_app_iff in Hin as [Hin|[Hin|Hin]]; auto. }
    destruct Cases as [Hin'|[Hin'|[= -> ->]]].
    + assert (Hold : In (k, i) (l1 ++ (k0, info) :: l2))
        by (apply in_app_iff; now left).
      destruct (E k i Hold) as [? [Hk [? [? [? R]]]]].
      repeat split; auto.
      * intros Hx. apply seen_by_app. left. now apply R.
      * intros Hx. apply seen_by_app in Hx as [Hx|[_ [Ek _]]];
          [now apply R|].
        fold v in Ek. rewrite (Other k i) in Ek; auto. discriminate.
    + assert (Hold : In (k, i) (l1 ++ (k0, info) :: l2))
        by (apply in_app_iff; right; now right).
      destruct (E k i Hold) as [? [Hk [? [? [? R]]]]].
      repeat split; auto.
      * intros Hx. apply seen_by_app. left. now apply R.
      * intros Hx. apply seen_by_app in Hx as [Hx|[_ [Ek _]]];
          [now apply R|].
        fold v in Ek. rewrite (Other k i) in Ek; auto. discriminate.
    + repeat split; auto.
      * rewrite Hr. apply set_add_In. destruct Hf as [-> | ->]; auto.
      * rewrite Hr. now apply set_add_NoDup.
      * rewrite Hr. intros Hx. apply set_add_In in Hx as [Hx | ->];
          apply seen_by_app; [left; now apply R0|right; auto].
      * rewrite Hr. intros Hx. apply set_add_In.
        apply seen_by_app in Hx as [Hx|[_ [_ Hx]]];
          [left; now apply R0|right; now symmetry].
  - assert (Keys : forall k i, In (k, i) (l1 ++ (k0, info) :: l2) ->
                     exists i', In (k, i') (l1 ++ (k0, info') :: l2)).
    { intros k i Hin. apply in_app_iff in Hin as [Hin|[[= <- <-]|Hin]].
      - exists i. apply in_app_iff. now left.
      - exists info'. apply in_app_iff. right. now left.
      - exists i. apply in_app_iff. right. now right. }
    intros c' Hin Tc. apply in_app_iff in Hin as [Hin|[<-|[]]].
    + destruct (C c' Hin Tc) as [k [i [Hk Ek]]].
      destruct (Keys k i Hk) as [i' Hk']. eauto.
    + exists k0, info'. split; [|exact E0].
      apply in_app_iff. right. now left.
Qed.

Section OrderFacts.

Context {A K : Type}.
Variable lt : K -> K -> bool.
Variable key : A -> K.
Hypothesis lt_irrefl : forall a, lt a a = false.
Hypothesis lt_trans :
  forall a b c, lt a b = true -> lt b c = true -> lt a c = true.
Hypothesis lt_total : forall a b, lt a b = false -> lt b a = false -> a = b.

Lemma insert_keeps_order (x : A) (l : list A) :
  StronglySorted (fun a b => lt (key b) (key a) = false) l ->
  StronglySorted (fun a b => lt (key b) (key a) = false)
    (insert_sorted lt key x l).
Proof.
  induction 1 as [|y l S IH F]; cbn; [repeat constructor|].
  destruct (lt (key y) (key x)) eqn:E.
  - constructor; [exact IH|].
    eapply Permutation_Forall; [symmetry; apply insert_sorted_perm|].
    constructor; [|exact F].
    destruct (lt (key x) (key y)) eqn:E'; [|reflexivity].
    rewrite <- (lt_irrefl (key x)). symmetry. eapply lt_trans; eassumption.
  - constructor; [now constructor|].
    constructor; [exact E|].
    eapply Forall_impl; [|exact F]. cbn. intros z Hz.
    destruct (lt (key z) (key x)) eqn:Ez; [|reflexivity].
    destruct (lt (key x) (key y)) eqn:Ex.
    + rewrite <- Hz. symmetry. eapply lt_trans; eassumption.
    + rewrite (lt_total _ _ Ex E) in Ez. congruence.
Qed.

Lemma sorted_in_order (l : list A) :
  StronglySorted (fun a b => lt (key b) (key a) = false) (sorted lt key l).
Proof.
  induction l as [|x l IH]; cbn; [constructor|].
  now apply insert_keeps_order.
Qed.

End OrderFacts.

Lemma StronglySorted_map {A B : Type} (f : A -> B) (R : B -> B -> Prop)
    (l : list A) :
  StronglySorted (fun a b => R (f a) (f b)) l -> StronglySorted R (map f l).
Proof.
  induction 1 as [|x l S IH F]; cbn; constructor; [exact IH|].
  apply Forall_map. exact F.
Qed.

Lemma datetime_lt_irrefl (a : datetime) : datetime_lt a a = false.
Proof. apply tuple_lt_irrefl. Qed.

Lemma datetime_lt_trans (a b c : datetime) :
  datetime_lt a b = true -> datetime_lt b c = true -> datetime_lt a c = true.
Proof. apply tuple_lt_trans. Qed.

Lemma datetime_lt_total (a b : datetime) :
  datetime_lt a b = false -> datetime_lt b a = false -> a = b.
Proof.
  intros H1 H2. pose proof (tuple_lt_total _ _ H1 H2) as E.
  destruct a, b. cbn in E. now injection E as -> -> -> -> -> -> ->.
Qed.

Lemma for_each_prefix_invariant {S A : Type} (body : S -> A -> result S)
    (I : list A -> S -> Prop) :
  (forall pre s x s', body s x = Ok s' -> I pre s -> I (pre ++ [x]) s') ->
  forall items pre s s',
    for_each body items s = Ok s' -> I pre s -> I (pre ++ items) s'.
Proof.
  intros Hstep items.
  induction items as [|x items IH]; intros pre s s'; cbn [for_each].
  - intros [= <-]. now rewrite app_nil_r.
  - intros H Hs. apply bind_ok in H as [s1 [B H]].
    change (x :: items) with ([x] ++ items)%list. rewrite app_assoc.
    eapply IH; [exact H|]. eapply Hstep; eassumption.
Qed.

Section PatternFacts.

Variable strptime : string -> result datetime.
Variable now : nat -> datetime.

Lemma see_change_ok (pre : list Multi.change_record)
    (st st' : list (json * MultiAnalysis.version_seen) * nat)
    (c : Multi.change_record) :
  MultiAnalysis.see_change strptime now st c = Ok st' ->
  dates_ok pre (fst st) -> dates_ok (pre ++ [c]) (fst st').
Proof.
  destruct st as [vd clock]. unfold MultiAnalysis.see_change. cbn [fst].
  destruct (truthy (Multi.effective_version c)) eqn:T; cbn [negb].
  - intros H. apply bind_ok in H as [[d clock1] [_ H]].
    destruct (hashable (Multi.effective_version c)) eqn:Hv; cbn [negb] in H;
      [|discriminate].
    injection H as <-. cbn [fst]. intros I.
    destruct (key_lookup (Multi.effective_version c) vd) as [info|] eqn:L.
    + destruct (key_lookup_some _ _ _ L) as [l1 [k0 [l2 [E _]]]].
      assert (Hin : In (k0, info) vd)
        by (rewrite E; apply in_app_iff; right; now left).
      destruct (proj1 (proj2 I) k0 info Hin) as [_ [_ [Hd _]]].
      eapply dates_ok_update; eauto;
        destruct (datetime_lt d (MultiAnalysis.first_seen info)) eqn:E1;
        cbn [MultiAnalysis.first_seen MultiAnalysis.last_seen
             MultiAnalysis.first_repo MultiAnalysis.seen_repos];
        destruct (datetime_lt (MultiAnalysis.last_seen info) d) eqn:E2;
        cbn [MultiAnalysis.first_seen MultiAnalysis.last_seen
             MultiAnalysis.first_repo MultiAnalysis.seen_repos];
        auto using datetime_lt_irrefl.
    + now apply dates_ok_new.
  - intros [= <-]. now apply dates_ok_skip.
Qed.

Lemma see_results_flat (rs : list (string * Multi.repo_result)) :
  forall vd cv clock st,
    for_each (MultiAnalysis.see_result strptime now) (map snd rs)
      (vd, cv, clock) = Ok st ->
    for_each (MultiAnalysis.see_change strptime now) (analysed_changes rs)
      (vd, clock) = Ok (fst (fst st), snd st) /\
    snd (fst st) = fold_left add_current (map snd rs) cv.
Proof.
  induction rs as [|[key res] rs IH]; intros vd cv clock st;
    cbn [map for_each snd].
  - intros [= <-]. cbn. auto.
  - unfold analysed_changes. cbn [flat_map snd fold_left].
    fold (analysed_changes rs).
    unfold MultiAnalysis.see_result at 1, add_current at 2.
    destruct (Multi.error res); cbn [bind app].
    + apply IH.
    + intros H. apply bind_ok in H as [st1 [H1 H]].
      apply bind_ok in H1 as [[vd1 clock1] [H1 [= <-]]].
      rewrite for_each_app, H1. cbn [bind fst snd] in *.
      now apply IH.
Qed.

End PatternFacts.

Lemma ordered_pairs_perm {A : Type} (R : A -> A -> Prop) (l l' : list A) :
  (forall a b, R a b -> R b a) ->
  Permutation l l' -> ForallOrdPairs R l -> ForallOrdPairs R l'.
Proof.
  intros Sym. induction 1 as [|x l l' P IH|x y l|l l' l'' P IH P' IH'];
    intros H; auto.
  - inversion H as [|? ? F D]; subst.
    constructor; [|now apply IH]. eapply Permutation_Forall; eassumption.
  - inversion H as [|? ? F D]; subst.
    inversion D as [|? ? F' D']; subst.
    apply Forall_cons_iff in F as [Ryx F].
    repeat constructor; auto.
Qed.

Lemma ordered_pairs_impl {A B : Type} (f : A -> B) (R : A -> A -> Prop)
    (R' : B -> B -> Prop) (l : list A) :
  (forall a b, In a l -> In b l -> R a b -> R' (f a) (f b)) ->
  ForallOrdPairs R l -> ForallOrdPairs R' (map f l).
Proof.
  intros Imp H. induction H as [|x l F D IH]; cbn; constructor.
  - apply Forall_map. rewrite Forall_forall in *. intros y Hy.
    apply Imp; [now left|now right|now apply F].
  - apply IH. intros a b Ha Hb. apply Imp; now right.
Qed.

Lemma keys_distinct_perm {V W : Type} (f : json * V -> json * W)
    (d d' : list (json * V)) :
  (forall item, fst (f item) = fst item) ->
  Forall (fun item => hashable (fst item) = true) d ->
  Permutation d d' -> keys_distinct d -> keys_distinct (map f d').
Proof.
  intros Hf Hd P D. unfold keys_distinct in *.
  apply (ordered_pairs_impl f
           (fun a b => py_eq (fst a) (fst b) = false /\
                       py_eq (fst b) (fst a) = false)).
  { intros a b _ _ [H _]. now rewrite !Hf. }
  apply (ordered_pairs_perm _ d d'); [tauto|exact P|].
  rewrite <- (map_id d).
  apply (ordered_pairs_impl (fun x => x)
           (fun a b => py_eq (fst a) (fst b) = false)); [|exact D].
  rewrite Forall_forall in Hd.
  intros a b Ha Hb H. split; [exact H|].
  rewrite scalar_eq_comm; [exact H|now apply Hd].
Qed.

(** The parts of a returned analysis. *)
Lemma analyze_ok (strptime : string -> result datetime)
    (now : nat -> datetime) (clock clock' : nat)
    (rs : list (string * Multi.repo_result)) (p : MultiAnalysis.patterns) :
  MultiAnalysis.analyze_adoption_patterns strptime now clock rs
  = Ok (p, clock') ->
  exists vd,
    for_each (MultiAnalysis.see_change strptime now) (analysed_changes rs)
      ([], clock) = Ok (vd, clock') /\
    MultiAnalysis.version_timeline p
    = map (fun item =>
             (fst item,
              MultiAnalysis.mkTimeline
                (MultiAnalysis.first_seen (snd item))
                (MultiAnalysis.first_repo (snd item))
                (List.length (MultiAnalysis.seen_repos (snd item)))
                (MultiAnalysis.seen_repos (snd item))))
        (sorted datetime_lt
           (fun item => MultiAnalysis.first_seen (snd item)) vd) /\
    MultiAnalysis.adoption_speed p
    = flat_map
        (fun item =>
           if (1 <? List.length (MultiAnalysis.seen_repos (snd item)))%nat
           then [(fst item,
                  MultiAnalysis.mkSpeed
                    (days_between (MultiAnalysis.last_seen (snd item))
                       (MultiAnalysis.first_seen (snd item)))
                    (List.length (MultiAnalysis.seen_repos (snd item))))]
           else [])
        vd /\
    for_each MultiAnalysis.count_version
      (map snd (current_versions_of rs)) []
    = Ok (MultiAnalysis.version_distribution p) /\
    MultiAnalysis.find_laggards (MultiAnalysis.version_distribution p)
      (current_versions_of rs)
    = Ok (MultiAnalysis.laggards p) /\
    MultiAnalysis.early_adopters p = [].
Proof.
  unfold MultiAnalysis.analyze_adoption_patterns. intros H.
  apply bind_ok in H as [[[vd cv] c] [L H]].
  apply see_results_flat in L as [L Ecv]. cbn [fst snd] in L, Ecv.
  fold (current_versions_of rs) in Ecv. subst cv.
  apply bind_ok in H as [counts [Hc H]].
  apply bind_ok in H as [found [Hf [= <- <-]]].
  exists vd. cbn. repeat split; assumption.
Qed.

(** X11.  In a returned analysis every version of the timeline is a true
    value listed once, with the repositories that have a change record
    to it among the results without an error: [total_repos] is their
    number and [first_repo] is one of them; every such version is
    listed, and the timeline is in the order of [first_seen].  The
    versions with an adoption speed are those of the timeline with more
    than one repository, and [early_adopters] stays empty. *)
Theorem timeline_lists_adopting_repositories
    (strptime : string -> result datetime) (now : nat -> datetime)
    (clock clock' : nat) (rs : list (string * Multi.repo_result))
    (p : MultiAnalysis.patterns) :
  MultiAnalysis.analyze_adoption_patterns strptime now clock rs
  = Ok (p, clock') ->
  let timeline := MultiAnalysis.version_timeline p in
  keys_distinct timeline /\
  (forall k e, In (k, e) timeline ->
     truthy k = true /\
     MultiAnalysis.total_repos e
     = List.length (MultiAnalysis.timeline_repos e) /\
     NoDup (MultiAnalysis.timeline_repos e) /\
     In (MultiAnalysis.timeline_first_repo e)
       (MultiAnalysis.timeline_repos e) /\
     forall r, In r (MultiAnalysis.timeline_repos e)
               <-> seen_by (analysed_changes rs) k r) /\
  (forall c, In c (analysed_changes rs) ->
     truthy (Multi.effective_version c) = true ->
     exists k e,
       In (k, e) timeline /\ py_eq k (Multi.effective_version c) = true) /\
  StronglySorted
    (fun a b => datetime_lt (MultiAnalysis.timeline_first_seen (snd b))
                  (MultiAnalysis.timeline_first_seen (snd a)) = false)
    timeline /\
  (forall k s, In (k, s) (MultiAnalysis.adoption_speed p) ->
     (2 <= MultiAnalysis.repos_adopted s)%nat /\
     exists e, In (k, e) timeline /\
               MultiAnalysis.total_repos e = MultiAnalysis.repos_adopted s) /\
  (forall k e, In (k, e) timeline ->
     (2 <= MultiAnalysis.total_repos e)%nat ->
     exists s, In (k, s) (MultiAnalysis.adoption_speed p)) /\
  MultiAnalysis.early_adopters p = [].
Proof.
  intros H timeline.
  destruct (analyze_ok _ _ _ _ _ _ H) as [vd [L [Et [Es [_ [_ Ee]]]]]].
  assert (I : dates_ok ([] ++ analysed_changes rs) vd).
  { apply (for_each_prefix_invariant
             (MultiAnalysis.see_change strptime now)
             (fun pre st => dates_ok pre (fst st))
             (fun pre s x s' => see_change_ok strptime now pre s s' x)
             _ [] _ _ L).
    split; [constructor|]. split; [intros ? ? []|intros ? []]. }
  cbn [app] in I. destruct I as [D [E C]].
  set (entry := fun item : json * MultiAnalysis.version_seen =>
         (fst item,
          MultiAnalysis.mkTimeline (MultiAnalysis.first_seen (snd item))
            (MultiAnalysis.first_repo (snd item))
            (List.length (MultiAnalysis.seen_repos (snd item)))
            (MultiAnalysis.seen_repos (snd item)))) in *.
  set (ordered := sorted datetime_lt
         (fun item => MultiAnalysis.first_seen (snd item)) vd) in *.
  assert (In_timeline : forall k e, In (k, e) timeline <->
            exists info, In (k, info) vd /\ entry (k, info) = (k, e)).
  { intros k e. subst timeline. rewrite Et, in_map_iff. split.
    - intros [[k' info] [Eq Hin]]. unfold entry in Eq. cbn [fst snd] in Eq.
      injection Eq as -> <-. exists info.
      split; [|reflexivity]. now apply sorted_In in Hin.
    - intros [info [Hin Eq]]. exists (k, info).
      split; [exact Eq|]. now apply sorted_In. }
  split; [|split; [|split; [|split; [|split; [|split]]]]].
  - subst timeline. rewrite Et.
    apply (keys_distinct_perm entry vd ordered); auto.
    + apply Forall_forall. intros [k info] Hin. now apply (E k info).
    + symmetry. apply sorted_perm.
  - intros k e Hin. apply In_timeline in Hin as [info [Hin [= <-]]].
    destruct (E k info Hin) as [? [? [? [? [? ?]]]]]. cbn. auto.
  - intros c Hin T. destruct (C c Hin T) as [k [info [Hk Ek]]].
    exists k, (snd (entry (k, info))). split; [|exact Ek].
    apply In_timeline. now exists info.
  - subst timeline. rewrite Et. apply StronglySorted_map. cbn.
    apply (sorted_in_order datetime_lt _ datetime_lt_irrefl
             datetime_lt_trans datetime_lt_total).
  - intros k s Hin. rewrite Es in Hin.
    apply in_flat_map in Hin as [[k' info] [Hin Hs]]. cbn [fst snd] in Hs.
    destruct (1 <? _)%nat eqn:E1; [|destruct Hs].
    destruct Hs as [[= -> <-]|[]]. cbn. apply Nat.ltb_lt in E1.
    split; [lia|]. exists (snd (entry (k, info))). split; [|reflexivity].
    apply In_timeline. now exists info.
  - intros k e Hin Two. apply In_timeline in Hin as [info [Hin [= <-]]].
    cbn in Two. eexists. rewrite Es. apply in_flat_map.
    exists (k, info). split; [exact Hin|]. cbn [fst snd].
    replace (1 <? _)%nat with true; [now left|].
    symmetry. apply Nat.ltb_lt. lia.
  - exact Ee.
Qed.

Lemma fleet_analysis :
  MultiAnalysis.analyze_adoption_patterns fleet_strptime (fun _ => epoch)
    0 fleet_results = Ok (fleet_patterns, 0%nat).
Proof. vm_compute. reflexivity. Qed.

Lemma timeline_lists_adopting_repositories_witness :
  map fst (MultiAnalysis.version_timeline fleet_patterns)
  = [JStr "1.0.0"; JStr "1.1.0"; JStr "2.0.0"] /\
  map fst (MultiAnalysis.adoption_speed fleet_patterns) = [JStr "1.1.0"] /\
  MultiAnalysis.early_adopters fleet_patterns = [].
Proof.
  split; [vm_compute; reflexivity|]. split; [vm_compute; reflexivity|].
  exact (proj2 (proj2 (proj2 (proj2 (proj2 (proj2
           (timeline_lists_adopting_repositories fleet_strptime
              (fun _ => epoch) 0%nat 0%nat fleet_results fleet_patterns
              fleet_analysis))))))).
Defined.

(** ** The current versions and who lags behind *)

Lemma dict_set_Forall {A : Type} (P : string * A -> Prop) (k : string)
    (v : A) (d : list (string * A)) :
  Forall P d -> (forall k', P (k', v)) -> Forall P (dict_set k v d).
Proof.
  intros F Hv. induction F as [|[k0 v0] d H F IH]; cbn.
  - constructor; [apply Hv|constructor].
  - destruct (k0 =? k); constructor; auto.
Qed.

Lemma current_versions_truthy (rs : list (string * Multi.repo_result)) :
  Forall (fun item => truthy (snd item) = true) (current_versions_of rs).
Proof.
  unfold current_versions_of.
  assert (G : forall (l : list Multi.repo_result) cv,
            Forall (fun item : string * json => truthy (snd item) = true) cv ->
            Forall (fun item => truthy (snd item) = true)
              (fold_left add_current l cv)); [|now apply G].
  induction l as [|res l IH]; intros cv F; cbn; [exact F|].
  apply IH. unfold add_current.
  destruct (Multi.error res); [exact F|].
  destruct (Multi.completed res) as [cur|]; [|exact F].
  destruct (truthy (Multi.current_version cur)) eqn:T; [|exact F].
  apply dict_set_Forall; [exact F|]. intros k'. exact T.
Qed.

Lemma filter_snoc {A : Type} (f : A -> bool) (l : list A) (x : A) :
  filter f (l ++ [x]) = (filter f l ++ if f x then [x] else [])%list.
Proof. rewrite filter_app. cbn. now destruct (f x). Qed.

Lemma list_sum_middle {K : Type} (l1 l2 : list (K * nat)) (k : K)
    (n m : nat) :
  (list_sum (map snd (l1 ++ (k, n) :: l2)) + m
   = list_sum (map snd (l1 ++ (k, n + m) :: l2)))%nat.
Proof. rewrite !map_app, !list_sum_app. cbn. lia. Qed.

Lemma count_version_ok (pre : list json) (counts counts' : list (json * nat))
    (v : json) :
  MultiAnalysis.count_version counts v = Ok counts' ->
  counts_ok pre counts -> counts_ok (pre ++ [v]) counts'.
Proof.
  unfold MultiAnalysis.count_version.
  destruct (hashable v) eqn:Hv; cbn [negb]; [|discriminate].
  intros [= <-] [D [E [C S]]].
  destruct (key_lookup v counts) as [n|] eqn:L.
  - destruct (key_lookup_some v n counts L) as [l1 [k0 [l2 [-> [E0 [F1 K]]]]]].
    rewrite K. clear K L.
    destruct (keys_distinct_middle l1 l2 k0 n D) as [F2 D'].
    rewrite Forall_forall in F1, F2.
    assert (Old : In (k0, n) (l1 ++ (k0, n) :: l2))
      by (apply in_app_iff; right; now left).
    assert (Other : forall k i, In (k, i) l1 \/ In (k, i) l2 ->
                                hashable k = true -> py_eq k v = false).
    { intros k i [Hin|Hin] Hk; [exact (F1 _ Hin)|].
      specialize (F2 _ Hin). cbn in F2.
      destruct (py_eq k v) eqn:Ek; [|reflexivity].
      rewrite (scalar_eq_comm k) in Ek by exact Hk.
      rewrite (py_eq_trans _ _ _ E0 Ek) in F2. discriminate. }
    split; [apply D'|]. split; [|split].
    + intros k i Hin.
      assert (Cases : In (k, i) l1 \/ In (k, i) l2
                      \/ (k, i) = (k0, (n + 1)%nat)).
      { apply in_app_iff in Hin as [Hin|[Hin|Hin]]; auto. }
      rewrite filter_snoc, length_app, in_app_iff.
      destruct Cases as [Hin'|[Hin'|[= -> ->]]].
      * destruct (E k i) as [Hk [Hs Hn]]; [apply in_app_iff; now left|].
        rewrite (Other k i) by auto. cbn [List.length].
        split; [exact Hk|]. split; [auto|lia].
      * destruct (E k i) as [Hk [Hs Hn]];
          [apply in_app_iff; right; now right|].
        rewrite (Other k i) by auto. cbn [List.length].
        split; [exact Hk|]. split; [auto|lia].
      * destruct (E k0 n Old) as [Hk [Hs Hn]]. rewrite E0.
        cbn [List.length]. split; [exact Hk|]. split; [auto|lia].
    + assert (Keys : forall k i, In (k, i) (l1 ++ (k0, n) :: l2) ->
                       exists i', In (k, i') (l1 ++ (k0, (n + 1)%nat) :: l2)).
      { intros k i Hin. apply in_app_iff in Hin as [Hin|[[= <- <-]|Hin]].
        - exists i. apply in_app_iff. now left.
        - exists (n + 1)%nat. apply in_app_iff. right. now left.
        - exists i. apply in_app_iff. right. now right. }
      intros v' Hin. apply in_app_iff in Hin as [Hin|[<-|[]]].
      * destruct (C v' Hin) as [k [i [Hk Ek]]].
        destruct (Keys k i Hk) as [i' Hk']. eauto.
      * exists k0, (n + 1)%nat. split; [|exact E0].
        apply in_app_iff. right. now left.
    + rewrite <- list_sum_middle, S, length_app. reflexivity.
  - destruct (key_lookup_none v 1%nat counts L) as [F ->].
    rewrite Forall_forall in F.
    assert (Fresh : filter (py_eq v) pre = []).
    { apply filter_none. intros v' Hin.
      destruct (py_eq v v') eqn:Ev; [|reflexivity].
      destruct (C v' Hin) as [k [i [Hk Ek]]].
      specialize (F _ Hk). cbn in F.
      rewrite (scalar_eq_comm v) in Ev by exact Hv.
      rewrite (py_eq_trans _ _ _ Ek Ev) in F. discriminate. }
    split; [apply keys_distinct_snoc; [exact D|now apply Forall_forall]|].
    split; [|split].
    + intros k i Hin. rewrite filter_snoc, length_app, in_app_iff.
      apply in_app_iff in Hin as [Hin|[[= <- <-]|[]]].
      * destruct (E k i Hin) as [Hk [Hs Hn]].
        specialize (F _ Hin). cbn in F. rewrite F. cbn [List.length].
        split; [exact Hk|]. split; [auto|lia].
      * rewrite Fresh, (scalar_eq_refl v Hv). cbn. auto.
    + intros v' Hin. apply in_app_iff in Hin as [Hin|[<-|[]]].
      * destruct (C v' Hin) as [k [i [Hk Ek]]].
        exists k, i. split; [apply in_app_iff; now left|exact Ek].
      * exists v, 1%nat.
        split; [apply in_app_iff; right; now left|].
        now apply scalar_eq_refl.
    + rewrite map_app, list_sum_app, S, length_app. reflexivity.
Qed.

Lemma count_versions_ok (vs : list json) (counts : list (json * nat)) :
  for_each MultiAnalysis.count_version vs [] = Ok counts ->
  counts_ok vs counts.
Proof.
  intros H.
  apply (for_each_prefix_invariant MultiAnalysis.count_version counts_ok
           (fun pre s x s' => count_version_ok pre s s' x) _ [] _ _ H).
  split; [constructor|]. split; [intros ? ? []|]. split; [intros ? []|].
  reflexivity.
Qed.

Lemma parse_keys_from (keys : list json) :
  forall acc parsed,
    for_each (fun parsed key =>
                t <- MultiAnalysis.parse_version key ;;
                Ok (parsed ++ [(key, t)])%list)
      keys acc = Ok parsed ->
    exists new,
      parsed = (acc ++ new)%list /\ map fst new = keys /\
      Forall (fun kt => MultiAnalysis.parse_version (fst kt) = Ok (snd kt))
        new.
Proof.
  induction keys as [|key keys IH]; intros acc parsed; cbn [for_each].
  - intros [= <-]. exists []. rewrite app_nil_r. auto.
  - intros H. apply bind_ok in H as [acc1 [B H]].
    apply bind_ok in B as [t [P [= <-]]].
    destruct (IH _ _ H) as [new [-> [<- F]]].
    exists ((key, t) :: new). rewrite <- app_assoc. cbn. auto.
Qed.

Lemma max_from_greatest {A : Type} (items : list (A * list Z)) :
  forall best,
    exists m,
      In m (best :: items) /\ max_from best items = fst m /\
      forall item, In item (best :: items) ->
                   tuple_lt (snd m) (snd item) = false.
Proof.
  induction items as [|item items IH]; intros best; cbn [max_from].
  - exists best. split; [now left|]. split; [reflexivity|].
    intros ? [<-|[]]. apply tuple_lt_irrefl.
  - destruct (tuple_lt (snd best) (snd item)) eqn:E.
    + destruct (IH item) as [m [Hin [Em G]]].
      exists m. split; [now right|]. split; [exact Em|].
      intros x [<-|Hx]; [|now apply G].
      destruct (tuple_lt (snd m) (snd best)) eqn:E'; [|reflexivity].
      rewrite <- (G item (or_introl eq_refl)). symmetry.
      eapply tuple_lt_trans; eassumption.
    + destruct (IH best) as [m [Hin [Em G]]].
      exists m. split; [destruct Hin; [now left|right; now right]|].
      split; [exact Em|].
      intros x [<-|[<-|Hx]];
        [apply G; now left| |apply G; now right].
      destruct (tuple_lt (snd m) (snd item)) eqn:E'; [|reflexivity].
      pose proof (G best (or_introl eq_refl)) as Gb.
      destruct (tuple_lt (snd item) (snd best)) eqn:E''.
      * rewrite <- Gb. symmetry. eapply tuple_lt_trans; eassumption.
      * rewrite (tuple_lt_total _ _ E E'') in Gb. congruence.
Qed.

Lemma parse_version_truthy (k : json) (t : list Z) :
  truthy k = true -> MultiAnalysis.parse_version k = Ok t ->
  exists s, k = JStr s /\ s <> "".
Proof.
  unfold MultiAnalysis.parse_version. intros T. rewrite T. cbn [negb].
  destruct k as [|b|q|s|l|m]; try discriminate. intros _.
  exists s. split; [reflexivity|]. intros ->. discriminate.
Qed.

Lemma filter_map_length {A B : Type} (f : B -> bool) (g : A -> B)
    (l : list A) :
  List.length (filter f (map g l))
  = List.length (filter (fun x => f (g x)) l).
Proof.
  induction l as [|x l IH]; cbn; [reflexivity|].
  destruct (f (g x)); cbn; now rewrite IH.
Qed.

Lemma flat_map_filter {A B : Type} (f : A -> bool) (g : A -> B)
    (l : list A) :
  flat_map (fun x => if f x then [g x] else []) l = map g (filter f l).
Proof.
  induction l as [|x l IH]; cbn; [reflexivity|].
  destruct (f x); cbn; now rewrite IH.
Qed.

(** What a returned analysis says of the current versions. *)
Lemma analysed_versions (strptime : string -> result datetime)
    (now : nat -> datetime) (clock clock' : nat)
    (rs : list (string * Multi.repo_result)) (p : MultiAnalysis.patterns) :
  MultiAnalysis.analyze_adoption_patterns strptime now clock rs
  = Ok (p, clock') ->
  counts_ok (map snd (current_versions_of rs))
    (MultiAnalysis.version_distribution p) /\
  exists parsed,
    map fst parsed = map fst (MultiAnalysis.version_distribution p) /\
    Forall (fun kt => MultiAnalysis.parse_version (fst kt) = Ok (snd kt))
      parsed /\
    MultiAnalysis.laggards p
    = match parsed with
      | [] => []
      | first :: rest =>
          map (fun item =>
                 MultiAnalysis.mkLaggard (fst item) (snd item)
                   (max_from first rest))
            (filter (fun item => py_ne (snd item) (max_from first rest))
               (current_versions_of rs))
      end.
Proof.
  intros H.
  destruct (analyze_ok _ _ _ _ _ _ H) as [_ [_ [_ [_ [Hc [Hf _]]]]]].
  split; [now apply count_versions_ok|].
  unfold MultiAnalysis.find_laggards in Hf.
  apply bind_ok in Hf as [parsed [P Hf]].
  apply parse_keys_from in P as [new [-> [K F]]]. cbn [app] in Hf.
  exists new. split; [exact K|]. split; [exact F|].
  destruct new as [|first rest]; injection Hf as <-; [reflexivity|].
  apply flat_map_filter.
Qed.

Lemma distribution_keys_text (strptime : string -> result datetime)
    (now : nat -> datetime) (clock clock' : nat)
    (rs : list (string * Multi.repo_result)) (p : MultiAnalysis.patterns) :
  MultiAnalysis.analyze_adoption_patterns strptime now clock rs
  = Ok (p, clock') ->
  forall k n, In (k, n) (MultiAnalysis.version_distribution p) ->
              exists s, k = JStr s /\ s <> "".
Proof.
  intros H k n Hin.
  destruct (analysed_versions _ _ _ _ _ _ H)
    as [[_ [E _]] [parsed [K [F _]]]].
  destruct (E k n Hin) as [_ [Hk _]].
  apply in_map_iff in Hk as [[repo v] [<- Hv]].
  pose proof (current_versions_truthy rs) as T.
  rewrite Forall_forall in T. specialize (T _ Hv).
  assert (Hp : In (snd (repo, v)) (map fst parsed)).
  { rewrite K. apply in_map_iff. now exists (snd (repo, v), n). }
  apply in_map_iff in Hp as [[k' t] [Ek Hp]].
  rewrite Forall_forall in F. specialize (F _ Hp).
  cbn [fst snd] in *. subst k'. eapply parse_version_truthy; eassumption.
Qed.

(** X12.  When the analysis returns, every current version it read is a
    non-empty string; [version_distribution] has one key for each
    distinct one, holding the number of repositories on it, so the
    counts are positive and add up to the number of repositories with a
    current version. *)
Theorem distribution_counts_current_versions
    (strptime : string -> result datetime) (now : nat -> datetime)
    (clock clock' : nat) (rs : list (string * Multi.repo_result))
    (p : MultiAnalysis.patterns) :
  MultiAnalysis.analyze_adoption_patterns strptime now clock rs
  = Ok (p, clock') ->
  let current := current_versions_of rs in
  let distribution := MultiAnalysis.version_distribution p in
  (forall repo v, In (repo, v) current ->
     (exists s, v = JStr s /\ s <> "") /\
     exists n, In (v, n) distribution) /\
  keys_distinct distribution /\
  (forall k n, In (k, n) distribution ->
     (1 <= n)%nat /\
     n = List.length (filter (fun item => py_eq k (snd item)) current)) /\
  list_sum (map snd distribution) = List.length current.
Proof.
  intros H current distribution.
  pose proof (distribution_keys_text _ _ _ _ _ _ H) as Text.
  destruct (analysed_versions _ _ _ _ _ _ H) as [[D [E [C S]]] _].
  fold current distribution in D, E, C, S, Text.
  split; [|split; [exact D|split]].
  - intros repo v Hin.
    destruct (C v) as [k [n [Hk Ek]]];
      [apply in_map_iff; now exists (repo, v)|].
    destruct (Text k n Hk) as [s [-> Hs]].
    destruct v; try discriminate. apply String.eqb_eq in Ek. subst.
    split; eauto.
  - intros k n Hin. destruct (E k n Hin) as [Hk [Hs ->]].
    rewrite filter_map_length. split; [|reflexivity].
    apply in_map_iff in Hs as [item [<- Hs]].
    assert (Hf : In item (filter (fun x => py_eq (snd item) (snd x))
                            current)).
    { apply filter_In. split; [exact Hs|now apply scalar_eq_refl]. }
    destruct (filter _ current); [destruct Hf|cbn; lia].
  - now rewrite S, length_map.
Qed.

Lemma distribution_counts_current_versions_witness :
  MultiAnalysis.version_distribution fleet_patterns
  = [(JStr "2.0.0", 1%nat); (JStr "1.1.0", 1%nat)] /\
  list_sum (map snd (MultiAnalysis.version_distribution fleet_patterns))
  = List.length (current_versions_of fleet_results).
Proof.
  split; [vm_compute; reflexivity|].
  exact (proj2 (proj2 (proj2
           (distribution_counts_current_versions fleet_strptime
              (fun _ => epoch) 0%nat 0%nat fleet_results fleet_patterns
              fleet_analysis)))).
Defined.

(** X13.  When the analysis returns and some repository has a current
    version, the latest version is a key of the distribution whose
    parsed tuple no other key's exceeds; the laggards are, in order, the
    repositories whose current version differs from it, each listed with
    its own version and the latest; and they are all the repositories
    with a current version but those counted under the latest.  Without
    any current version there is no distribution and no laggard. *)
Theorem laggards_are_behind_latest
    (strptime : string -> result datetime) (now : nat -> datetime)
    (clock clock' : nat) (rs : list (string * Multi.repo_result))
    (p : MultiAnalysis.patterns) :
  MultiAnalysis.analyze_adoption_patterns strptime now clock rs
  = Ok (p, clock') ->
  let current := current_versions_of rs in
  let distribution := MultiAnalysis.version_distribution p in
  match current with
  | [] => distribution = [] /\ MultiAnalysis.laggards p = []
  | _ :: _ =>
      exists latest t n,
        In (latest, n) distribution /\
        MultiAnalysis.parse_version latest = Ok t /\
        (forall k m, In (k, m) distribution ->
           exists t', MultiAnalysis.parse_version k = Ok t' /\
                      tuple_lt t t' = false) /\
        MultiAnalysis.laggards p
        = map (fun item =>
                 MultiAnalysis.mkLaggard (fst item) (snd item) latest)
            (filter (fun item => py_ne (snd item) latest) current) /\
        (List.length (MultiAnalysis.laggards p) + n
         = List.length current)%nat
  end.
Proof.
  intros H current distribution.
  destruct (analysed_versions _ _ _ _ _ _ H)
    as [[D [E [C S]]] [parsed [K [F L]]]].
  fold current distribution in D, E, C, S, K.
  rewrite length_map in S. rewrite Forall_forall in F.
  destruct parsed as [|first rest].
  - destruct distribution; [|discriminate]. cbn in S.
    destruct current; [auto|discriminate].
  - destruct current as [|item current'] eqn:Ecur.
    { destruct distribution as [|[k n] distribution'];
        [discriminate|].
      destruct (E k n (or_introl eq_refl)) as [_ [[] _]]. }
    rewrite <- Ecur in *. clear Ecur item current'.
    destruct (max_from_greatest rest first) as [m [Hm [Em G]]].
    rewrite Em in L.
    assert (Hk : In (fst m) (map fst distribution))
      by (rewrite <- K; now apply in_map).
    apply in_map_iff in Hk as [[latest n] [El Hn]]. cbn [fst] in El.
    subst latest. exists (fst m), (snd m), n.
    split; [exact Hn|]. split; [now apply F|]. split; [|split].
    + intros k j Hin.
      assert (Hp : In k (map fst (first :: rest)))
        by (rewrite K; apply in_map_iff; now exists (k, j)).
      apply in_map_iff in Hp as [kt [<- Hp]].
      exists (snd kt). split; [now apply F|now apply G].
    + exact L.
    + rewrite L, length_map. destruct (E _ _ Hn) as [Hh [_ ->]].
      rewrite filter_map_length, Nat.add_comm.
      rewrite <- (filter_length (fun item => py_eq (fst m) (snd item))
                    current).
      f_equal. f_equal. apply filter_ext. intros item.
      unfold py_ne. now rewrite (scalar_eq_comm (fst m)).
Qed.

Lemma laggards_are_behind_latest_witness :
  map MultiAnalysis.laggard_repository
    (MultiAnalysis.laggards fleet_patterns) = ["lib"] /\
  match current_versions_of fleet_results with
  | [] =>
      MultiAnalysis.version_distribution fleet_patterns = [] /\
      MultiAnalysis.laggards fleet_patterns = []
  | _ :: _ =>
      exists latest t n,
        In (latest, n) (MultiAnalysis.version_distribution fleet_patterns) /\
        MultiAnalysis.parse_version latest = Ok t /\
        (forall k m,
           In (k, m) (MultiAnalysis.version_distribution fleet_patterns) ->
           exists t', MultiAnalysis.parse_version k = Ok t' /\
                      tuple_lt t t' = false) /\
        MultiAnalysis.laggards fleet_patterns
        = map (fun item =>
                 MultiAnalysis.mkLaggard (fst item) (snd item) latest)
            (filter (fun item => py_ne (snd item) latest)
               (current_versions_of fleet_results)) /\
        (List.length (MultiAnalysis.laggards fleet_patterns) + n
         = List.length (current_versions_of fleet_results))%nat
  end.
Proof.
  split; [vm_compute; reflexivity|].
  exact (laggards_are_behind_latest fleet_strptime (fun _ => epoch)
           0%nat 0%nat fleet_results fleet_patterns fleet_analysis).
Defined.

(** ** The order of dates and the distance between them *)

Lemma days_before_year_succ (y : Z) :
  days_before_year (y + 1)
  = (days_before_year y + 365 + (if is_leap y then 1 else 0))%Z.
Proof.
  unfold days_before_year, is_leap. cbn zeta.
  replace (y + 1 - 1)%Z with y by lia.
  destruct (Z.eqb_spec (y mod 4) 0), (Z.eqb_spec (y mod 100) 0),
    (Z.eqb_spec (y mod 400) 0); cbn; Z.div_mod_to_equations; lia.
Qed.

Lemma days_before_year_mono (y y' : Z) :
  (y <= y')%Z -> (days_before_year y <= days_before_year y')%Z.
Proof.
  unfold days_before_year. cbn zeta. intros H.
  Z.div_mod_to_equations. lia.
Qed.

Lemma month_cases (m : Z) :
  (1 <= m <= 12)%Z ->
  m = 1%Z \/ m = 2%Z \/ m = 3%Z \/ m = 4%Z \/ m = 5%Z \/ m = 6%Z \/
  m = 7%Z \/ m = 8%Z \/ m = 9%Z \/ m = 10%Z \/ m = 11%Z \/ m = 12%Z.
Proof. lia. Qed.

Ltac each_month H :=
  apply month_cases in H;
  repeat (destruct H as [H|H]; [subst|]); subst.

(** A month ends before the next one starts, and the year after all. *)
Lemma month_within_year (y m : Z) :
  (1 <= m <= 12)%Z ->
  (0 <= days_before_month y m)%Z /\
  (days_before_month y m + days_in_month y m
   <= 365 + (if is_leap y then 1 else 0))%Z.
Proof.
  intros H. unfold days_before_month, days_in_month.
  each_month H; destruct (is_leap y); cbv - [Z.le Z.lt]; lia.
Qed.

Lemma months_in_order (y m m' : Z) :
  (1 <= m <= 12)%Z -> (1 <= m' <= 12)%Z -> (m < m')%Z ->
  (days_before_month y m + days_in_month y m <= days_before_month y m')%Z.
Proof.
  intros H H' L. unfold days_before_month, days_in_month.
  each_month H; each_month H'; try lia; destruct (is_leap y);
    cbv - [Z.le Z.lt]; lia.
Qed.

Lemma valid_datetime_fields (d : datetime) :
  valid_datetime d = true ->
  (1 <= month d <= 12)%Z /\
  (1 <= day d <= days_in_month (year d) (month d))%Z /\
  (0 <= hour d < 24)%Z /\ (0 <= minute d < 60)%Z /\
  (0 <= second d < 60)%Z /\ (0 <= microsecond d < 1000000)%Z.
Proof.
  unfold valid_datetime. intros H.
  repeat (apply andb_prop in H as [H ?]).
  repeat match goal with
         | H : (_ <=? _)%Z = true |- _ => apply Z.leb_le in H
         | H : (_ <? _)%Z = true |- _ => apply Z.ltb_lt in H
         end.
  lia.
Qed.

Lemma to_microseconds_split (d : datetime) :
  to_microseconds d = (toordinal d * 86400000000 + time_of_day d)%Z.
Proof. unfold to_microseconds, time_of_day. ring. Qed.

Lemma time_of_day_range (d : datetime) :
  valid_datetime d = true -> (0 <= time_of_day d < 86400000000)%Z.
Proof.
  intros H. apply valid_datetime_fields in H.
  unfold time_of_day. lia.
Qed.

(** A later year, month or day has a greater ordinal. *)
Lemma toordinal_order (a b : datetime) :
  valid_datetime a = true -> valid_datetime b = true ->
  (year a < year b)%Z \/
  (year a = year b /\
   ((month a < month b)%Z \/ (month a = month b /\ (day a < day b)%Z))) ->
  (toordinal a < toordinal b)%Z.
Proof.
  intros Va Vb. apply valid_datetime_fields in Va, Vb.
  destruct Va as [Ma [Da _]], Vb as [Mb [Db _]].
  unfold toordinal.
  pose proof (month_within_year (year a) (month a) Ma) as [_ Ea].
  pose proof (month_within_year (year b) (month b) Mb) as [Sb _].
  intros [Y|[Y [M|[M D]]]].
  - pose proof (days_before_year_mono (year a + 1) (year b)).
    rewrite days_before_year_succ in *. lia.
  - rewrite Y in *.
    pose proof (months_in_order (year b) (month a) (month b) Ma Mb M). lia.
  - rewrite Y, M in *. lia.
Qed.

(** Dates compare as the instants they name. *)
Lemma datetime_lt_instants (a b : datetime) :
  valid_datetime a = true -> valid_datetime b = true ->
  datetime_lt a b = true <-> (to_microseconds a < to_microseconds b)%Z.
Proof.
  intros Va Vb.
  pose proof (time_of_day_range a Va) as Ta.
  pose proof (time_of_day_range b Vb) as Tb.
  pose proof (toordinal_order a b Va Vb) as Oab.
  pose proof (toordinal_order b a Vb Va) as Oba.
  assert (Same : year a = year b -> month a = month b -> day a = day b ->
                 toordinal a = toordinal b).
  { unfold toordinal. now intros -> -> ->. }
  rewrite !to_microseconds_split.
  apply valid_datetime_fields in Va, Vb.
  unfold datetime_lt, datetime_fields, tuple_lt.
  unfold time_of_day in *.
  destruct (Z.ltb_spec (year a) (year b)); cbn [orb].
  { split; [intros _|reflexivity].
    assert (toordinal a < toordinal b)%Z by (apply Oab; lia). lia. }
  destruct (Z.eqb_spec (year a) (year b)); cbn [andb].
  2: { split; [discriminate|].
       assert (toordinal b < toordinal a)%Z by (apply Oba; lia). lia. }
  destruct (Z.ltb_spec (month a) (month b)); cbn [orb].
  { split; [intros _|reflexivity].
    assert (toordinal a < toordinal b)%Z by (apply Oab; lia). lia. }
  destruct (Z.eqb_spec (month a) (month b)); cbn [andb].
  2: { split; [discriminate|].
       assert (toordinal b < toordinal a)%Z by (apply Oba; lia). lia. }
  destruct (Z.ltb_spec (day a) (day b)); cbn [orb].
  { split; [intros _|reflexivity].
    assert (toordinal a < toordinal b)%Z by (apply Oab; lia). lia. }
  destruct (Z.eqb_spec (day a) (day b)); cbn [andb].
  2: { split; [discriminate|].
       assert (toordinal b < toordinal a)%Z by (apply Oba; lia). lia. }
  rewrite (Same e e0 e1). clear Oab Oba Same.
  destruct (Z.ltb_spec (hour a) (hour b)); cbn [orb].
  { split; [intros _; lia|reflexivity]. }
  destruct (Z.eqb_spec (hour a) (hour b)); cbn [andb].
  2: { split; [discriminate|lia]. }
  destruct (Z.ltb_spec (minute a) (minute b)); cbn [orb].
  { split; [intros _; lia|reflexivity]. }
  destruct (Z.eqb_spec (minute a) (minute b)); cbn [andb].
  2: { split; [discriminate|lia]. }
  destruct (Z.ltb_spec (second a) (second b)); cbn [orb].
  { split; [intros _; lia|reflexivity]. }
  destruct (Z.eqb_spec (second a) (second b)); cbn [andb].
  2: { split; [discriminate|lia]. }
  destruct (Z.ltb_spec (microsecond a) (microsecond b)); cbn [orb].
  { split; [intros _; lia|reflexivity]. }
  destruct (Z.eqb_spec (microsecond a) (microsecond b)); cbn [andb];
    (split; [discriminate|lia]).
Qed.

(** The days from [b] to [a] are negative exactly when [a] is before [b]. *)
Lemma days_between_sign (a b : datetime) :
  valid_datetime a = true -> valid_datetime b = true ->
  (days_between a b < 0)%Z <-> datetime_lt a b = true.
Proof.
  intros Va Vb. rewrite (datetime_lt_instants a b Va Vb).
  unfold days_between. split; intros H.
  - destruct (Z.lt_ge_cases (to_microseconds a) (to_microseconds b));
      [assumption|].
    assert (0 <= (to_microseconds a - to_microseconds b) / 86400000000)%Z
      by (apply Z.div_pos; lia).
    lia.
  - apply Z.div_lt_upper_bound; lia.
Qed.

Lemma key_set_Forall {V : Type} (P : json * V -> Prop) (k : json) (v : V)
    (d : list (json * V)) :
  Forall P d -> (forall k', P (k', v)) -> Forall P (key_set k v d).
Proof.
  intros F Hv. induction F as [|[k0 v0] d H F IH]; cbn.
  - constructor; [apply Hv|constructor].
  - destruct (py_eq k0 k); constructor; auto.
Qed.

Lemma key_lookup_In {V : Type} (k : json) (x : V) (d : list (json * V)) :
  key_lookup k d = Some x -> exists k0, In (k0, x) d.
Proof.
  intros H. destruct (key_lookup_some k x d H) as [l1 [k0 [l2 [-> _]]]].
  exists k0. apply in_app_iff. right. now left.
Qed.

(** With a clock and a parser that give real dates, every date kept in
    [version_dates] is one. *)
Lemma see_change_valid (strptime : string -> result datetime)
    (now : nat -> datetime)
    (st st' : list (json * MultiAnalysis.version_seen) * nat)
    (c : Multi.change_record) :
  (forall s d, strptime s = Ok d -> valid_datetime d = true) ->
  (forall n, valid_datetime (now n) = true) ->
  MultiAnalysis.see_change strptime now st c = Ok st' ->
  Forall (fun item =>
            valid_datetime (MultiAnalysis.first_seen (snd item)) = true /\
            valid_datetime (MultiAnalysis.last_seen (snd item)) = true)
    (fst st) ->
  Forall (fun item =>
            valid_datetime (MultiAnalysis.first_seen (snd item)) = true /\
            valid_datetime (MultiAnalysis.last_seen (snd item)) = true)
    (fst st').
Proof.
  intros Hs Hn. destruct st as [vd clock].
  unfold MultiAnalysis.see_change. cbn [fst].
  destruct (truthy (Multi.effective_version c)); cbn [negb];
    [|now intros [= <-]].
  intros H F. apply bind_ok in H as [[d clock1] [P H]].
  assert (Vd : valid_datetime d = true).
  { unfold MultiAnalysis.parse_git_date in P.
    destruct (split_whitespace (Multi.date c)) as [|p0 [|p1 rest]];
      try (injection P as <- _; apply Hn).
    apply bind_ok in P as [d' [P [= <- _]]]. eapply Hs, P. }
  destruct (hashable (Multi.effective_version c)); cbn [negb] in H;
    [|discriminate].
  injection H as H. subst st'. cbn [fst].
  apply key_set_Forall; [exact F|]. intros k'. cbn [snd].
  destruct (key_lookup _ vd) as [info|] eqn:L; [|cbn; auto].
  apply key_lookup_In in L as [k0 Hin].
  rewrite Forall_forall in F. destruct (F _ Hin) as [V1 V2]. cbn [snd] in *.
  destruct (datetime_lt d (MultiAnalysis.first_seen info));
    cbn [MultiAnalysis.first_seen MultiAnalysis.last_seen];
    destruct (datetime_lt _ d);
    cbn [MultiAnalysis.first_seen MultiAnalysis.last_seen]; auto.
Qed.

(** X14.  With a clock and a date parser that give dates that exist, no
    adoption speed of a returned analysis is negative: the first
    appearance of a version is never after its last. *)
Theorem adoption_speed_not_negative
    (strptime : string -> result datetime) (now : nat -> datetime)
    (clock clock' : nat) (rs : list (string * Multi.repo_result))
    (p : MultiAnalysis.patterns) :
  (forall s d, strptime s = Ok d -> valid_datetime d = true) ->
  (forall n, valid_datetime (now n) = true) ->
  MultiAnalysis.analyze_adoption_patterns strptime now clock rs
  = Ok (p, clock') ->
  forall k s, In (k, s) (MultiAnalysis.adoption_speed p) ->
              (0 <= MultiAnalysis.days_to_adoption s)%Z.
Proof.
  intros Hs Hn H k s Hin.
  destruct (analyze_ok _ _ _ _ _ _ H) as [vd [L [_ [Es _]]]].
  assert (I : dates_ok ([] ++ analysed_changes rs) vd).
  { apply (for_each_prefix_invariant
             (MultiAnalysis.see_change strptime now)
             (fun pre st => dates_ok pre (fst st))
             (fun pre s x s' => see_change_ok strptime now pre s s' x)
             _ [] _ _ L).
    split; [constructor|]. split; [intros ? ? []|intros ? []]. }
  assert (V : Forall (fun item =>
                valid_datetime (MultiAnalysis.first_seen (snd item)) = true /\
                valid_datetime (MultiAnalysis.last_seen (snd item)) = true)
                vd).
  { apply (for_each_invariant (MultiAnalysis.see_change strptime now)
             (fun st => Forall _ (fst st))
             (fun s x s' => see_change_valid strptime now s s' x Hs Hn)
             _ _ _ L).
    constructor. }
  rewrite Es in Hin. apply in_flat_map in Hin as [[k' info] [Hv Hin]].
  cbn [fst snd] in Hin. destruct (1 <? _)%nat; [|destruct Hin].
  destruct Hin as [[= _ <-]|[]]. cbn.
  rewrite Forall_forall in V. destruct (V _ Hv) as [V1 V2]. cbn [snd] in *.
  destruct (proj1 (proj2 I) k' info Hv) as [_ [_ [Order _]]].
  destruct (Z.lt_ge_cases
              (days_between (MultiAnalysis.last_seen info)
                 (MultiAnalysis.first_seen info)) 0) as [Neg|Pos];
    [|lia].
  apply days_between_sign in Neg; [congruence|assumption|assumption].
Qed.

Lemma adoption_speed_not_negative_witness :
  map (fun item => MultiAnalysis.days_to_adoption (snd item))
    (MultiAnalysis.adoption_speed fleet_patterns) = [31%Z] /\
  forall k s, In (k, s) (MultiAnalysis.adoption_speed fleet_patterns) ->
              (0 <= MultiAnalysis.days_to_adoption s)%Z.
Proof.
  split; [vm_compute; reflexivity|].
  apply (adoption_speed_not_negative fleet_strptime (fun _ => epoch)
           0%nat 0%nat fleet_results).
  - intros s d. unfold fleet_strptime.
    destruct (s =? "2024-01-01 10:00:00"); [now intros [= <-]|].
    destruct (s =? "2024-02-01 10:00:00"); [now intros [= <-]|discriminate].
  - reflexivity.
  - exact fleet_analysis.
Defined.

(** ** The rows of the exported history *)






(** ** The sign of a lag *)

Lemma with_previous_In (adoptions : list adoption) (prev : option adoption)
    (cur : adoption) :
  In (prev, cur) (with_previous adoptions) ->
  In cur adoptions /\
  match prev with
  | Some p => In p adoptions
  | None => True
  end.
Proof.
  unfold with_previous. intros H. split; [eapply in_combine_r; exact H|].
  apply in_combine_l in H. destruct prev as [p|]; [|exact I].
  destruct H as [H|H]; [discriminate|].
  apply in_map_iff in H as [p' [[= ->] H]]. exact H.
Qed.

(** X16.  With dates that exist, the lag of an entry of the metrics is
    negative exactly when its adoption is dated before the release of
    its version, and its days since the last update are negative exactly
    when it is dated before the adoption record that precedes it. *)
Theorem lag_negative_iff_adopted_before_release
    (releases : list (string * release)) (adoptions : list adoption) :
  Forall (fun item => valid_datetime (release_date (snd item)) = true)
    releases ->
  Forall (fun a => valid_datetime (adoption_date a) = true) adoptions ->
  forall e,
    In e (metric_versions (Adoption.repo_metrics_of releases adoptions)) ->
    exists prev cur rel,
      In (prev, cur) (with_previous adoptions) /\
      lookup (adopted_version cur) releases = Some rel /\
      info_adoption_date e = adoption_date cur /\
      info_release_date e = release_date rel /\
      ((lag_days e < 0)%Z
       <-> datetime_lt (adoption_date cur) (release_date rel) = true) /\
      match prev with
      | None => days_since_last_update e = None
      | Some p =>
          exists n,
            days_since_last_update e = Some n /\
            ((n < 0)%Z
             <-> datetime_lt (adoption_date cur) (adoption_date p) = true)
      end.
Proof.
  intros Vr Va e He.
  rewrite (proj1 (repo_metrics_lists releases adoptions)) in He.
  unfold version_entries in He.
  apply in_flat_map in He as [[prev cur] [Hp He]]. cbn [fst snd] in He.
  unfold version_entry in He.
  destruct (lookup (adopted_version cur) releases) as [rel|] eqn:L;
    [|destruct He].
  destruct He as [<-|[]].
  rewrite Forall_forall in Vr, Va.
  destruct (with_previous_In _ _ _ Hp) as [Hc Hprev].
  pose proof (Vr _ (lookup_In _ _ _ L)) as Vrel. cbn [snd] in Vrel.
  exists prev, cur, rel. cbn.
  split; [exact Hp|]. split; [exact L|]. split; [reflexivity|].
  split; [reflexivity|]. split.
  - apply days_between_sign; auto.
  - destruct prev as [p|]; [|reflexivity].
    eexists. split; [reflexivity|]. apply days_between_sign; auto.
Qed.

Lemma lag_negative_iff_adopted_before_release_witness :
  map lag_days
    (metric_versions (Adoption.repo_metrics_of two_releases early_adoptions))
  = [(-1)%Z; 24%Z] /\
  forall e,
    In e (metric_versions
            (Adoption.repo_metrics_of two_releases early_adoptions)) ->
    exists prev cur rel,
      In (prev, cur) (with_previous early_adoptions) /\
      lookup (adopted_version cur) two_releases = Some rel /\
      info_adoption_date e = adoption_date cur /\
      info_release_date e = release_date rel /\
      ((lag_days e < 0)%Z
       <-> datetime_lt (adoption_date cur) (release_date rel) = true) /\
      match prev with
      | None => days_since_last_update e = None
      | Some p =>
          exists n,
            days_since_last_update e = Some n /\
            ((n < 0)%Z
             <-> datetime_lt (adoption_date cur) (adoption_date p) = true)
      end.
Proof.
  split; [vm_compute; reflexivity|].
  apply (lag_negative_iff_adopted_before_release two_releases
           early_adoptions).
  - repeat constructor.
  - repeat constructor.
Defined.
